(** * Bayesian decision tree: hyperplane nodes

    A shallow embedding of [bayesian_decision_tree/base.py] (class
    [BaseNode]) and [bayesian_decision_tree/base_hyperplane.py] (class
    [BaseHyperplaneNode]): the recursive [_fit], the routing [_predict],
    [depth_and_leaves], [is_leaf] and [_prune].

    - Numbers held in numpy arrays are IEEE 754 binary64 values, modelled
      by the Standard Library's [spec_float] with precision 53 and maximal
      exponent 1024, so that comparisons with NaN behave as in numpy.
    - Python exceptions are values of [exception]; a method that can raise
      returns a [result].
    - A node is a record of the attributes the engine reads and writes; a
      method that assigns attributes returns the node after the call.
      Children are owned by their parent, so a tree of records loses no
      aliasing.
    - The abstract model methods and the optimizer are parameters.
    - The input [X] is the matrix that [_normalize_data_and_feature_names]
      returns; [_predict] is the instance [predict_class=True] that
      [predict] calls; [level] is a non-negative integer. *)

From Stdlib Require Import String.
From Stdlib Require Import Numbers.DecimalString Numbers.DecimalNat.
From Stdlib Require Import ZArith List Bool Arith Lia.
From Stdlib Require Import Floats.SpecFloat.
From Stdlib Require Import Sorting.Sorted.
Import ListNotations.

Set Implicit Arguments.

(** ** binary64 *)

Module F64.

Definition prec : Z := 53.
Definition emax : Z := 1024.

Definition float : Type := spec_float.

Definition zero : float := S754_zero false.
Definition nan : float := S754_nan.
Definition of_Z (z : Z) : float := binary_normalize prec emax z 0 false.
Definition one : float := Eval vm_compute in of_Z 1.

Definition add : float -> float -> float := SFadd prec emax.
Definition sub : float -> float -> float := SFsub prec emax.
Definition mul : float -> float -> float := SFmul prec emax.

Definition ltb : float -> float -> bool := SFltb.
Definition leb : float -> float -> bool := SFleb.
Definition eqb : float -> float -> bool := SFeqb.

Definition is_nan (x : float) : bool :=
  match x with S754_nan => true | _ => false end.

(** [x < 0] and [x >= 0] as numpy evaluates them elementwise. *)
Definition lt0 (x : float) : bool := ltb x zero.
Definition ge0 (x : float) : bool := leb zero x.

End F64.

Abbreviation float := F64.float.

(** ** Exceptions and results *)

Inductive exception : Type :=
| ValueError (msg : string)
| TypeError (msg : string)
| AttributeError (msg : string)
| IndexError (msg : string)
| AssertionError (msg : string).

(** [OutOfFuel] is not a Python outcome: it marks a recursion cut off by the
    fuel of [_fit_rec] and [_prune_rec].  [_fit] is shown never to produce
    it, and [_prune] never on a trained tree. *)
Inductive result (A : Type) : Type :=
| Ok (a : A)
| Raise (e : exception)
| OutOfFuel.

Arguments Ok {A} a.
Arguments Raise {A} e.
Arguments OutOfFuel {A}.

Definition bind {A B : Type} (r : result A) (k : A -> result B) : result B :=
  match r with
  | Ok a => k a
  | Raise e => Raise e
  | OutOfFuel => OutOfFuel
  end.

Notation "x <- e ;; k" := (bind e (fun x => k))
  (at level 61, e at next level, right associativity).
Notation "e ;;; k" := (bind e (fun _ => k))
  (at level 61, right associativity).

(** ** numpy arrays *)

(** A 2-D array (dense or sparse: the CSR to CSC conversion of the source
    changes the layout only): [X.shape = (length rows, n_cols)]. *)
Record Matrix : Type := mkMatrix {
  n_cols : nat;
  rows : list (list float)
}.

Definition shape0 (X : Matrix) : nat := length (rows X).
Definition shape1 (X : Matrix) : nat := n_cols X.

(** [a[indices]] for an index array: numpy raises IndexError out of range. *)
Fixpoint take {A : Type} (a : list A) (indices : list nat) : result (list A) :=
  match indices with
  | [] => Ok []
  | i :: rest =>
      match nth_error a i with
      | Some v => vs <- take a rest ;; Ok (v :: vs)
      | None => Raise (IndexError "index out of bounds")
      end
  end.

Definition take_rows (X : Matrix) (indices : list nat) : result Matrix :=
  rs <- take (rows X) indices ;; Ok (mkMatrix (n_cols X) rs).

(** Sum of products, accumulated from the left. *)
Definition dot_raw (u v : list float) : float :=
  fold_left (fun acc ab => F64.add acc (F64.mul (fst ab) (snd ab)))
            (combine u v) F64.zero.

(** [np.dot(u, v)] on 1-D arrays. *)
Definition np_dot (u v : list float) : result float :=
  if length u =? length v then Ok (dot_raw u v)
  else Raise (ValueError "shapes not aligned").

(** [X @ v] for a 2-D [X] and a 1-D [v]. *)
Definition matmul (X : Matrix) (v : list float) : result (list float) :=
  if shape1 X =? length v then Ok (map (fun r => dot_raw r v) (rows X))
  else Raise (ValueError "matmul: mismatch in core dimension").

(** [X @ normal - np.dot(normal, origin)]: the signed distances. *)
Definition projections (X : Matrix) (normal origin : list float)
  : result (list float) :=
  ps <- matmul X normal ;;
  c <- np_dot normal origin ;;
  Ok (map (fun p => F64.sub p c) ps).

(** [np.where(mask)[0]]: the positions where the test holds, ascending. *)
Fixpoint where_from (test : float -> bool) (i : nat) (ps : list float)
  : list nat :=
  match ps with
  | [] => []
  | p :: ps' =>
      if test p then i :: where_from test (S i) ps'
      else where_from test (S i) ps'
  end.

Definition np_where (test : float -> bool) (ps : list float) : list nat :=
  where_from test 0 ps.

Definition np_zeros (n : nat) : list float := repeat F64.zero n.

(** Write [v] at position [i]; numpy raises IndexError out of range. *)
Fixpoint set_nth (a : list float) (i : nat) (v : float) : result (list float) :=
  match a, i with
  | [], _ => Raise (IndexError "index out of bounds")
  | _ :: a', O => Ok (v :: a')
  | x :: a', S i' => a'' <- set_nth a' i' v ;; Ok (x :: a'')
  end.

Fixpoint assign_each (a : list float) (indices : list nat) (vs : list float)
  : result (list float) :=
  match indices, vs with
  | i :: indices', v :: vs' =>
      a' <- set_nth a i v ;; assign_each a' indices' vs'
  | _, _ => Ok a
  end.

(** [a[indices] = values] on a float array: [None] is stored as NaN, a
    one-element array is broadcast, any other length mismatch is a
    ValueError. *)
Definition assign (a : list float) (indices : list nat)
           (values : option (list float)) : result (list float) :=
  match values with
  | None => assign_each a indices (repeat F64.nan (length indices))
  | Some vs =>
      if length vs =? length indices then assign_each a indices vs
      else match vs with
           | [v] => assign_each a indices (repeat v (length indices))
           | _ => Raise (ValueError "shape mismatch")
           end
  end.

(** ['{}'.format(n)] for an int, and for an attribute that may be [None]. *)
Definition format_nat (n : nat) : string :=
  NilZero.string_of_uint (Nat.to_uint n).

Definition format_opt_nat (o : option nat) : string :=
  match o with
  | Some n => format_nat n
  | None => "None"
  end.

Definition opt_nat_eqb (o : option nat) (n : nat) : bool :=
  match o with
  | Some m => m =? n
  | None => false
  end.

(** ** Nodes *)

Section Tree.

(** The hyperparameter arrays ([prior], [posterior]) and the targets. *)
Variables Params Label : Type.

(** The abstract methods of [BaseNode] that a concrete model supplies.
    [_compute_posterior] and [_check_target] read [self.prior],
    [_predict_leaf] reads [self.posterior]; the value a leaf predicts is
    stored in a float array. *)
Record ModelHooks : Type := mkHooks {
  _check_target : Params -> list Label -> option exception;
  _compute_posterior : Params -> list Label -> float -> Params;
  _predict_leaf : Params -> float
}.

(** Modelled from the spec: the optimizer and its objective
    ([hyperplane_optimization.py]) are consumed as an interface that, for
    the node's priors and its data, returns a best hyperplane (normal and
    origin together) or signals that none was found. *)
Record Optimizer : Type := mkOptimizer {
  solve : float -> Params -> Matrix -> list Label
          -> option (list float * list float)
}.

Variable hooks : ModelHooks.
Variable optimizer : Optimizer.

(** ['{}'.format(delta)] for a float; only the text of one message. *)
Variable format_float : float -> string.

(** The attributes of a node that fit, predict and prune read or write. *)
#[warnings="-register-all"]
Inductive Node : Type := mkNode {
  partition_prior : float;
  prior : Params;
  level : nat;
  n_dim : option nat;
  posterior : option Params;
  child1 : option Node;
  child2 : option Node;
  best_hyperplane_normal : option (list float);
  best_hyperplane_origin : option (list float)
}.

(** [BaseHyperplaneNode.__init__]: everything "to be set later" is None. *)
Definition new_node (pp : float) (pr : Params) (lvl : nat) : Node :=
  mkNode pp pr lvl None None None None None None.

Definition set_posterior (self : Node) (po : Params) : Node :=
  mkNode (partition_prior self) (prior self) (level self) (n_dim self)
         (Some po) (child1 self) (child2 self)
         (best_hyperplane_normal self) (best_hyperplane_origin self).

Definition set_n_dim (self : Node) (d : nat) : Node :=
  mkNode (partition_prior self) (prior self) (level self) (Some d)
         (posterior self) (child1 self) (child2 self)
         (best_hyperplane_normal self) (best_hyperplane_origin self).

Definition set_child1 (self : Node) (c : option Node) : Node :=
  mkNode (partition_prior self) (prior self) (level self) (n_dim self)
         (posterior self) c (child2 self)
         (best_hyperplane_normal self) (best_hyperplane_origin self).

Definition set_child2 (self : Node) (c : option Node) : Node :=
  mkNode (partition_prior self) (prior self) (level self) (n_dim self)
         (posterior self) (child1 self) c
         (best_hyperplane_normal self) (best_hyperplane_origin self).

Definition set_hyperplane (self : Node) (normal origin : option (list float))
  : Node :=
  mkNode (partition_prior self) (prior self) (level self) (n_dim self)
         (posterior self) (child1 self) (child2 self) normal origin.

Definition untrained_msg : string :=
  "Cannot predict on an untrained model; call .fit() first".

Definition bad_dims_msg (expected : option nat) (got : nat) : string :=
  "Bad input dimensions: Expected " ++ format_opt_nat expected
    ++ ", got " ++ format_nat got.

(** [_ensure_is_fitted(X=None)] *)
Definition _ensure_is_fitted (self : Node) (X : option Matrix) : result unit :=
  match posterior self with
  | None => Raise (ValueError untrained_msg)
  | Some _ =>
      match X with
      | Some X' =>
          if negb (opt_nat_eqb (n_dim self) (shape1 X'))
          then Raise (ValueError (bad_dims_msg (n_dim self) (shape1 X')))
          else Ok tt
      | None => Ok tt
      end
  end.

(** [is_leaf] *)
Definition is_leaf (self : Node) : result bool :=
  _ensure_is_fitted self None ;;;
  Ok (match best_hyperplane_normal self with None => true | Some _ => false end).

(** [self._predict_leaf()]: the hook reads [self.posterior]; every call
    in the source comes after a successful [is_leaf], so the posterior is
    present. *)
Definition predict_leaf_of (self : Node) : result float :=
  match posterior self with
  | Some po => Ok (_predict_leaf hooks po)
  | None => Raise (TypeError "posterior is None")
  end.

Definition none_attr (name : string) : exception :=
  AttributeError ("'NoneType' object has no attribute '" ++ name ++ "'").

(** [_compute_child1_and_child2_indices] *)
Definition _compute_child1_and_child2_indices (self : Node) (X : Matrix)
  : result (list nat * list nat) :=
  match best_hyperplane_normal self, best_hyperplane_origin self with
  | Some normal, Some origin =>
      ps <- projections X normal origin ;;
      Ok (np_where F64.lt0 ps, np_where F64.ge0 ps)
  | _, _ => Raise (TypeError "unsupported operand type: NoneType")
  end.

(** [_create_merged_predictions_array(X, True, _)] *)
Definition _create_merged_predictions_array (X : Matrix) : list float :=
  np_zeros (shape0 X).

(** [_predict(X, predict_class=True)]: the result is an array, or [None]
    when an internal node routes no row to either child. *)
Fixpoint _predict (self : Node) (X : Matrix) {struct self}
  : result (option (list float)) :=
  leaf <- is_leaf self ;;
  if leaf : bool then
    prediction <- predict_leaf_of self ;;
    Ok (Some (map (fun _ => prediction) (_create_merged_predictions_array X)))
  else
    idx <- _compute_child1_and_child2_indices self X ;;
    let indices1 := fst idx in
    let indices2 := snd idx in
    merged1 <-
      (if 0 <? length indices1 then
         X1 <- take_rows X indices1 ;;
         match child1 self with
         | None => Raise (none_attr "_predict")
         | Some c =>
             predictions1 <- _predict c X1 ;;
             m <- assign (_create_merged_predictions_array X)
                         indices1 predictions1 ;;
             Ok (Some m)
         end
       else Ok None) ;;
    if 0 <? length indices2 then
      X2 <- take_rows X indices2 ;;
      match child2 self with
      | None => Raise (none_attr "_predict")
      | Some c =>
          predictions2 <- _predict c X2 ;;
          let base := match merged1 with
                      | Some m => m
                      | None => _create_merged_predictions_array X
                      end in
          m <- assign base indices2 predictions2 ;;
          Ok (Some m)
      end
    else Ok merged1.

(** [predict] on the normalized input. *)
Definition predict (self : Node) (X : Matrix) : result (list float) :=
  _ensure_is_fitted self (Some X) ;;;
  prediction <- _predict self X ;;
  match prediction with
  | Some a => Ok a
  | None => Ok (_create_merged_predictions_array X)
  end.

(** [_update_depth_and_leaves] *)
Fixpoint _update_depth_and_leaves (self : Node) (depth leaves : nat)
         {struct self} : result (nat * nat) :=
  leaf <- is_leaf self ;;
  if leaf : bool then Ok (Nat.max depth (level self), leaves + 1)
  else
    match child1 self with
    | Some c1 =>
        dl <- _update_depth_and_leaves c1 depth leaves ;;
        match child2 self with
        | Some c2 => _update_depth_and_leaves c2 (fst dl) (snd dl)
        | None => Raise (none_attr "_update_depth_and_leaves")
        end
    | None => Ok (depth, leaves)
    end.

Definition depth_and_leaves (self : Node) : result (nat * nat) :=
  _update_depth_and_leaves self 0 0.

(** [_fit]; [verbose] only prints, [feature_names] is only passed on, and
    the no-split likelihood and the objective only feed the optimizer.
    A child is fitted on strictly fewer rows than its parent, so the
    recursion is cut by [fuel] and [_fit] below supplies enough of it. *)
Fixpoint _fit_rec (fuel : nat) (self : Node) (X : Matrix) (y : list Label)
         (delta : float) {struct fuel} : result Node :=
  match fuel with
  | O => OutOfFuel
  | S fuel' =>
      self' <-
        match solve optimizer (partition_prior self) (prior self) X y with
        | Some (normal, origin) =>
            ps <- projections X normal origin ;;
            let indices1 := np_where F64.lt0 ps in
            let indices2 := np_where F64.ge0 ps in
            if (0 <? length indices1) && (0 <? length indices2) then
              X1 <- take_rows X indices1 ;;
              X2 <- take_rows X indices2 ;;
              y1 <- take y indices1 ;;
              y2 <- take y indices2 ;;
              let prior_child1 :=
                _compute_posterior hooks (prior self) y1 F64.zero in
              let prior_child2 :=
                _compute_posterior hooks (prior self) y2 F64.zero in
              let c1 := new_node (partition_prior self) prior_child1
                                 (level self + 1) in
              let c2 := new_node (partition_prior self) prior_child2
                                 (level self + 1) in
              c1' <- (if 1 <? shape0 X1 then _fit_rec fuel' c1 X1 y1 delta
                      else Ok (set_posterior c1
                             (_compute_posterior hooks (prior self) y1 F64.one))) ;;
              c2' <- (if 1 <? shape0 X2 then _fit_rec fuel' c2 X2 y2 delta
                      else Ok (set_posterior c2
                             (_compute_posterior hooks (prior self) y2 F64.one))) ;;
              Ok (set_child2
                    (set_child1
                       (set_hyperplane self (Some normal) (Some origin))
                       (Some c1'))
                    (Some c2'))
            else Ok self
        | None => Ok self
        end ;;
      Ok (set_posterior (set_n_dim self' (shape1 X))
                        (_compute_posterior hooks (prior self) y F64.one))
  end.

Definition _fit (self : Node) (X : Matrix) (y : list Label) (delta : float)
  : result Node :=
  _fit_rec (S (shape0 X)) self X y delta.

(** The number of nodes of the object graph hanging off [self]. *)
Fixpoint nodes (self : Node) : nat :=
  S ((match child1 self with Some c => nodes c | None => 0 end)
     + (match child2 self with Some c => nodes c | None => 0 end)).

Definition pair_eqb (a b : nat * nat) : bool :=
  (fst a =? fst b) && (snd a =? snd b).

(** The collapse of [_prune]: both children and the split are dropped. *)
Definition collapse (self : Node) : Node :=
  set_hyperplane (set_child2 (set_child1 self None) None) None None.

(** [_prune].  The re-run after a change is not structural: it is cut by
    [fuel], and [_prune] below supplies the node count. *)
Fixpoint _prune_rec (fuel : nat) (self : Node) {struct fuel} : result Node :=
  match fuel with
  | O => OutOfFuel
  | S fuel' =>
      depth_and_leaves_start <- depth_and_leaves self ;;
      leaf <- is_leaf self ;;
      if leaf : bool then Ok self
      else
        self' <-
          match child1 self with
          | None => Raise (none_attr "is_leaf")
          | Some c1 =>
              leaf1 <- is_leaf c1 ;;
              both <- (if leaf1 : bool then
                         match child2 self with
                         | None => Raise (none_attr "is_leaf")
                         | Some c2 => is_leaf c2
                         end
                       else Ok false) ;;
              if both : bool then
                match child2 self with
                | None => Raise (none_attr "_predict_leaf")
                | Some c2 =>
                    p1 <- predict_leaf_of c1 ;;
                    p2 <- predict_leaf_of c2 ;;
                    if F64.eqb p1 p2 then Ok (collapse self) else Ok self
                end
              else
                c1' <- _prune_rec fuel' c1 ;;
                match child2 self with
                | None => Raise (none_attr "_prune")
                | Some c2 =>
                    c2' <- _prune_rec fuel' c2 ;;
                    Ok (set_child2 (set_child1 self (Some c1')) (Some c2'))
                end
          end ;;
        depth_and_leaves_end <- depth_and_leaves self' ;;
        if negb (pair_eqb depth_and_leaves_start depth_and_leaves_end)
        then _prune_rec fuel' self'
        else Ok self'
  end.

Definition _prune (self : Node) : result Node :=
  _prune_rec (nodes self) self.

(** [fit] on the normalized input; the result is the node after the call. *)
Definition fit (self : Node) (X : Matrix) (y : list Label) (delta : float)
           (prune : bool) : result Node :=
  (if level self =? 0 then
     match _check_target hooks (prior self) y with
     | Some e => Raise e
     | None => Ok tt
     end
   else Ok tt) ;;;
  if F64.ltb delta F64.zero || F64.ltb F64.one delta then
    Raise (ValueError ("Delta must be between 0.0 and 1.0 but was "
                         ++ format_float delta ++ "."))
  else
    self' <- _fit self X y delta ;;
    if prune then _prune self' else Ok self'.

(** [y.squeeze()] in [fit]: a 1-D target of exactly one entry becomes a
    0-d array, which still holds the entry but has no length; any other
    1-D target stays as it is. *)
Definition squeezed_to_0d (y : list Label) : bool := length y =? 1.

(** The progress line that [_fit] prints first when [verbose]; what is
    printed is not part of the model, but the line takes [len(y)], and
    [len] of a 0-d array is a TypeError.  Only the call on the root can
    fail here: a child is fitted on at least two rows and as many
    targets, taken from a 1-D array by an index array. *)
Definition print_progress (verbose : bool) (y : list Label) : result unit :=
  if verbose && squeezed_to_0d y
  then Raise (TypeError "len() of unsized object")
  else Ok tt.

(** [fit] with its [verbose] argument; [fit] above is the call with
    [verbose=False], the default. *)
Definition fit_verbose (self : Node) (X : Matrix) (y : list Label)
           (delta : float) (prune verbose : bool) : result Node :=
  (if level self =? 0 then
     match _check_target hooks (prior self) y with
     | Some e => Raise e
     | None => Ok tt
     end
   else Ok tt) ;;;
  if F64.ltb delta F64.zero || F64.ltb F64.one delta then
    Raise (ValueError ("Delta must be between 0.0 and 1.0 but was "
                         ++ format_float delta ++ "."))
  else
    print_progress verbose y ;;;
    self' <- _fit self X y delta ;;
    if prune then _prune self' else Ok self'.

(** ** Specification vocabulary *)

(** The signed distance of one row to a stored hyperplane, as
    [projections] computes it for a one-row matrix. *)
Definition signed_distance (x normal origin : list float) : float :=
  F64.sub (dot_raw x normal) (dot_raw normal origin).

(** The leaf a row is routed to: negative distance to [child1],
    non-negative distance to [child2]; [None] when the row meets a node
    where its distance is neither. *)
Fixpoint leaf_for (self : Node) (x : list float) {struct self} : option Node :=
  match best_hyperplane_normal self, best_hyperplane_origin self with
  | Some normal, Some origin =>
      let p := signed_distance x normal origin in
      if F64.lt0 p then
        match child1 self with Some c => leaf_for c x | None => None end
      else if F64.ge0 p then
        match child2 self with Some c => leaf_for c x | None => None end
      else None
  | _, _ => Some self
  end.

(** The leaves reachable from [self], left to right. *)
Fixpoint leaves_of (self : Node) : list Node :=
  match best_hyperplane_normal self with
  | None => [self]
  | Some _ =>
      (match child1 self with Some c => leaves_of c | None => [] end)
        ++ (match child2 self with Some c => leaves_of c | None => [] end)
  end.

(** The shape of a fitted tree over [d] features: every node has a
    posterior; a node either stores no split and has no child, or stores
    a hyperplane of dimension [d], has [n_dim = d] and has two children
    of that shape. *)
Inductive fitted (d : nat) : Node -> Prop :=
| fitted_leaf : forall pp pr lvl nd po,
    fitted d (mkNode pp pr lvl nd (Some po) None None None None)
| fitted_internal : forall pp pr lvl po c1 c2 normal origin,
    length normal = d ->
    length origin = d ->
    fitted d c1 ->
    fitted d c2 ->
    fitted d (mkNode pp pr lvl (Some d) (Some po) (Some c1) (Some c2)
                     (Some normal) (Some origin)).

(** The nodes a user can hold after training: the result of [fit] on a
    freshly constructed node, of [_prune] on such a node, and the
    children of such nodes. *)
Inductive trained : Node -> Prop :=
| trained_fit : forall pp pr lvl X y delta prune t,
    fit (new_node pp pr lvl) X y delta prune = Ok t -> trained t
| trained_prune : forall t t',
    trained t -> _prune t = Ok t' -> trained t'
| trained_child1 : forall t c,
    trained t -> child1 t = Some c -> trained c
| trained_child2 : forall t c,
    trained t -> child2 t = Some c -> trained c.

(** In every node of the object graph the two children are both present
    or both absent. *)
Fixpoint paired (self : Node) : Prop :=
  match child1 self, child2 self with
  | None, None => True
  | Some c1, Some c2 => paired c1 /\ paired c2
  | _, _ => False
  end.

(** [n] is [self] or one of its descendants. *)
Inductive in_tree (n : Node) : Node -> Prop :=
| in_tree_self : in_tree n n
| in_tree_child1 : forall self c,
    child1 self = Some c -> in_tree n c -> in_tree n self
| in_tree_child2 : forall self c,
    child2 self = Some c -> in_tree n c -> in_tree n self.

Definition stores_no_split (self : Node) : bool :=
  match best_hyperplane_normal self with None => true | Some _ => false end.

(** The child that [_fit] builds for a partition of one sample [yi]: a
    freshly constructed node whose posterior the parent computes. *)
Definition single_sample_child (self : Node) (yi : Label) : Node :=
  set_posterior
    (new_node (partition_prior self)
              (_compute_posterior hooks (prior self) [yi] F64.zero)
              (level self + 1))
    (_compute_posterior hooks (prior self) [yi] F64.one).

(** The child that [_fit] builds for one side of a stored split, from the
    rows [Xi] and the targets [yi] of that side: a node constructed one
    level down with the side's posterior at [delta = 0] as its prior,
    fitted on [Xi] and [yi] when the side has more than one row, and
    given its posterior by the parent otherwise. *)
Definition child_of_fit (self : Node) (Xi : Matrix) (yi : list Label)
           (delta : float) : result Node :=
  let c := new_node (partition_prior self)
                    (_compute_posterior hooks (prior self) yi F64.zero)
                    (level self + 1) in
  if 1 <? shape0 Xi then _fit c Xi yi delta
  else Ok (set_posterior c (_compute_posterior hooks (prior self) yi F64.one)).

(** A node that stores no split and has no child. *)
Definition blank (self : Node) : Prop :=
  child1 self = None /\ child2 self = None /\
  best_hyperplane_normal self = None /\ best_hyperplane_origin self = None.

(** One activation of [_prune] with its recursive calls abstracted: the
    body between the two [depth_and_leaves] calls, and the whole body. *)
Definition prune_pass (rec : Node -> result Node) (self : Node)
  : result Node :=
  match child1 self with
  | None => Raise (none_attr "is_leaf")
  | Some c1 =>
      leaf1 <- is_leaf c1 ;;
      both <- (if leaf1 : bool then
                 match child2 self with
                 | None => Raise (none_attr "is_leaf")
                 | Some c2 => is_leaf c2
                 end
               else Ok false) ;;
      if both : bool then
        match child2 self with
        | None => Raise (none_attr "_predict_leaf")
        | Some c2 =>
            p1 <- predict_leaf_of c1 ;;
            p2 <- predict_leaf_of c2 ;;
            if F64.eqb p1 p2 then Ok (collapse self) else Ok self
        end
      else
        c1' <- rec c1 ;;
        match child2 self with
        | None => Raise (none_attr "_prune")
        | Some c2 =>
            c2' <- rec c2 ;;
            Ok (set_child2 (set_child1 self (Some c1')) (Some c2'))
        end
  end.

Definition prune_step (rec : Node -> result Node) (self : Node)
  : result Node :=
  depth_and_leaves_start <- depth_and_leaves self ;;
  leaf <- is_leaf self ;;
  if leaf : bool then Ok self
  else
    self' <- prune_pass rec self ;;
    depth_and_leaves_end <- depth_and_leaves self' ;;
    if negb (pair_eqb depth_and_leaves_start depth_and_leaves_end)
    then rec self'
    else Ok self'.

Definition nleaves (self : Node) : nat := length (leaves_of self).

(** What [_predict] owes at node [self] for the rows of [X]: an array
    with one entry per row that holds, for each row routed to a leaf, the
    prediction of that leaf; or [None], and then no row is routed. *)
Definition routed_predictions (self : Node) (X : Matrix)
           (r : option (list float)) : Prop :=
  match r with
  | Some a =>
      length a = shape0 X /\
      forall i x leaf,
        nth_error (rows X) i = Some x ->
        leaf_for self x = Some leaf ->
        exists po, posterior leaf = Some po /\
                   nth_error a i = Some (_predict_leaf hooks po)
  | None => forall x, In x (rows X) -> leaf_for self x = None
  end.

(** [predict] as a method call on [self]: the node after the call and the
    outcome.  Neither [predict] nor [_ensure_is_fitted] nor [_predict]
    assigns to an attribute of a node. *)
Definition predict_call (self : Node) (X : Matrix)
  : Node * result (list float) :=
  (self, predict self X).

End Tree.

(** ** Vocabulary for the structure of trees *)

Section Structure.

Variables Params Label : Type.
Variable hooks : ModelHooks Params Label.

(** What a node predicts from its own posterior, were it a leaf. *)
Definition own_prediction (self : Node Params) : option float :=
  option_map (_predict_leaf hooks) (posterior self).

(** [t'] is [t] with some subtrees collapsed the way [_prune] collapses
    them: every other attribute of every surviving node is kept, and a
    node loses its children and its hyperplane only when its two children,
    after their own pruning, are leaves with [==]-equal predictions. *)
Inductive prunes_to : Node Params -> Node Params -> Prop :=
| prunes_same : forall t, prunes_to t t
| prunes_children : forall pp pr lvl nd po c1 c2 c1' c2' bn bo,
    prunes_to c1 c1' ->
    prunes_to c2 c2' ->
    prunes_to (mkNode pp pr lvl nd po (Some c1) (Some c2) bn bo)
              (mkNode pp pr lvl nd po (Some c1') (Some c2') bn bo)
| prunes_collapse : forall pp pr lvl nd po c1 c2 c1' c2' bn bo p1 p2,
    prunes_to c1 c1' ->
    prunes_to c2 c2' ->
    is_leaf c1' = Ok true ->
    is_leaf c2' = Ok true ->
    predict_leaf_of hooks c1' = Ok p1 ->
    predict_leaf_of hooks c2' = Ok p2 ->
    F64.eqb p1 p2 = true ->
    prunes_to (mkNode pp pr lvl nd po (Some c1) (Some c2) bn bo)
              (mkNode pp pr lvl nd po None None None None).

(** The condition under which [_prune] collapses a node. *)
Definition collapsible (c1 c2 : Node Params) : Prop :=
  is_leaf c1 = Ok true /\ is_leaf c2 = Ok true /\
  exists p1 p2, predict_leaf_of hooks c1 = Ok p1 /\
                predict_leaf_of hooks c2 = Ok p2 /\
                F64.eqb p1 p2 = true.

(** No node of the tree is left for [_prune] to collapse. *)
Inductive fully_pruned : Node Params -> Prop :=
| fully_pruned_leaf : forall t,
    best_hyperplane_normal t = None -> fully_pruned t
| fully_pruned_node : forall t c1 c2,
    child1 t = Some c1 ->
    child2 t = Some c2 ->
    fully_pruned c1 ->
    fully_pruned c2 ->
    ~ collapsible c1 c2 ->
    fully_pruned t.

(** Every child is one level below its parent and carries its parent's
    partition prior. *)
Inductive leveled : Node Params -> Prop :=
| leveled_leaf : forall t,
    child1 t = None -> child2 t = None -> leveled t
| leveled_node : forall t c1 c2,
    child1 t = Some c1 ->
    child2 t = Some c2 ->
    level c1 = level t + 1 ->
    level c2 = level t + 1 ->
    partition_prior c1 = partition_prior t ->
    partition_prior c2 = partition_prior t ->
    leveled c1 ->
    leveled c2 ->
    leveled t.

(** Whenever the two children of a node predict [==]-equal values from
    their own posteriors, the node's own posterior predicts that very
    value. *)
Inductive coherent : Node Params -> Prop :=
| coherent_leaf : forall t,
    child1 t = None -> child2 t = None -> coherent t
| coherent_node : forall t c1 c2,
    child1 t = Some c1 ->
    child2 t = Some c2 ->
    coherent c1 ->
    coherent c2 ->
    (forall p1 p2,
        own_prediction c1 = Some p1 ->
        own_prediction c2 = Some p2 ->
        F64.eqb p1 p2 = true ->
        own_prediction t = Some p1 /\ own_prediction t = Some p2) ->
    coherent t.

(** Every node of the tree is visited by at least one of the rows [xs]
    when these are routed down from [self]: negative signed distance to
    [child1], non-negative to [child2]. *)
Fixpoint visited (self : Node Params) (xs : list (list float))
         {struct self} : Prop :=
  xs <> [] /\
  match best_hyperplane_normal self, best_hyperplane_origin self with
  | Some normal, Some origin =>
      match child1 self with
      | Some c1 =>
          visited c1 (filter (fun x => F64.lt0
                                         (signed_distance x normal origin)) xs)
      | None => True
      end /\
      match child2 self with
      | Some c2 =>
          visited c2 (filter (fun x => F64.ge0
                                         (signed_distance x normal origin)) xs)
      | None => True
      end
  | _, _ => True
  end.

End Structure.

(** ** Input normalisation and the target check of [BaseNode] *)

(** What [_normalize_data_and_feature_names] is handed: [None], a data
    frame (its column labels and its values), a scalar, a 1-D list or
    array, or a 2-D nested list, array or sparse matrix. *)
Inductive array_like : Type :=
| PyNone
| DataFrame (columns : list string) (values : Matrix)
| PyScalar (v : float)
| Array1D (a : list float)
| Array2D (X : Matrix).

(** ['x{}'.format(i)] *)
Definition feature_name (i : nat) : string := "x" ++ format_nat i.

(** [_normalize_data_and_feature_names]: a scalar becomes a one-element
    1-D array, and a 1-D array becomes the single row of a 2-D array. *)
Definition _normalize_data_and_feature_names (X : array_like)
  : option Matrix * option (list string) :=
  match X with
  | PyNone => (None, None)
  | DataFrame columns values => (Some values, Some columns)
  | PyScalar v =>
      let X' := mkMatrix 1 [[v]] in
      (Some X', Some (map feature_name (seq 0 (shape1 X'))))
  | Array1D a =>
      let X' := mkMatrix (length a) [a] in
      (Some X', Some (map feature_name (seq 0 (shape1 X'))))
  | Array2D X' => (Some X', Some (map feature_name (seq 0 (shape1 X'))))
  end.

(** [np.unique] of an integer array: its distinct values, ascending. *)
Fixpoint insert_unique (x : Z) (l : list Z) : list Z :=
  match l with
  | [] => [x]
  | h :: t =>
      if (x <? h)%Z then x :: l
      else if (x =? h)%Z then l
           else h :: insert_unique x t
  end.

Definition np_unique (y : list Z) : list Z := fold_right insert_unique [] y.

(** [np.arange(0, n)] *)
Definition np_arange (n : nat) : list Z := map Z.of_nat (seq 0 n).

(** [a == b] on 1-D integer arrays: elementwise on equal lengths, a
    one-element array broadcast against the other, and [None] when the
    shapes cannot be broadcast (numpy then answers [False] or raises,
    depending on its version). *)
Definition np_equal (a b : list Z) : option (list bool) :=
  if length a =? length b
  then Some (map (fun ab => (fst ab =? snd ab)%Z) (combine a b))
  else match a, b with
       | [v], _ => Some (map (fun x => (v =? x)%Z) b)
       | _, [v] => Some (map (fun x => (x =? v)%Z) a)
       | _, _ => None
       end.

(** [_check_classification_target] for [n_classes = len(self.prior)] and
    integer targets: [true] when the assertion holds and the method
    returns, [false] when the call raises. *)
Definition _check_classification_target (n_classes : nat) (y : list Z) : bool :=
  match np_equal (np_unique y) (np_arange n_classes) with
  | Some bs => forallb (fun b => b) bs
  | None => false
  end.

Section PublicPredict.

Variables Params Label : Type.
Variable hooks : ModelHooks Params Label.

(** The exception of [None @ normal]: which class numpy raises there is
    not fixed by the source. *)
Variable none_matmul_error : exception.

(** [predict] on what the caller passes.  For [X = None]
    [_ensure_is_fitted] skips the dimension check and
    [_create_merged_predictions_array] makes an array of length one. *)
Definition predict_input (self : Node Params) (X : array_like)
  : result (list float) :=
  match fst (_normalize_data_and_feature_names X) with
  | Some X' => predict hooks self X'
  | None =>
      _ensure_is_fitted self None ;;;
      leaf <- is_leaf self ;;
      if leaf : bool then
        prediction <- predict_leaf_of hooks self ;;
        Ok (map (fun _ => prediction) (np_zeros 1))
      else Raise none_matmul_error
  end.

End PublicPredict.

(** ** A concrete model and concrete optimizers

    A Dirichlet-categorical model over class labels [0 .. k-1] in the style
    of the classification nodes, and two optimizers, used to run the
    engine on concrete data. *)

Module Example.

Definition Params : Type := list float.
Definition Label : Type := nat.

Definition count (c : nat) (y : list Label) : Z :=
  Z.of_nat (length (filter (Nat.eqb c) y)).

(** The prior itself when [delta == 0], else [prior + delta * counts]. *)
Definition compute_posterior (prior : Params) (y : list Label) (delta : float)
  : Params :=
  if F64.eqb delta F64.zero then prior
  else map (fun cp => F64.add (snd cp)
                        (F64.mul delta (F64.of_Z (count (fst cp) y))))
           (combine (seq 0 (length prior)) prior).

(** The first index of a maximal entry, as [np.argmax]. *)
Fixpoint argmax_from (i best : nat) (bv : float) (a : list float) : nat :=
  match a with
  | [] => best
  | v :: a' =>
      if F64.ltb bv v then argmax_from (S i) i v a'
      else argmax_from (S i) best bv a'
  end.

Definition argmax (a : list float) : nat :=
  match a with
  | [] => 0
  | v :: a' => argmax_from 1 0 v a'
  end.

Definition predict_leaf (posterior : Params) : float :=
  F64.of_Z (Z.of_nat (argmax posterior)).

(** The targets must be exactly the classes [0 .. len(prior)-1]. *)
Definition check_target (prior : Params) (y : list Label) : option exception :=
  if forallb (fun c => existsb (Nat.eqb c) y) (seq 0 (length prior))
     && forallb (fun l => l <? length prior) y
  then None
  else Some (AssertionError "Expected target values 0..n_classes-1").

Definition dirichlet : ModelHooks Params Label :=
  mkHooks check_target compute_posterior predict_leaf.

(** An optimizer that proposes the same hyperplane for every data set. *)
Definition fixed_optimizer (normal origin : list float)
  : Optimizer Params Label :=
  mkOptimizer (fun _ _ _ _ => Some (normal, origin)).

(** An optimizer that proposes the hyperplane through the second row of
    the data, orthogonal to the first axis of a 1-D data set. *)
Definition second_row_optimizer : Optimizer Params Label :=
  mkOptimizer (fun _ _ X _ =>
                 match rows X with
                 | _ :: x :: _ => Some ([F64.one], x)
                 | _ => None
                 end).

Definition format_float (x : float) : string := "<float>".

Definition f (z : Z) : float := F64.of_Z z.

(** A 1-D data set with one row per given value. *)
Definition column (zs : list Z) : Matrix :=
  mkMatrix 1 (map (fun z => [f z]) zs).

Definition root (prior : list Z) : Node Params :=
  new_node F64.one (map f prior) 0.

(** Four points on a line, the last three of class 1, under a prior that
    favours class 0; the split at 3 separates the last point. *)
Definition X4 : Matrix := column [0; 1; 2; 3]%Z.
Definition y4 : list Label := [0; 1; 1; 1].
Definition split_at_3 : Optimizer Params Label := fixed_optimizer [f 1] [f 3].

Definition tree4 : result (Node Params) :=
  fit dirichlet split_at_3 format_float (root [2; 1]%Z) X4 y4 F64.zero false.

(** Five points of three classes, split at 2. *)
Definition X5 : Matrix := column [0; 1; 2; 3; 4]%Z.
Definition y5 : list Label := [1; 1; 0; 2; 2].
Definition split_at_2 : Optimizer Params Label := fixed_optimizer [f 1] [f 2].

Definition tree5 : result (Node Params) :=
  fit dirichlet split_at_2 format_float (root [1; 1; 1]%Z) X5 y5 F64.zero false.

(** Rows to predict on, the first of them not a number. *)
Definition X_nan : Matrix := mkMatrix 1 [[F64.nan]; [f 0]; [f 4]].

(** A deeper tree: the second-row optimizer peels one point per level. *)
Definition y4' : list Label := [1; 0; 0; 0].
Definition tree_deep (prune : bool) : result (Node Params) :=
  fit dirichlet second_row_optimizer format_float (root [1; 1]%Z)
      X4 y4' F64.zero prune.

Definition or_root (r : result (Node Params)) : Node Params :=
  match r with
  | Ok t => t
  | _ => root []
  end.

(** The trees these runs build. *)
Definition t4 : Node Params := Eval vm_compute in or_root tree4.
Definition t5 : Node Params := Eval vm_compute in or_root tree5.
Definition t_deep : Node Params := Eval vm_compute in or_root (tree_deep false).
Definition t_deep_pruned : Node Params :=
  Eval vm_compute in or_root (tree_deep true).

(** Three points that the split at 3 leaves on one side. *)
Definition X3 : Matrix := column [0; 1; 2]%Z.
Definition y3 : list Label := [0; 1; 1].

(** The tree fitted on them: a single leaf. *)
Definition tree3 : result (Node Params) :=
  fit dirichlet split_at_3 format_float (root [2; 1]%Z) X3 y3 F64.zero false.

Definition t3 : Node Params := Eval vm_compute in or_root tree3.

(** A proposal in the plane, one entry too many for data on a line. *)
Definition split_in_the_plane : Optimizer Params Label :=
  fixed_optimizer [f 1; f 1] [f 0; f 0].

(** What [None @ normal] is taken to raise in the runs below. *)
Definition none_matmul : exception :=
  TypeError "unsupported operand type(s) for @: 'NoneType' and 'ndarray'".

(** Four points in the plane.  The optimizer cuts a data set of more
    than three rows along the first axis at 2 and a smaller one along
    the second axis at 3. *)
Definition plane (ps : list (Z * Z)) : Matrix :=
  mkMatrix 2 (map (fun p => [f (fst p); f (snd p)]) ps).

Definition X_plane : Matrix := plane [(0, 0); (3, 0); (3, 5); (4, 1)]%Z.
Definition y_plane : list Label := [0; 1; 0; 1].

Definition axis_optimizer : Optimizer Params Label :=
  mkOptimizer (fun _ _ X _ =>
                 if 3 <? shape0 X then Some ([f 1; f 0], [f 2; f 0])
                 else Some ([f 0; f 1], [f 0; f 3])).

Definition tree_plane : result (Node Params) :=
  fit dirichlet axis_optimizer format_float (root [1; 1]%Z)
      X_plane y_plane F64.zero false.

Definition t_plane : Node Params := Eval vm_compute in or_root tree_plane.

(** A row that is infinite along the first axis: in front of the first
    cut, and at no distance from the second. *)
Definition X_inf : Matrix := mkMatrix 2 [[S754_infinity false; f 1]].

(** One point of the one class of a one-class prior. *)
Definition X_one : Matrix := column [7]%Z.
Definition y_one : list Label := [0].

End Example.

(** * Facts about the arrays *)

Section Arrays.

Lemma bind_ok {A B : Type} (r : result A) (k : A -> result B) (b : B) :
  bind r k = Ok b -> exists a, r = Ok a /\ k a = Ok b.
Proof.
  destruct r as [a| |]; simpl; intros H; try discriminate.
  exists a; split; [reflexivity | assumption].
Qed.

Lemma bind_out_of_fuel {A B : Type} (r : result A) (k : A -> result B) :
  bind r k = OutOfFuel ->
  r = OutOfFuel \/ exists a, r = Ok a /\ k a = OutOfFuel.
Proof. destruct r; simpl; intros H; try discriminate; eauto. Qed.

Lemma take_no_fuel {A : Type} (a : list A) (indices : list nat) :
  take a indices <> OutOfFuel.
Proof.
  induction indices as [|i l IH]; simpl; [discriminate|].
  destruct (nth_error a i); [|discriminate].
  intros H. apply bind_out_of_fuel in H.
  destruct H as [H | (? & _ & H)]; [auto | discriminate].
Qed.

Lemma take_rows_no_fuel (X : Matrix) (indices : list nat) :
  take_rows X indices <> OutOfFuel.
Proof.
  unfold take_rows. intros H. apply bind_out_of_fuel in H.
  destruct H as [H | (? & _ & H)]; [|discriminate].
  exact (take_no_fuel _ _ H).
Qed.

Lemma projections_no_fuel (X : Matrix) (normal origin : list float) :
  projections X normal origin <> OutOfFuel.
Proof.
  unfold projections, matmul, np_dot.
  destruct (shape1 X =? length normal); [|discriminate].
  destruct (length normal =? length origin); discriminate.
Qed.

Lemma lt0_not_ge0 (p : float) : F64.lt0 p = true -> F64.ge0 p = false.
Proof. destruct p as [s|s| |s m e]; try destruct s; simpl; intros H;
         try discriminate; reflexivity. Qed.

Lemma not_nan_lt0_or_ge0 (p : float) :
  F64.is_nan p = false -> F64.lt0 p = true \/ F64.ge0 p = true.
Proof. destruct p as [s|s| |s m e]; try destruct s; simpl; intros H;
         try discriminate; auto. Qed.

Lemma nan_neither (p : float) :
  F64.is_nan p = true -> F64.lt0 p = false /\ F64.ge0 p = false.
Proof. destruct p as [s|s| |s m e]; simpl; intros H;
         try discriminate; auto. Qed.

Lemma where_from_In (test : float -> bool) (ps : list float) :
  forall k i,
    In i (where_from test k ps) <->
    exists p, k <= i /\ nth_error ps (i - k) = Some p /\ test p = true.
Proof.
  induction ps as [|q ps IH]; intros k i; simpl.
  - split; [intros [] | intros (p & _ & H & _)].
    destruct (i - k); discriminate.
  - assert (Hrest : In i (where_from test (S k) ps) <->
                    exists p, k < i /\ nth_error ps (i - S k) = Some p
                              /\ test p = true)
      by (rewrite IH; reflexivity).
    assert (Hhere : forall p, k < i -> nth_error (q :: ps) (i - k) = Some p
                              <-> nth_error ps (i - S k) = Some p).
    { intros p Hlt. replace (i - k) with (S (i - S k)) by lia.
      simpl. reflexivity. }
    destruct (test q) eqn:Hq; simpl; rewrite Hrest; split.
    + intros [-> | (p & Hlt & Hn & Hp)].
      * exists q. rewrite Nat.sub_diag. simpl. auto.
      * exists p. rewrite Hhere by assumption. split; [lia | auto].
    + intros (p & Hle & Hn & Hp).
      destruct (Nat.eq_dec k i) as [-> | Hne]; [left; reflexivity |].
      right. exists p. rewrite <- Hhere by lia. split; [lia | auto].
    + intros (p & Hlt & Hn & Hp).
      exists p. rewrite Hhere by assumption. split; [lia | auto].
    + intros (p & Hle & Hn & Hp).
      destruct (Nat.eq_dec k i) as [-> | Hne].
      * rewrite Nat.sub_diag in Hn. simpl in Hn. congruence.
      * exists p. rewrite <- Hhere by lia. split; [lia | auto].
Qed.

Lemma np_where_In (test : float -> bool) (ps : list float) (i : nat) :
  In i (np_where test ps) <->
  exists p, nth_error ps i = Some p /\ test p = true.
Proof.
  unfold np_where. rewrite where_from_In. rewrite Nat.sub_0_r.
  split; intros (p & H); exists p; intuition lia.
Qed.

Lemma np_where_lt (test : float -> bool) (ps : list float) (i : nat) :
  In i (np_where test ps) -> i < length ps.
Proof.
  rewrite np_where_In. intros (p & H & _).
  apply nth_error_Some. congruence.
Qed.

Lemma where_from_NoDup (test : float -> bool) (ps : list float) :
  forall k, NoDup (where_from test k ps).
Proof.
  induction ps as [|q ps IH]; intros k; simpl; [constructor|].
  destruct (test q); [|apply IH].
  constructor; [|apply IH].
  rewrite where_from_In. intros (p & Hle & _). lia.
Qed.

Lemma np_where_NoDup (test : float -> bool) (ps : list float) :
  NoDup (np_where test ps).
Proof. apply where_from_NoDup. Qed.

Lemma where_from_split_length (ps : list float) :
  forall k, length (where_from F64.lt0 k ps)
            + length (where_from F64.ge0 k ps) <= length ps.
Proof.
  induction ps as [|q ps IH]; intros k; simpl; [lia|].
  specialize (IH (S k)).
  destruct (F64.lt0 q) eqn:Hq.
  - rewrite (lt0_not_ge0 q Hq). simpl. lia.
  - destruct (F64.ge0 q); simpl; lia.
Qed.

(** [take] succeeds exactly on indices in range and reads them in order. *)
Lemma take_ok {A : Type} (a : list A) (indices : list nat) :
  (forall i, In i indices -> i < length a) ->
  exists vs, take a indices = Ok vs.
Proof.
  induction indices as [|i rest IH]; intros Hin; simpl; [eauto|].
  destruct (nth_error a i) eqn:Hn.
  - destruct IH as (vs & ->); [intros; apply Hin; simpl; auto|].
    simpl. eauto.
  - apply nth_error_None in Hn. specialize (Hin i (or_introl eq_refl)). lia.
Qed.

Lemma take_spec {A : Type} (a : list A) (indices : list nat) :
  forall vs, take a indices = Ok vs ->
    length vs = length indices /\
    forall k i, nth_error indices k = Some i ->
                nth_error vs k = nth_error a i /\ i < length a.
Proof.
  induction indices as [|i rest IH]; intros vs H; simpl in H.
  - inversion H; subst. split; [reflexivity|].
    intros [|k] j Hk; discriminate.
  - destruct (nth_error a i) eqn:Hn; [|discriminate].
    apply bind_ok in H. destruct H as (vs' & Hvs & H).
    inversion H; subst. destruct (IH _ Hvs) as [Hl Hk].
    split; [simpl; congruence|].
    intros [|k] j Hj; simpl in Hj.
    + inversion Hj; subst. simpl. split; [congruence|].
      apply nth_error_Some. congruence.
    + simpl. apply Hk. assumption.
Qed.

Lemma take_rows_ok (X : Matrix) (indices : list nat) :
  (forall i, In i indices -> i < shape0 X) ->
  exists X', take_rows X indices = Ok X'.
Proof.
  intros H. unfold take_rows.
  destruct (take_ok (rows X) indices H) as (rs & ->). simpl. eauto.
Qed.

Lemma take_rows_spec (X X' : Matrix) (indices : list nat) :
  take_rows X indices = Ok X' ->
  shape1 X' = shape1 X /\ shape0 X' = length indices /\
  forall k i, nth_error indices k = Some i ->
              nth_error (rows X') k = nth_error (rows X) i.
Proof.
  unfold take_rows. intros H. apply bind_ok in H.
  destruct H as (rs & Hrs & H). inversion H; subst. simpl.
  destruct (take_spec _ _ Hrs) as [Hl Hk].
  unfold shape0, shape1; simpl. repeat split; auto.
  intros k i Hi. apply Hk. assumption.
Qed.

Lemma projections_spec (X : Matrix) (normal origin ps : list float) :
  projections X normal origin = Ok ps ->
  shape1 X = length normal /\ length origin = length normal /\
  length ps = shape0 X /\
  forall i x, nth_error (rows X) i = Some x ->
              nth_error ps i = Some (signed_distance x normal origin).
Proof.
  unfold projections, matmul, np_dot. intros H.
  destruct (shape1 X =? length normal) eqn:E1; [|discriminate].
  destruct (length normal =? length origin) eqn:E2; [|discriminate].
  simpl in H. inversion H; subst; clear H.
  apply Nat.eqb_eq in E1, E2.
  repeat split; auto.
  - unfold shape0. rewrite !length_map. reflexivity.
  - intros i x Hx. rewrite !nth_error_map, Hx. reflexivity.
Qed.

Lemma projections_ok (X : Matrix) (normal origin : list float) :
  shape1 X = length normal -> length origin = length normal ->
  exists ps, projections X normal origin = Ok ps.
Proof.
  intros H1 H2. unfold projections, matmul, np_dot.
  rewrite H1, H2, !Nat.eqb_refl. simpl. eauto.
Qed.

Lemma set_nth_spec (a : list float) :
  forall i v, i < length a ->
    exists a', set_nth a i v = Ok a' /\ length a' = length a /\
               nth_error a' i = Some v /\
               forall j, j <> i -> nth_error a' j = nth_error a j.
Proof.
  induction a as [|x a IH]; intros i v Hi; simpl in Hi; [lia|].
  destruct i as [|i]; simpl.
  - exists (v :: a). repeat split; auto.
    intros [|j] Hj; [congruence | reflexivity].
  - destruct (IH i v) as (a' & -> & Hl & Hn & Ho); [lia|].
    simpl. exists (x :: a'). repeat split; simpl; auto.
    intros [|j] Hj; [reflexivity | apply Ho; congruence].
Qed.

Lemma assign_each_spec (indices : list nat) :
  forall a vs,
    (forall i, In i indices -> i < length a) ->
    length vs = length indices ->
    NoDup indices ->
    exists a', assign_each a indices vs = Ok a' /\ length a' = length a /\
      (forall k i, nth_error indices k = Some i ->
                   nth_error a' i = nth_error vs k) /\
      (forall j, ~ In j indices -> nth_error a' j = nth_error a j).
Proof.
  induction indices as [|i0 indices IH]; intros a vs Hlt Hlen Hnd.
  - destruct vs; [|discriminate]. simpl. exists a. repeat split; auto.
    intros [|k] i Hk; discriminate.
  - destruct vs as [|v0 vs]; [discriminate|]. simpl.
    inversion Hnd as [|? ? Hnotin Hnd']; subst.
    destruct (set_nth_spec a v0 (Hlt i0 (or_introl eq_refl)))
      as (a1 & -> & Hl1 & Hn1 & Ho1).
    simpl.
    destruct (IH a1 vs) as (a' & Ha' & Hl' & Hk' & Ho'); auto.
    { intros i Hi. rewrite Hl1. apply Hlt. simpl; auto. }
    exists a'. split; [assumption|].
    split; [congruence|]. split.
    + intros [|k] i Hk; simpl in Hk.
      * inversion Hk; subst. simpl. rewrite Ho' by assumption. assumption.
      * simpl. apply Hk'. assumption.
    + intros j Hj. rewrite Ho' by (intros Hin; apply Hj; simpl; auto).
      apply Ho1. intros ->. apply Hj. simpl; auto.
Qed.

Lemma assign_some_spec (a : list float) (indices : list nat) (vs : list float) :
  (forall i, In i indices -> i < length a) ->
  length vs = length indices ->
  NoDup indices ->
  exists a', assign a indices (Some vs) = Ok a' /\ length a' = length a /\
    (forall k i, nth_error indices k = Some i ->
                 nth_error a' i = nth_error vs k) /\
    (forall j, ~ In j indices -> nth_error a' j = nth_error a j).
Proof.
  intros Hlt Hlen Hnd. unfold assign.
  rewrite Hlen, Nat.eqb_refl. apply assign_each_spec; auto.
Qed.

Lemma assign_none_spec (a : list float) (indices : list nat) :
  (forall i, In i indices -> i < length a) ->
  NoDup indices ->
  exists a', assign a indices None = Ok a' /\ length a' = length a /\
    (forall j, ~ In j indices -> nth_error a' j = nth_error a j).
Proof.
  intros Hlt Hnd. unfold assign.
  destruct (@assign_each_spec indices a (repeat F64.nan (length indices)))
    as (a' & H & Hl & _ & Ho); auto using repeat_length.
  exists a'. auto.
Qed.

(** The rows taken at the positions where a test on the signed distances
    holds are rows on which the test holds. *)
Lemma taken_rows_on_one_side (test : float -> bool) (X X' : Matrix)
      (normal origin ps : list float) :
  projections X normal origin = Ok ps ->
  take_rows X (np_where test ps) = Ok X' ->
  incl (rows X')
       (filter (fun x => test (signed_distance x normal origin)) (rows X)).
Proof.
  intros Hps HX' x Hx.
  destruct (projections_spec _ _ _ Hps) as (_ & _ & _ & Hp).
  destruct (take_rows_spec _ _ HX') as (_ & L & Hrows).
  apply In_nth_error in Hx. destruct Hx as (k & Hk).
  assert (Hlt : k < length (np_where test ps)).
  { rewrite <- L. unfold shape0. apply nth_error_Some. congruence. }
  destruct (nth_error (np_where test ps) k) as [i|] eqn:Ei;
    [|apply nth_error_None in Ei; lia].
  rewrite (Hrows _ _ Ei) in Hk.
  apply nth_error_In in Ei. apply np_where_In in Ei.
  destruct Ei as (p & Hpi & Htest).
  rewrite (Hp _ _ Hk) in Hpi. inversion Hpi; subst p.
  apply filter_In. split; [eapply nth_error_In; exact Hk | exact Htest].
Qed.

End Arrays.

(** * Facts about the tree engine *)

Section Facts.

Variables Params Label : Type.
Variable hooks : ModelHooks Params Label.
Variable optimizer : Optimizer Params Label.
Variable format_float : float -> string.

Local Abbreviation Node := (Node Params).
Local Abbreviation _fit_rec := (_fit_rec hooks optimizer).
Local Abbreviation _fit := (_fit hooks optimizer).
Local Abbreviation _prune_rec := (_prune_rec hooks).
Local Abbreviation _prune := (_prune hooks).
Local Abbreviation fit := (fit hooks optimizer format_float).
Local Abbreviation predict := (predict hooks).
Local Abbreviation _predict := (_predict hooks).
Local Abbreviation trained := (trained hooks optimizer format_float).

(** ** Fit *)

Lemma fitted_is_leaf (d : nat) (t : Node) :
  fitted d t -> is_leaf t = Ok (stores_no_split t).
Proof. intros H; destruct H; reflexivity. Qed.

Lemma fit_rec_fitted (fuel : nat) :
  forall (self : Node) X y delta t,
    blank self ->
    _fit_rec fuel self X y delta = Ok t ->
    fitted (shape1 X) t.
Proof.
  induction fuel as [|fuel IH]; intros self X y delta t Hb H;
    [discriminate|].
  destruct self as [pp pr lvl nd po ch1 ch2 bn bo].
  destruct Hb as (? & ? & ? & ?); simpl in *; subst.
  apply bind_ok in H. destruct H as (self' & Hs & H).
  inversion H; subst; clear H.
  destruct (solve optimizer pp pr X y) as [[normal origin]|];
    [|inversion Hs; subst; constructor].
  apply bind_ok in Hs. destruct Hs as (ps & Hps & Hs).
  destruct (projections_spec _ _ _ Hps) as (Hd1 & Hd2 & _).
  destruct ((0 <? length (np_where F64.lt0 ps))
            && (0 <? length (np_where F64.ge0 ps)));
    [|inversion Hs; subst; constructor].
  apply bind_ok in Hs. destruct Hs as (X1 & HX1 & Hs).
  apply bind_ok in Hs. destruct Hs as (X2 & HX2 & Hs).
  apply bind_ok in Hs. destruct Hs as (y1 & Hy1 & Hs).
  apply bind_ok in Hs. destruct Hs as (y2 & Hy2 & Hs).
  apply bind_ok in Hs. destruct Hs as (c1 & Hc1 & Hs).
  apply bind_ok in Hs. destruct Hs as (c2 & Hc2 & Hs).
  inversion Hs; subst; clear Hs. simpl.
  destruct (take_rows_spec _ _ HX1) as (E1 & _).
  destruct (take_rows_spec _ _ HX2) as (E2 & _).
  assert (F1 : fitted (shape1 X) c1).
  { destruct (1 <? shape0 X1).
    - rewrite <- E1. eapply IH; [|exact Hc1]. repeat split.
    - inversion Hc1; subst. constructor. }
  assert (F2 : fitted (shape1 X) c2).
  { destruct (1 <? shape0 X2).
    - rewrite <- E2. eapply IH; [|exact Hc2]. repeat split.
    - inversion Hc2; subst. constructor. }
  constructor; auto; congruence.
Qed.

Lemma fit_rec_enough_fuel (fuel : nat) :
  forall (self : Node) X y delta,
    shape0 X < fuel -> _fit_rec fuel self X y delta <> OutOfFuel.
Proof.
  induction fuel as [|fuel IH]; intros self X y delta Hlt H; [lia|].
  simpl in H.
  apply bind_out_of_fuel in H. destruct H as [H | (a & _ & H)];
    [|discriminate].
  destruct (solve optimizer _ _ X y) as [[normal origin]|]; [|discriminate].
  apply bind_out_of_fuel in H. destruct H as [H | (ps & Hps & H)];
    [exact (projections_no_fuel _ _ _ H)|].
  destruct (projections_spec _ _ _ Hps) as (_ & _ & Hlen & _).
  pose proof (where_from_split_length ps 0) as Hsplit.
  fold (np_where F64.lt0 ps) in Hsplit. fold (np_where F64.ge0 ps) in Hsplit.
  destruct (0 <? length (np_where F64.lt0 ps)) eqn:G1; [|discriminate].
  destruct (0 <? length (np_where F64.ge0 ps)) eqn:G2; [|discriminate].
  apply Nat.ltb_lt in G1, G2. simpl in H.
  apply bind_out_of_fuel in H. destruct H as [H | (X1 & HX1 & H)];
    [exact (take_rows_no_fuel _ _ H)|].
  apply bind_out_of_fuel in H. destruct H as [H | (X2 & HX2 & H)];
    [exact (take_rows_no_fuel _ _ H)|].
  apply bind_out_of_fuel in H. destruct H as [H | (y1 & Hy1 & H)];
    [exact (take_no_fuel _ _ H)|].
  apply bind_out_of_fuel in H. destruct H as [H | (y2 & Hy2 & H)];
    [exact (take_no_fuel _ _ H)|].
  destruct (take_rows_spec _ _ HX1) as (_ & L1 & _).
  destruct (take_rows_spec _ _ HX2) as (_ & L2 & _).
  apply bind_out_of_fuel in H. destruct H as [H | (c1 & _ & H)].
  { destruct (1 <? shape0 X1); [|discriminate].
    revert H. apply IH. lia. }
  apply bind_out_of_fuel in H. destruct H as [H | (c2 & _ & H)];
    [|discriminate].
  destruct (1 <? shape0 X2); [|discriminate].
  revert H. apply IH. lia.
Qed.

(** [_fit] always comes back: with a node or with an exception. *)
Lemma fit_terminates (self : Node) X y delta :
  _fit self X y delta <> OutOfFuel.
Proof. apply fit_rec_enough_fuel. lia. Qed.

(** C1.  When the optimizer returns a hyperplane and the partition of the
    training rows by signed distance leaves one side empty, [_fit]
    returns normally, stores neither hyperplane nor children (the split
    attributes and both children are what they were before the call)
    and only sets [n_dim] and the posterior; a node that stored no split
    before, such as a freshly constructed one, is a leaf afterwards. *)
Theorem fit_rejects_one_sided_split
    (self : Node) (X : Matrix) (y : list Label) (delta : float)
    (normal origin ps : list float) :
  solve optimizer (partition_prior self) (prior self) X y
    = Some (normal, origin) ->
  projections X normal origin = Ok ps ->
  np_where F64.lt0 ps = [] \/ np_where F64.ge0 ps = [] ->
  exists self',
    _fit self X y delta = Ok self' /\
    best_hyperplane_normal self' = best_hyperplane_normal self /\
    best_hyperplane_origin self' = best_hyperplane_origin self /\
    child1 self' = child1 self /\
    child2 self' = child2 self /\
    n_dim self' = Some (shape1 X) /\
    posterior self' = Some (_compute_posterior hooks (prior self) y F64.one) /\
    (best_hyperplane_normal self = None -> is_leaf self' = Ok true).
Proof.
  intros Hsolve Hps Hempty.
  exists (set_posterior (set_n_dim self (shape1 X))
                        (_compute_posterior hooks (prior self) y F64.one)).
  split.
  - unfold _fit. simpl. rewrite Hsolve, Hps. simpl.
    destruct Hempty as [-> | ->]; simpl;
      [| rewrite andb_false_r]; reflexivity.
  - destruct self; simpl. repeat split; auto.
    intros ->. reflexivity.
Qed.

(** C8.  When [_fit] stores a split, a side of the partition that holds
    exactly one sample gets a child whose posterior the parent computes
    from that one target: the child is the freshly constructed node with
    only its posterior set, so [_fit] never ran on it ([n_dim] is still
    None), it has no children, stores no split and is a leaf. *)
Theorem single_sample_partition_is_direct_leaf
    (self self' : Node) (X : Matrix) (y : list Label) (delta : float)
    (normal origin ps : list float) :
  solve optimizer (partition_prior self) (prior self) X y
    = Some (normal, origin) ->
  projections X normal origin = Ok ps ->
  np_where F64.lt0 ps <> [] ->
  np_where F64.ge0 ps <> [] ->
  _fit self X y delta = Ok self' ->
  best_hyperplane_normal self' = Some normal /\
  best_hyperplane_origin self' = Some origin /\
  (forall i, np_where F64.lt0 ps = [i] ->
     exists yi c,
       nth_error y i = Some yi /\
       child1 self' = Some c /\
       c = single_sample_child hooks self yi /\
       posterior c = Some (_compute_posterior hooks (prior self) [yi] F64.one) /\
       n_dim c = None /\ child1 c = None /\ child2 c = None /\
       best_hyperplane_normal c = None /\ is_leaf c = Ok true) /\
  (forall i, np_where F64.ge0 ps = [i] ->
     exists yi c,
       nth_error y i = Some yi /\
       child2 self' = Some c /\
       c = single_sample_child hooks self yi /\
       posterior c = Some (_compute_posterior hooks (prior self) [yi] F64.one) /\
       n_dim c = None /\ child1 c = None /\ child2 c = None /\
       best_hyperplane_normal c = None /\ is_leaf c = Ok true).
Proof.
  intros Hsolve Hps Hne1 Hne2 Hfit.
  unfold _fit in Hfit. simpl in Hfit.
  rewrite Hsolve, Hps in Hfit. simpl in Hfit.
  destruct (np_where F64.lt0 ps) as [|a1 l1] eqn:E1; [congruence|].
  destruct (np_where F64.ge0 ps) as [|a2 l2] eqn:E2; [congruence|].
  simpl in Hfit.
  apply bind_ok in Hfit. destruct Hfit as (s1 & Hs & Hfit).
  inversion Hfit; subst; clear Hfit.
  apply bind_ok in Hs. destruct Hs as (X1 & HX1 & Hs).
  apply bind_ok in Hs. destruct Hs as (X2 & HX2 & Hs).
  apply bind_ok in Hs. destruct Hs as (y1 & Hy1 & Hs).
  apply bind_ok in Hs. destruct Hs as (y2 & Hy2 & Hs).
  apply bind_ok in Hs. destruct Hs as (c1 & Hc1 & Hs).
  apply bind_ok in Hs. destruct Hs as (c2 & Hc2 & Hs).
  inversion Hs; subst; clear Hs.
  destruct (take_rows_spec _ _ HX1) as (_ & L1 & _).
  destruct (take_rows_spec _ _ HX2) as (_ & L2 & _).
  split; [reflexivity|]. split; [reflexivity|]. split.
  - intros i Hi. inversion Hi; subst. simpl in L1.
    rewrite L1 in Hc1. simpl in Hc1. inversion Hc1; subst; clear Hc1.
    simpl in Hy1. destruct (nth_error y i) as [yi|]; [|discriminate].
    simpl in Hy1. inversion Hy1; subst.
    exists yi. eexists. repeat split.
  - intros i Hi. inversion Hi; subst. simpl in L2.
    rewrite L2 in Hc2. simpl in Hc2. inversion Hc2; subst; clear Hc2.
    simpl in Hy2. destruct (nth_error y i) as [yi|]; [|discriminate].
    simpl in Hy2. inversion Hy2; subst.
    exists yi. eexists. repeat split.
Qed.

(** C10.  On a node whose posterior is absent, as on every node that was
    never fitted, [is_leaf] raises the ValueError of [_ensure_is_fitted]
    instead of answering. *)
Theorem is_leaf_unfitted_raises (self : Node) :
  posterior self = None ->
  is_leaf self = Raise (ValueError untrained_msg).
Proof. intros H. unfold is_leaf, _ensure_is_fitted. rewrite H. reflexivity. Qed.

(** With more fuel than rows, the amount of fuel does not matter: a
    recursive call of [_fit_rec] on a child is a call of [_fit]. *)
Lemma fit_rec_fuel (fuel1 : nat) :
  forall fuel2 (self : Node) X y delta,
    shape0 X < fuel1 -> shape0 X < fuel2 ->
    _fit_rec fuel1 self X y delta = _fit_rec fuel2 self X y delta.
Proof.
  induction fuel1 as [|fuel1 IH]; intros fuel2 self X y delta H1 H2; [lia|].
  destruct fuel2 as [|fuel2]; [lia|]. simpl. f_equal.
  destruct (solve optimizer _ _ X y) as [[normal origin]|]; [|reflexivity].
  destruct (projections X normal origin) as [ps| |] eqn:Hps;
    try reflexivity.
  cbn [bind].
  destruct (projections_spec _ _ _ Hps) as (_ & _ & Hlen & _).
  pose proof (where_from_split_length ps 0) as Hsplit.
  fold (np_where F64.lt0 ps) in Hsplit. fold (np_where F64.ge0 ps) in Hsplit.
  destruct (0 <? length (np_where F64.lt0 ps)) eqn:G1; [|reflexivity].
  destruct (0 <? length (np_where F64.ge0 ps)) eqn:G2; [|reflexivity].
  apply Nat.ltb_lt in G1, G2. cbn [andb].
  destruct (take_rows X (np_where F64.lt0 ps)) as [X1| |] eqn:HX1;
    try reflexivity.
  destruct (take_rows X (np_where F64.ge0 ps)) as [X2| |] eqn:HX2;
    try reflexivity.
  cbn [bind].
  destruct (take y (np_where F64.lt0 ps)) as [y1| |]; try reflexivity.
  destruct (take y (np_where F64.ge0 ps)) as [y2| |]; try reflexivity.
  cbn [bind].
  destruct (take_rows_spec _ _ HX1) as (_ & L1 & _).
  destruct (take_rows_spec _ _ HX2) as (_ & L2 & _).
  rewrite (IH fuel2 _ X1 y1 delta) by lia.
  rewrite (IH fuel2 _ X2 y2 delta) by lia.
  reflexivity.
Qed.

Lemma fit_rec_is_fit (fuel : nat) (self : Node) X y delta :
  shape0 X < fuel -> _fit_rec fuel self X y delta = _fit self X y delta.
Proof. intros H. apply fit_rec_fuel; [exact H | lia]. Qed.

Lemma fit_rec_keeps_params (fuel : nat) (self t : Node) X y delta :
  _fit_rec fuel self X y delta = Ok t ->
  prior t = prior self /\ level t = level self /\
  partition_prior t = partition_prior self.
Proof.
  destruct fuel as [|fuel]; [discriminate|]. simpl. intros H.
  apply bind_ok in H. destruct H as (s & Hs & H).
  inversion H; subst; clear H. simpl.
  destruct (solve optimizer _ _ X y) as [[normal origin]|];
    [|inversion Hs; subst; auto].
  apply bind_ok in Hs. destruct Hs as (ps & _ & Hs).
  destruct (_ && _); [|inversion Hs; subst; auto].
  repeat (apply bind_ok in Hs; destruct Hs as (? & _ & Hs)).
  inversion Hs; subst. simpl. auto.
Qed.

(** C2, amended.  [_fit] and [_compute_child1_and_child2_indices] split
    the rows by the same two tests on the signed distances
    [X @ normal - normal . origin]: a row is sent to child1 exactly when
    its distance is negative and to child2 exactly when it is
    non-negative, and never to both.  A row whose distance is a number
    (not NaN) is therefore sent to exactly one child, and the two index
    sets cover exactly those rows; a row whose distance is NaN is sent to
    neither.  At fit time [_fit] stores the hyperplane, child1 is the
    child built from the rows and targets at the first index set, the
    rows of negative distance, and child2 the child built from those at
    the second, the rows of non-negative distance; afterwards the node
    splits the same data into the same two index sets. *)
Theorem rows_with_a_distance_go_to_one_child
    (X : Matrix) (normal origin ps : list float) :
  projections X normal origin = Ok ps ->
  let indices1 := np_where F64.lt0 ps in
  let indices2 := np_where F64.ge0 ps in
  (forall self : Node,
      best_hyperplane_normal self = Some normal ->
      best_hyperplane_origin self = Some origin ->
      _compute_child1_and_child2_indices self X = Ok (indices1, indices2)) /\
  (forall (self self' : Node) y delta,
      solve optimizer (partition_prior self) (prior self) X y
        = Some (normal, origin) ->
      indices1 <> [] -> indices2 <> [] ->
      _fit self X y delta = Ok self' ->
      exists X1 X2 y1 y2 c1 c2,
        take_rows X indices1 = Ok X1 /\ take_rows X indices2 = Ok X2 /\
        take y indices1 = Ok y1 /\ take y indices2 = Ok y2 /\
        child1 self' = Some c1 /\ child2 self' = Some c2 /\
        prior c1 = _compute_posterior hooks (prior self) y1 F64.zero /\
        prior c2 = _compute_posterior hooks (prior self) y2 F64.zero /\
        child_of_fit hooks optimizer self X1 y1 delta = Ok c1 /\
        child_of_fit hooks optimizer self X2 y2 delta = Ok c2 /\
        (forall k i, nth_error indices1 k = Some i ->
           nth_error (rows X1) k = nth_error (rows X) i /\
           nth_error y1 k = nth_error y i) /\
        (forall k i, nth_error indices2 k = Some i ->
           nth_error (rows X2) k = nth_error (rows X) i /\
           nth_error y2 k = nth_error y i) /\
        shape0 X1 = length indices1 /\ shape0 X2 = length indices2 /\
        (forall x, In x (rows X1) ->
           F64.lt0 (signed_distance x normal origin) = true) /\
        (forall x, In x (rows X2) ->
           F64.ge0 (signed_distance x normal origin) = true) /\
        best_hyperplane_normal self' = Some normal /\
        best_hyperplane_origin self' = Some origin /\
        _compute_child1_and_child2_indices self' X
        = Ok (indices1, indices2)) /\
  NoDup indices1 /\ NoDup indices2 /\
  (forall i, In i indices1 \/ In i indices2 -> i < shape0 X) /\
  forall i x, nth_error (rows X) i = Some x ->
    let p := signed_distance x normal origin in
    (In i indices1 <-> F64.lt0 p = true) /\
    (In i indices2 <-> F64.ge0 p = true) /\
    ~ (In i indices1 /\ In i indices2) /\
    (F64.is_nan p = false -> In i indices1 \/ In i indices2) /\
    (F64.is_nan p = true -> ~ In i indices1 /\ ~ In i indices2).
Proof.
  intros Hps indices1 indices2.
  destruct (projections_spec _ _ _ Hps) as (_ & _ & Hlen & Hrow).
  split; [|split; [|split; [|split; [|split]]]].
  - intros self Hn Ho. unfold _compute_child1_and_child2_indices.
    rewrite Hn, Ho, Hps. reflexivity.
  - intros self self' y delta Hsolve Hne1 Hne2 Hfit.
    unfold _fit in Hfit. simpl in Hfit.
    rewrite Hsolve, Hps in Hfit. simpl in Hfit.
    fold indices1 indices2 in Hfit.
    assert (Hsplit : length indices1 + length indices2 <= shape0 X).
    { rewrite <- Hlen. exact (where_from_split_length ps 0). }
    assert (G1 : 0 < length indices1)
      by (destruct indices1; [congruence | simpl; lia]).
    assert (G2 : 0 < length indices2)
      by (destruct indices2; [congruence | simpl; lia]).
    rewrite (proj2 (Nat.ltb_lt _ _) G1), (proj2 (Nat.ltb_lt _ _) G2) in Hfit.
    cbn [andb] in Hfit.
    apply bind_ok in Hfit. destruct Hfit as (s1 & Hs & Hfit).
    inversion Hfit; subst self'; clear Hfit.
    apply bind_ok in Hs. destruct Hs as (X1 & HX1 & Hs).
    apply bind_ok in Hs. destruct Hs as (X2 & HX2 & Hs).
    apply bind_ok in Hs. destruct Hs as (y1 & Hy1 & Hs).
    apply bind_ok in Hs. destruct Hs as (y2 & Hy2 & Hs).
    apply bind_ok in Hs. destruct Hs as (c1 & Hc1 & Hs).
    apply bind_ok in Hs. destruct Hs as (c2 & Hc2 & Hs).
    inversion Hs; subst s1; clear Hs.
    destruct (take_rows_spec _ _ HX1) as (_ & L1 & R1).
    destruct (take_rows_spec _ _ HX2) as (_ & L2 & R2).
    destruct (@take_spec _ _ _ _ Hy1) as (_ & T1).
    destruct (@take_spec _ _ _ _ Hy2) as (_ & T2).
    assert (C1 : child_of_fit hooks optimizer self X1 y1 delta = Ok c1).
    { unfold child_of_fit. destruct (1 <? shape0 X1); [|exact Hc1].
      rewrite <- Hc1. symmetry. apply fit_rec_is_fit. lia. }
    assert (C2 : child_of_fit hooks optimizer self X2 y2 delta = Ok c2).
    { unfold child_of_fit. destruct (1 <? shape0 X2); [|exact Hc2].
      rewrite <- Hc2. symmetry. apply fit_rec_is_fit. lia. }
    exists X1, X2, y1, y2, c1, c2.
    split; [exact HX1|]. split; [exact HX2|].
    split; [exact Hy1|]. split; [exact Hy2|].
    split; [reflexivity|]. split; [reflexivity|].
    split.
    { destruct (1 <? shape0 X1).
      - apply fit_rec_keeps_params in Hc1. destruct Hc1 as (-> & _).
        reflexivity.
      - inversion Hc1; subst. reflexivity. }
    split.
    { destruct (1 <? shape0 X2).
      - apply fit_rec_keeps_params in Hc2. destruct Hc2 as (-> & _).
        reflexivity.
      - inversion Hc2; subst. reflexivity. }
    split; [exact C1|]. split; [exact C2|].
    split.
    { intros k i Hk. split; [exact (R1 _ _ Hk) | exact (proj1 (T1 _ _ Hk))]. }
    split.
    { intros k i Hk. split; [exact (R2 _ _ Hk) | exact (proj1 (T2 _ _ Hk))]. }
    split; [exact L1|]. split; [exact L2|].
    split.
    { intros x Hx.
      pose proof (@taken_rows_on_one_side F64.lt0 _ _ _ _ _ Hps HX1 x Hx)
        as Hin.
      apply filter_In in Hin. exact (proj2 Hin). }
    split.
    { intros x Hx.
      pose proof (@taken_rows_on_one_side F64.ge0 _ _ _ _ _ Hps HX2 x Hx)
        as Hin.
      apply filter_In in Hin. exact (proj2 Hin). }
    split; [reflexivity|]. split; [reflexivity|].
    unfold _compute_child1_and_child2_indices. simpl. rewrite Hps.
    reflexivity.
  - apply np_where_NoDup.
  - apply np_where_NoDup.
  - intros i [Hi | Hi]; apply np_where_lt in Hi; congruence.
  - intros i x Hx p. specialize (Hrow i x Hx). fold p in Hrow.
    assert (H1 : In i indices1 <-> F64.lt0 p = true).
    { unfold indices1. rewrite np_where_In. split.
      - intros (q & Hq & Ht). congruence.
      - intros Ht. eauto. }
    assert (H2 : In i indices2 <-> F64.ge0 p = true).
    { unfold indices2. rewrite np_where_In. split.
      - intros (q & Hq & Ht). congruence.
      - intros Ht. eauto. }
    split; [exact H1|]. split; [exact H2|]. split; [|split].
    + rewrite H1, H2. intros [Ha Hb].
      rewrite (lt0_not_ge0 _ Ha) in Hb. discriminate.
    + rewrite H1, H2. apply not_nan_lt0_or_ge0.
    + rewrite H1, H2. intros Hnan.
      destruct (nan_neither _ Hnan) as [-> ->]. split; discriminate.
Qed.

(** ** Depth and leaves *)

Lemma update_depth_and_leaves_fitted (d : nat) (t : Node) :
  fitted d t ->
  forall depth leaves,
    _update_depth_and_leaves t depth leaves
    = Ok (fold_left Nat.max (map (@level Params) (leaves_of t)) depth,
          leaves + nleaves t).
Proof.
  unfold nleaves.
  induction 1 as [pp pr lvl nd po
                 |pp pr lvl po c1 c2 normal origin Hn Ho F1 IH1 F2 IH2];
    intros depth leaves.
  - reflexivity.
  - simpl. rewrite IH1. simpl. rewrite IH2.
    rewrite map_app, fold_left_app, length_app, Nat.add_assoc.
    reflexivity.
Qed.

Lemma depth_and_leaves_fitted (d : nat) (t : Node) :
  fitted d t ->
  depth_and_leaves t
  = Ok (fold_left Nat.max (map (@level Params) (leaves_of t)) 0, nleaves t).
Proof.
  intros F. unfold depth_and_leaves.
  rewrite (update_depth_and_leaves_fitted F). reflexivity.
Qed.

Lemma nleaves_pos (d : nat) (t : Node) : fitted d t -> 0 < nleaves t.
Proof.
  unfold nleaves. induction 1; simpl; [lia|].
  rewrite length_app. lia.
Qed.

Lemma nodes_nleaves (d : nat) (t : Node) :
  fitted d t -> nodes t + 1 = 2 * nleaves t.
Proof.
  unfold nleaves. induction 1; simpl; [lia|].
  rewrite length_app. simpl in *. lia.
Qed.

Lemma pair_eqb_eq (a b : nat * nat) : pair_eqb a b = true <-> a = b.
Proof.
  destruct a as [a1 a2], b as [b1 b2]. unfold pair_eqb. simpl.
  rewrite andb_true_iff, !Nat.eqb_eq. split; [intros []|intros [=]];
    subst; auto.
Qed.

Lemma pair_eqb_refl (a : nat * nat) : pair_eqb a a = true.
Proof. apply pair_eqb_eq. reflexivity. Qed.

(** ** Prune *)

Lemma prune_rec_S (fuel : nat) (self : Node) :
  _prune_rec (S fuel) self = prune_step hooks (_prune_rec fuel) self.
Proof. reflexivity. Qed.

(** What one activation does to a fitted internal node, given what the
    recursive calls do to its children. *)
Lemma prune_pass_internal (rec : Node -> result Node) (d : nat)
      pp pr lvl nd po (c1 c2 : Node) bn bo :
  fitted d c1 -> fitted d c2 ->
  let self := mkNode pp pr lvl nd po (Some c1) (Some c2) bn bo in
  prune_pass hooks rec self =
  if stores_no_split c1 && stores_no_split c2 then
    p1 <- predict_leaf_of hooks c1 ;;
    p2 <- predict_leaf_of hooks c2 ;;
    if F64.eqb p1 p2 then Ok (collapse self) else Ok self
  else
    c1' <- rec c1 ;;
    c2' <- rec c2 ;;
    Ok (set_child2 (set_child1 self (Some c1')) (Some c2')).
Proof.
  intros F1 F2 self. unfold prune_pass. simpl.
  rewrite (fitted_is_leaf F1). simpl.
  destruct (stores_no_split c1); simpl.
  - rewrite (fitted_is_leaf F2). simpl.
    destruct (stores_no_split c2); reflexivity.
  - reflexivity.
Qed.

Lemma fitted_predict_leaf_of (d : nat) (t : Node) :
  fitted d t -> exists p, predict_leaf_of hooks t = Ok p.
Proof. destruct 1; simpl; eexists; reflexivity. Qed.

Lemma fitted_no_split_nleaves (d : nat) (t : Node) :
  fitted d t -> stores_no_split t = true -> nleaves t = 1.
Proof. destruct 1; simpl; [reflexivity | discriminate]. Qed.

(** Pruning keeps the shape, never adds a leaf, and keeps the number of
    leaves only when it changes nothing. *)
Lemma prune_rec_shrinks (d : nat) (fuel : nat) :
  forall t t' : Node,
    fitted d t ->
    _prune_rec fuel t = Ok t' ->
    fitted d t' /\ nleaves t' <= nleaves t /\
    (nleaves t' = nleaves t -> t' = t).
Proof.
  induction fuel as [|fuel IH]; intros t t' F H; [discriminate|].
  rewrite prune_rec_S in H. unfold prune_step in H.
  rewrite (depth_and_leaves_fitted F), (fitted_is_leaf F) in H.
  simpl in H.
  destruct F as [pp pr lvl nd po
                |pp pr lvl po c1 c2 normal origin Hn Ho F1 F2].
  { simpl in H. inversion H; subst. repeat split; auto. constructor. }
  simpl stores_no_split in H. cbv iota in H.
  rewrite (prune_pass_internal _ _ _ _ _ _ _ _ F1 F2) in H.
  set (self := mkNode pp pr lvl (Some d) (Some po) (Some c1)
                      (Some c2) (Some normal) (Some origin)) in *.
  assert (Fself : fitted d self) by (constructor; auto).
  assert (Nself : nleaves self = nleaves c1 + nleaves c2)
    by (unfold nleaves; simpl; apply length_app).
  apply bind_ok in H. destruct H as (self' & Hpass & H).
  destruct (stores_no_split c1 && stores_no_split c2) eqn:Eboth.
  - apply andb_true_iff in Eboth. destruct Eboth as [E1 E2].
    pose proof (fitted_no_split_nleaves F1 E1) as N1.
    pose proof (fitted_no_split_nleaves F2 E2) as N2.
    apply bind_ok in Hpass. destruct Hpass as (p1 & _ & Hpass).
    apply bind_ok in Hpass. destruct Hpass as (p2 & _ & Hpass).
    destruct (F64.eqb p1 p2).
    + inversion Hpass; subst self'; clear Hpass.
      assert (Fc : fitted d (collapse self))
        by (unfold self, collapse; simpl; constructor).
      rewrite (depth_and_leaves_fitted Fc) in H. simpl in H.
      unfold pair_eqb in H. simpl in H.
      rewrite Nself, N1, N2 in H. simpl in H.
      rewrite andb_false_r in H. simpl in H.
      destruct (IH _ _ Fc H) as (Ft' & Hle & _).
      split; [exact Ft'|].
      unfold nleaves at 2 in Hle. simpl in Hle. split; lia.
    + inversion Hpass; subst self'; clear Hpass.
      rewrite (depth_and_leaves_fitted Fself) in H. simpl in H.
      rewrite pair_eqb_refl in H. simpl in H. inversion H; subst.
      repeat split; auto.
  - apply bind_ok in Hpass. destruct Hpass as (c1' & Hc1 & Hpass).
    apply bind_ok in Hpass. destruct Hpass as (c2' & Hc2 & Hpass).
    inversion Hpass; subst self'; clear Hpass.
    destruct (IH _ _ F1 Hc1) as (F1' & L1 & Q1).
    destruct (IH _ _ F2 Hc2) as (F2' & L2 & Q2).
    set (self' := set_child2 (set_child1 self (Some c1')) (Some c2')) in *.
    assert (Fself' : fitted d self')
      by (unfold self', self; simpl; constructor; auto).
    assert (Nself' : nleaves self' = nleaves c1' + nleaves c2')
      by (unfold nleaves; simpl; apply length_app).
    assert (Same : nleaves self' = nleaves self -> self' = self).
    { intros E. rewrite Nself, Nself' in E. unfold self', self.
      rewrite Q1, Q2 by lia. reflexivity. }
    rewrite (depth_and_leaves_fitted Fself') in H. simpl in H.
    destruct (pair_eqb _ _) eqn:Epair; simpl in H.
    + inversion H; subst t'. repeat split; auto. lia.
    + destruct (IH _ _ Fself' H) as (Ft' & Hle & Q).
      split; [exact Ft'|]. split; [lia|].
      intros E. assert (E' : nleaves t' = nleaves self') by lia.
      rewrite (Q E'). apply Same. lia.
Qed.

(** With at least as much fuel as the tree has nodes, [_prune_rec]
    returns a node. *)
Lemma prune_rec_total (d : nat) (fuel : nat) :
  forall t : Node,
    fitted d t -> nodes t <= fuel -> exists t', _prune_rec fuel t = Ok t'.
Proof.
  induction fuel as [|fuel IH]; intros t F Hfuel.
  { destruct t; simpl in Hfuel; lia. }
  rewrite prune_rec_S. unfold prune_step.
  rewrite (depth_and_leaves_fitted F), (fitted_is_leaf F). simpl.
  pose proof (nodes_nleaves F) as Nt.
  destruct F as [pp pr lvl nd po
                |pp pr lvl po c1 c2 normal origin Hn Ho F1 F2].
  { simpl. eauto. }
  simpl stores_no_split. cbv iota.
  rewrite (prune_pass_internal _ _ _ _ _ _ _ _ F1 F2).
  set (self := mkNode pp pr lvl (Some d) (Some po) (Some c1)
                      (Some c2) (Some normal) (Some origin)) in *.
  assert (Fself : fitted d self) by (constructor; auto).
  assert (Nself : nleaves self = nleaves c1 + nleaves c2)
    by (unfold nleaves; simpl; apply length_app).
  pose proof (nodes_nleaves F1) as N1.
  pose proof (nodes_nleaves F2) as N2.
  assert (Hnodes : nodes self = S (nodes c1 + nodes c2)) by reflexivity.
  destruct (stores_no_split c1 && stores_no_split c2) eqn:Eboth.
  - destruct (fitted_predict_leaf_of F1) as (p1 & ->).
    destruct (fitted_predict_leaf_of F2) as (p2 & ->). cbn [bind].
    destruct (F64.eqb p1 p2); cbn [bind].
    + assert (Fc : fitted d (collapse self))
        by (unfold self, collapse; simpl; constructor).
      rewrite (depth_and_leaves_fitted Fc).
      simpl. destruct (negb _); [|eauto].
      apply IH; [exact Fc|]. unfold self, collapse; simpl.
      destruct c1, c2; simpl in *; lia.
    + rewrite (depth_and_leaves_fitted Fself). simpl.
      rewrite pair_eqb_refl. simpl. eauto.
  - destruct (IH c1 F1) as (c1' & Hc1); [lia|].
    destruct (IH c2 F2) as (c2' & Hc2); [lia|].
    rewrite Hc1, Hc2. simpl.
    destruct (@prune_rec_shrinks d fuel _ _ F1 Hc1) as (F1' & L1 & Q1).
    destruct (@prune_rec_shrinks d fuel _ _ F2 Hc2) as (F2' & L2 & Q2).
    set (self' := set_child2 (set_child1 self (Some c1')) (Some c2')) in *.
    assert (Fself' : fitted d self')
      by (unfold self', self; simpl; constructor; auto).
    assert (Nself' : nleaves self' = nleaves c1' + nleaves c2')
      by (unfold nleaves; simpl; apply length_app).
    rewrite (depth_and_leaves_fitted Fself'). simpl.
    destruct (pair_eqb _ _) eqn:Epair; simpl; [eauto|].
    apply IH; [exact Fself'|].
    assert (Hlt : nleaves self' < nleaves self).
    { destruct (Nat.eq_dec (nleaves self') (nleaves self)) as [E|E]; [|lia].
      exfalso. rewrite Nself, Nself' in E.
      assert (E1 : c1' = c1) by (apply Q1; lia).
      assert (E2 : c2' = c2) by (apply Q2; lia).
      subst c1' c2'.
      change self' with self in Epair.
      rewrite pair_eqb_refl in Epair. discriminate. }
    pose proof (nodes_nleaves Fself') as Nt'. lia.
Qed.

(** Pruning what [_prune_rec] returned changes nothing. *)
Lemma prune_rec_fixpoint (d : nat) (fuel : nat) :
  forall t t' : Node,
    fitted d t ->
    _prune_rec fuel t = Ok t' ->
    forall fuel', nodes t' <= fuel' -> _prune_rec fuel' t' = Ok t'.
Proof.
  induction fuel as [|fuel IH]; intros t t' F H; [discriminate|].
  rewrite prune_rec_S in H. unfold prune_step in H.
  rewrite (depth_and_leaves_fitted F), (fitted_is_leaf F) in H.
  simpl in H.
  destruct F as [pp pr lvl nd po
                |pp pr lvl po c1 c2 normal origin Hn Ho F1 F2].
  { simpl in H. inversion H; subst. intros [|fuel'] Hf; [simpl in Hf; lia|].
    reflexivity. }
  simpl stores_no_split in H. cbv iota in H.
  rewrite (prune_pass_internal _ _ _ _ _ _ _ _ F1 F2) in H.
  set (self := mkNode pp pr lvl (Some d) (Some po) (Some c1)
                      (Some c2) (Some normal) (Some origin)) in *.
  assert (Fself : fitted d self) by (constructor; auto).
  assert (Nself : nleaves self = nleaves c1 + nleaves c2)
    by (unfold nleaves; simpl; apply length_app).
  assert (Hnodes : nodes self = S (nodes c1 + nodes c2)) by reflexivity.
  apply bind_ok in H. destruct H as (self' & Hpass & H).
  destruct (stores_no_split c1 && stores_no_split c2) eqn:Eboth.
  - apply bind_ok in Hpass. destruct Hpass as (p1 & Hp1 & Hpass).
    apply bind_ok in Hpass. destruct Hpass as (p2 & Hp2 & Hpass).
    destruct (F64.eqb p1 p2) eqn:Eeq.
    + inversion Hpass; subst self'; clear Hpass.
      assert (Fc : fitted d (collapse self))
        by (unfold self, collapse; simpl; constructor).
      rewrite (depth_and_leaves_fitted Fc) in H. simpl in H.
      destruct (negb _).
      * exact (IH _ _ Fc H).
      * inversion H; subst t'. intros [|fuel'] Hf; [simpl in Hf; lia|].
        reflexivity.
    + inversion Hpass; subst self'; clear Hpass.
      rewrite (depth_and_leaves_fitted Fself) in H. simpl in H.
      rewrite pair_eqb_refl in H. simpl in H. inversion H; subst t'.
      intros [|fuel'] Hf; [simpl in Hf; lia|].
      rewrite prune_rec_S. unfold prune_step.
      rewrite (depth_and_leaves_fitted Fself), (fitted_is_leaf Fself).
      simpl. unfold self at 1.
      rewrite (prune_pass_internal _ _ _ _ _ _ _ _ F1 F2).
      fold self. rewrite Eboth, Hp1, Hp2. simpl. rewrite Eeq. simpl.
      rewrite (depth_and_leaves_fitted Fself). simpl.
      rewrite pair_eqb_refl. reflexivity.
  - apply bind_ok in Hpass. destruct Hpass as (c1' & Hc1 & Hpass).
    apply bind_ok in Hpass. destruct Hpass as (c2' & Hc2 & Hpass).
    inversion Hpass; subst self'; clear Hpass.
    destruct (@prune_rec_shrinks d fuel _ _ F1 Hc1) as (F1' & L1 & Q1).
    destruct (@prune_rec_shrinks d fuel _ _ F2 Hc2) as (F2' & L2 & Q2).
    set (self' := set_child2 (set_child1 self (Some c1')) (Some c2')) in *.
    assert (Fself' : fitted d self')
      by (unfold self', self; simpl; constructor; auto).
    assert (Nself' : nleaves self' = nleaves c1' + nleaves c2')
      by (unfold nleaves; simpl; apply length_app).
    rewrite (depth_and_leaves_fitted Fself') in H. simpl in H.
    destruct (pair_eqb _ _) eqn:Epair; simpl in H;
      [|exact (IH _ _ Fself' H)].
    inversion H; subst t'; clear H.
    apply pair_eqb_eq in Epair. injection Epair as _ E.
    rewrite Nself, Nself' in E.
    assert (E1 : c1' = c1) by (apply Q1; lia).
    assert (E2 : c2' = c2) by (apply Q2; lia).
    subst c1' c2'. change self' with self.
    intros [|fuel'] Hf; [simpl in Hf; lia|].
    rewrite prune_rec_S. unfold prune_step.
    rewrite (depth_and_leaves_fitted Fself), (fitted_is_leaf Fself).
    simpl. unfold self at 1.
    rewrite (prune_pass_internal _ _ _ _ _ _ _ _ F1 F2).
    fold self. rewrite Eboth.
    rewrite (IH _ _ F1 Hc1 fuel') by lia.
    rewrite (IH _ _ F2 Hc2 fuel') by lia.
    simpl. change (set_child2 (set_child1 self (Some c1)) (Some c2)) with self.
    rewrite (depth_and_leaves_fitted Fself). simpl.
    rewrite pair_eqb_refl. reflexivity.
Qed.

(** ** Both children or none *)

Lemma fitted_paired (d : nat) (t : Node) : fitted d t -> paired t.
Proof. induction 1; simpl; auto. Qed.

Lemma fit_rec_paired (fuel : nat) (self self' : Node) X y delta :
  paired self -> _fit_rec fuel self X y delta = Ok self' -> paired self'.
Proof.
  intros P H. destruct fuel as [|fuel]; [discriminate|]. simpl in H.
  apply bind_ok in H. destruct H as (s & Hs & H).
  inversion H; subst; clear H.
  assert (Keep : paired (set_posterior (set_n_dim self (shape1 X))
                   (_compute_posterior hooks (prior self) y F64.one)))
    by (destruct self; exact P).
  destruct (solve optimizer _ _ X y) as [[normal origin]|];
    [|inversion Hs; subst; exact Keep].
  apply bind_ok in Hs. destruct Hs as (ps & Hps & Hs).
  destruct (_ && _); [|inversion Hs; subst; exact Keep].
  apply bind_ok in Hs. destruct Hs as (X1 & HX1 & Hs).
  apply bind_ok in Hs. destruct Hs as (X2 & HX2 & Hs).
  apply bind_ok in Hs. destruct Hs as (y1 & Hy1 & Hs).
  apply bind_ok in Hs. destruct Hs as (y2 & Hy2 & Hs).
  apply bind_ok in Hs. destruct Hs as (c1 & Hc1 & Hs).
  apply bind_ok in Hs. destruct Hs as (c2 & Hc2 & Hs).
  inversion Hs; subst; clear Hs. simpl. split.
  - destruct (1 <? shape0 X1).
    + eapply fitted_paired, fit_rec_fitted; [|exact Hc1]. repeat split.
    + inversion Hc1; subst. exact I.
  - destruct (1 <? shape0 X2).
    + eapply fitted_paired, fit_rec_fitted; [|exact Hc2]. repeat split.
    + inversion Hc2; subst. exact I.
Qed.

Lemma prune_rec_paired (fuel : nat) :
  forall self self' : Node,
    paired self -> _prune_rec fuel self = Ok self' -> paired self'.
Proof.
  induction fuel as [|fuel IH]; intros self self' P H; [discriminate|].
  rewrite prune_rec_S in H. unfold prune_step in H.
  apply bind_ok in H. destruct H as (start & _ & H).
  apply bind_ok in H. destruct H as (leaf & _ & H).
  destruct leaf; [inversion H; subst; exact P|].
  apply bind_ok in H. destruct H as (s & Hpass & H).
  apply bind_ok in H. destruct H as (e & _ & H).
  assert (Ps : paired s).
  { unfold prune_pass in Hpass.
    destruct self as [pp pr lvl nd po ch1 ch2 bn bo]. simpl in *.
    destruct ch1 as [c1|]; [|discriminate].
    destruct ch2 as [c2|]; [|contradiction].
    destruct P as [P1 P2].
    apply bind_ok in Hpass. destruct Hpass as (leaf1 & _ & Hpass).
    apply bind_ok in Hpass. destruct Hpass as (both & _ & Hpass).
    destruct both.
    - apply bind_ok in Hpass. destruct Hpass as (p1 & _ & Hpass).
      apply bind_ok in Hpass. destruct Hpass as (p2 & _ & Hpass).
      destruct (F64.eqb p1 p2); inversion Hpass; subst; simpl; auto.
    - apply bind_ok in Hpass. destruct Hpass as (c1' & Hc1 & Hpass).
      apply bind_ok in Hpass. destruct Hpass as (c2' & Hc2 & Hpass).
      inversion Hpass; subst. simpl.
      split; [exact (IH _ _ P1 Hc1) | exact (IH _ _ P2 Hc2)]. }
  destruct (negb _); [exact (IH _ _ Ps H) | inversion H; subst; exact Ps].
Qed.

(** ** Trained nodes have the shape of a fitted tree *)

Lemma fit_fitted pp pr lvl X y delta prune (t : Node) :
  fit (new_node pp pr lvl) X y delta prune = Ok t ->
  fitted (shape1 X) t.
Proof.
  unfold fit. intros H.
  apply bind_ok in H. destruct H as (_ & _ & H).
  destruct (_ || _); [discriminate|].
  apply bind_ok in H. destruct H as (s & Hs & H).
  assert (Fs : fitted (shape1 X) s)
    by (eapply fit_rec_fitted; [|exact Hs]; repeat split).
  destruct prune; [|inversion H; subst; exact Fs].
  exact (proj1 (@prune_rec_shrinks _ _ _ _ Fs H)).
Qed.

Lemma trained_fitted (t : Node) : trained t -> exists d, fitted d t.
Proof.
  induction 1 as [pp pr lvl X y delta prune t H
                 |t t' _ [d F] H
                 |t c _ [d F] H
                 |t c _ [d F] H].
  - exists (shape1 X). eapply fit_fitted; eauto.
  - exists d. exact (proj1 (@prune_rec_shrinks _ _ _ _ F H)).
  - exists d. destruct F; simpl in H; [discriminate|].
    inversion H; subst; assumption.
  - exists d. destruct F; simpl in H; [discriminate|].
    inversion H; subst; assumption.
Qed.

Lemma fitted_leaf_facts (d : nat) (t : Node) :
  fitted d t ->
  is_leaf t = Ok (stores_no_split t) /\
  (best_hyperplane_normal t = None <-> best_hyperplane_origin t = None) /\
  (best_hyperplane_normal t = None <-> child1 t = None /\ child2 t = None) /\
  (child1 t = None <-> child2 t = None).
Proof.
  intros F. split; [exact (fitted_is_leaf F)|].
  destruct F; simpl; repeat split; auto; try discriminate;
    intros []; discriminate.
Qed.

(** C3.  On every trained node (the result of [fit] on a fresh node, of
    [_prune], or a child of one) [is_leaf] returns whether no hyperplane
    normal is stored; the normal is absent exactly when the origin is,
    and exactly when both children are; one child is absent exactly when
    the other is.  From any state in which every node has both children
    or none, [_fit], [fit] and [_prune] lead to such a state. *)
Theorem leaf_iff_no_split_iff_no_children :
  (forall t : Node,
      trained t ->
      is_leaf t = Ok (stores_no_split t) /\
      (best_hyperplane_normal t = None <-> best_hyperplane_origin t = None) /\
      (best_hyperplane_normal t = None
       <-> child1 t = None /\ child2 t = None) /\
      (child1 t = None <-> child2 t = None)) /\
  (forall (self self' : Node) X y delta,
      paired self -> _fit self X y delta = Ok self' -> paired self') /\
  (forall (self self' : Node) X y delta prune,
      paired self -> fit self X y delta prune = Ok self' -> paired self') /\
  (forall self self' : Node,
      paired self -> _prune self = Ok self' -> paired self').
Proof.
  split; [|split; [|split]].
  - intros t Ht. destruct (trained_fitted Ht) as [d F].
    exact (fitted_leaf_facts F).
  - intros self self' X y delta P H. exact (@fit_rec_paired _ _ _ _ _ _ P H).
  - intros self self' X y delta prune P H. unfold fit in H.
    apply bind_ok in H. destruct H as (_ & _ & H).
    destruct (_ || _); [discriminate|].
    apply bind_ok in H. destruct H as (s & Hs & H).
    pose proof (@fit_rec_paired _ _ _ _ _ _ P Hs) as Ps.
    destruct prune; [|inversion H; subst; exact Ps].
    exact (@prune_rec_paired _ _ _ Ps H).
  - intros self self' P H. exact (@prune_rec_paired _ _ _ P H).
Qed.

(** C6.  On a trained tree [_prune] returns a tree, and running [_prune]
    on that tree returns it unchanged: the same node, with the same
    children and the same stored hyperplanes at every depth. *)
Theorem prune_reaches_fixpoint (t : Node) :
  trained t ->
  exists t', _prune t = Ok t' /\ _prune t' = Ok t'.
Proof.
  intros Ht. destruct (trained_fitted Ht) as [d F].
  destruct (@prune_rec_total d (nodes t) t F (le_n _)) as (t' & H).
  exists t'. split; [exact H|].
  exact (@prune_rec_fixpoint _ _ _ _ F H _ (le_n _)).
Qed.

(** ** The leaves of a fitted tree *)

Lemma fold_max_init (l : list nat) :
  forall a, fold_left Nat.max l a = Nat.max a (fold_left Nat.max l 0).
Proof.
  induction l as [|x l IH]; intros a; simpl; [lia|].
  rewrite (IH (Nat.max a x)), (IH x). lia.
Qed.

Lemma fold_max_upper (l : list nat) (x : nat) :
  In x l -> x <= fold_left Nat.max l 0.
Proof.
  induction l as [|z l IH]; simpl; [intros []|].
  rewrite (fold_max_init l z). intros [-> | H]; [lia|].
  specialize (IH H). lia.
Qed.

Lemma fold_max_attained (l : list nat) :
  l <> [] -> In (fold_left Nat.max l 0) l.
Proof.
  induction l as [|z l IH]; [congruence|]. intros _. simpl.
  rewrite (fold_max_init l z).
  destruct l as [|z' l']; [simpl; left; lia|].
  assert (IH' : In (fold_left Nat.max (z' :: l') 0) (z' :: l'))
    by (apply IH; discriminate).
  destruct (Nat.max_spec z (fold_left Nat.max (z' :: l') 0))
    as [[_ ->] | [_ ->]]; [right; exact IH' | left; reflexivity].
Qed.

Lemma leaves_of_sound (d : nat) (t : Node) :
  fitted d t ->
  forall leaf, In leaf (leaves_of t) ->
               in_tree leaf t /\ is_leaf leaf = Ok true.
Proof.
  induction 1 as [pp pr lvl nd po
                 |pp pr lvl po c1 c2 normal origin Hn Ho F1 IH1 F2 IH2];
    intros leaf Hin; simpl in Hin.
  - destruct Hin as [<- | []]. split; [constructor | reflexivity].
  - apply in_app_or in Hin. destruct Hin as [Hin | Hin].
    + destruct (IH1 _ Hin) as [Ht Hl]. split; [|exact Hl].
      eapply in_tree_child1; [reflexivity | exact Ht].
    + destruct (IH2 _ Hin) as [Ht Hl]. split; [|exact Hl].
      eapply in_tree_child2; [reflexivity | exact Ht].
Qed.

Lemma leaves_of_complete (d : nat) (n t : Node) :
  in_tree n t -> fitted d t -> is_leaf n = Ok true -> In n (leaves_of t).
Proof.
  induction 1 as [|self c Hc Hin IH|self c Hc Hin IH]; intros F Hl.
  - rewrite (fitted_is_leaf F) in Hl. inversion Hl as [E].
    unfold stores_no_split in E. unfold leaves_of.
    destruct n; simpl in *.
    destruct best_hyperplane_normal0; [discriminate | simpl; auto].
  - destruct F; simpl in Hc; [discriminate|]. inversion Hc; subst.
    simpl. apply in_or_app. left. apply IH; assumption.
  - destruct F; simpl in Hc; [discriminate|]. inversion Hc; subst.
    simpl. apply in_or_app. right. apply IH; assumption.
Qed.

Lemma leaves_of_nonempty (d : nat) (t : Node) :
  fitted d t -> leaves_of t <> [].
Proof.
  intros F E. pose proof (nleaves_pos F) as H.
  unfold nleaves in H. rewrite E in H. simpl in H. lia.
Qed.

(** C7.  On a trained tree [depth_and_leaves] returns a pair: its second
    component is the number of leaves reachable from the node (the
    length of [leaves_of], which lists exactly the descendants on which
    [is_leaf] holds); its first component is the level of one of these
    leaves and no leaf has a greater level.  A leaf adds its own level
    (by max) and one leaf to the running pair; an internal node returns
    the max of its children's depths and the sum of their counts. *)
Theorem depth_and_leaves_counts (t : Node) :
  trained t ->
  exists depth leaves,
    depth_and_leaves t = Ok (depth, leaves) /\
    leaves = length (leaves_of t) /\
    (forall n, In n (leaves_of t) <-> in_tree n t /\ is_leaf n = Ok true) /\
    (exists leaf, In leaf (leaves_of t) /\ level leaf = depth) /\
    (forall leaf, In leaf (leaves_of t) -> level leaf <= depth) /\
    (forall depth0 leaves0,
        _update_depth_and_leaves t depth0 leaves0
        = Ok (Nat.max depth0 depth, leaves0 + leaves)) /\
    (is_leaf t = Ok true -> depth = level t /\ leaves = 1) /\
    (forall c1 c2 d1 l1 d2 l2,
        is_leaf t = Ok false ->
        child1 t = Some c1 -> child2 t = Some c2 ->
        depth_and_leaves c1 = Ok (d1, l1) ->
        depth_and_leaves c2 = Ok (d2, l2) ->
        depth = Nat.max d1 d2 /\ leaves = l1 + l2).
Proof.
  intros Ht. destruct (trained_fitted Ht) as [d F].
  exists (fold_left Nat.max (map (@level Params) (leaves_of t)) 0),
         (nleaves t).
  split; [exact (depth_and_leaves_fitted F)|].
  split; [reflexivity|]. split; [|split; [|split; [|split; [|split]]]].
  - intros n. split.
    + apply (leaves_of_sound F).
    + intros [Hin Hl]. exact (leaves_of_complete Hin F Hl).
  - assert (Hne : map (@level Params) (leaves_of t) <> []).
    { intros E. apply map_eq_nil in E. exact (leaves_of_nonempty F E). }
    apply fold_max_attained in Hne. apply in_map_iff in Hne.
    destruct Hne as (leaf & Hlv & Hin). eauto.
  - intros leaf Hin. apply fold_max_upper. apply in_map. exact Hin.
  - intros depth0 leaves0. rewrite (update_depth_and_leaves_fitted F).
    rewrite fold_max_init. reflexivity.
  - intros Hl. rewrite (fitted_is_leaf F) in Hl. inversion Hl as [E].
    destruct F; simpl in E; [|discriminate].
    unfold nleaves. simpl. split; [lia | reflexivity].
  - intros c1 c2 d1 l1 d2 l2 Hl Hc1 Hc2 H1 H2.
    destruct F as [|pp pr lvl po k1 k2 normal origin Hn Ho F1 F2];
      simpl in Hc1, Hc2; [discriminate|].
    inversion Hc1; inversion Hc2; subst.
    rewrite (depth_and_leaves_fitted F1) in H1.
    rewrite (depth_and_leaves_fitted F2) in H2.
    inversion H1; inversion H2; subst.
    unfold nleaves. simpl.
    rewrite map_app, fold_left_app, length_app.
    rewrite fold_max_init. split; reflexivity.
Qed.

(** ** Predict *)

Lemma predict_internal pp pr lvl nd po (c1 c2 : Node) normal origin X :
  _predict (mkNode pp pr lvl nd (Some po) (Some c1) (Some c2)
                   (Some normal) (Some origin)) X
  = (idx <- (ps <- projections X normal origin ;;
             Ok (np_where F64.lt0 ps, np_where F64.ge0 ps)) ;;
     merged1 <-
       (if 0 <? length (fst idx) then
          X1 <- take_rows X (fst idx) ;;
          predictions1 <- _predict c1 X1 ;;
          m <- assign (_create_merged_predictions_array X)
                      (fst idx) predictions1 ;;
          Ok (Some m)
        else Ok None) ;;
     if 0 <? length (snd idx) then
       X2 <- take_rows X (snd idx) ;;
       predictions2 <- _predict c2 X2 ;;
       m <- assign (match merged1 with
                    | Some m => m
                    | None => _create_merged_predictions_array X
                    end) (snd idx) predictions2 ;;
       Ok (Some m)
     else Ok merged1).
Proof. reflexivity. Qed.

Lemma leaf_for_internal pp pr lvl nd po (c1 c2 : Node) normal origin x :
  leaf_for (mkNode pp pr lvl nd po (Some c1) (Some c2)
                   (Some normal) (Some origin)) x
  = if F64.lt0 (signed_distance x normal origin) then leaf_for c1 x
    else if F64.ge0 (signed_distance x normal origin) then leaf_for c2 x
         else None.
Proof. reflexivity. Qed.

(** The rows sent to one child, predicted by it and written back. *)
Lemma child_merge (c : Node) (X : Matrix) (indices : list nat)
      (base : list float) :
  (forall X1, shape1 X1 = shape1 X ->
              exists r, _predict c X1 = Ok r
                        /\ routed_predictions hooks c X1 r) ->
  length base = shape0 X ->
  NoDup indices ->
  (forall i, In i indices -> i < shape0 X) ->
  exists m,
    (X1 <- take_rows X indices ;;
     predictions <- _predict c X1 ;;
     m <- assign base indices predictions ;;
     Ok (Some m)) = Ok (Some m) /\
    length m = shape0 X /\
    (forall j, ~ In j indices -> nth_error m j = nth_error base j) /\
    (forall i x leaf,
        In i indices ->
        nth_error (rows X) i = Some x ->
        leaf_for c x = Some leaf ->
        exists po, posterior leaf = Some po /\
                   nth_error m i = Some (_predict_leaf hooks po)).
Proof.
  intros IH Hbase Hnd Hlt.
  destruct (@take_rows_ok X indices Hlt) as (X1 & HX1).
  destruct (take_rows_spec _ _ HX1) as (E1 & L1 & R1).
  destruct (IH X1 E1) as (r & Hr & Q).
  rewrite HX1. cbn [bind]. rewrite Hr. cbn [bind].
  assert (Hlt' : forall i, In i indices -> i < length base)
    by (intros i Hi; rewrite Hbase; auto).
  destruct r as [a|]; simpl in Q.
  - destruct Q as [La Qa].
    destruct (@assign_some_spec base indices a Hlt')
      as (m & -> & Lm & Hk & Ho); [congruence | assumption |].
    exists m. cbn [bind]. split; [reflexivity|]. split; [congruence|].
    split; [exact Ho|].
    intros i x leaf Hi Hx Hleaf.
    destruct (In_nth_error _ _ Hi) as (k & Hk').
    specialize (R1 _ _ Hk'). rewrite Hx in R1.
    destruct (Qa _ _ _ R1 Hleaf) as (po & Hpo & Ha).
    exists po. split; [exact Hpo|]. rewrite (Hk _ _ Hk'). exact Ha.
  - destruct (@assign_none_spec base indices Hlt' Hnd)
      as (m & -> & Lm & Ho).
    exists m. cbn [bind]. split; [reflexivity|]. split; [congruence|].
    split; [exact Ho|].
    intros i x leaf Hi Hx Hleaf.
    destruct (In_nth_error _ _ Hi) as (k & Hk').
    specialize (R1 _ _ Hk'). rewrite Hx in R1.
    apply nth_error_In in R1. rewrite (Q _ R1) in Hleaf. discriminate.
Qed.

Lemma zeros_length (X : Matrix) :
  length (_create_merged_predictions_array X) = shape0 X.
Proof. apply repeat_length. Qed.

Lemma length_zero_nil {A : Type} (l : list A) :
  (0 <? length l) = false -> l = [].
Proof. destruct l; simpl; [reflexivity | discriminate]. Qed.

(** On a fitted tree [_predict] returns, and what it returns holds the
    leaf predictions at the positions of the rows. *)
Lemma predict_rec_fitted (d : nat) (t : Node) :
  fitted d t ->
  forall X, shape1 X = d ->
            exists r, _predict t X = Ok r /\ routed_predictions hooks t X r.
Proof.
  induction 1 as [pp pr lvl nd po
                 |pp pr lvl po c1 c2 normal origin Hn Ho F1 IH1 F2 IH2];
    intros X HX.
  - eexists. split; [reflexivity|]. simpl. split.
    + rewrite length_map. apply zeros_length.
    + intros i x leaf Hx Hleaf. inversion Hleaf; subst. simpl.
      exists po. split; [reflexivity|].
      rewrite nth_error_map. unfold _create_merged_predictions_array, np_zeros.
      assert (Hi : i < shape0 X) by (apply nth_error_Some; congruence).
      rewrite nth_error_repeat by exact Hi. reflexivity.
  - rewrite predict_internal.
    destruct (projections_ok X normal origin) as (ps & Hps);
      [congruence | congruence |].
    destruct (projections_spec _ _ _ Hps) as (_ & _ & Hlen & Hrow).
    rewrite Hps. cbn [bind fst snd].
    set (indices1 := np_where F64.lt0 ps).
    set (indices2 := np_where F64.ge0 ps).
    assert (Lt1 : forall i, In i indices1 -> i < shape0 X)
      by (intros i Hi; apply np_where_lt in Hi; congruence).
    assert (Lt2 : forall i, In i indices2 -> i < shape0 X)
      by (intros i Hi; apply np_where_lt in Hi; congruence).
    assert (In1 : forall i x, nth_error (rows X) i = Some x ->
              F64.lt0 (signed_distance x normal origin) = true ->
              In i indices1).
    { intros i x Hx Ht. apply np_where_In. eauto. }
    assert (In2 : forall i x, nth_error (rows X) i = Some x ->
              F64.ge0 (signed_distance x normal origin) = true ->
              In i indices2).
    { intros i x Hx Ht. apply np_where_In. eauto. }
    assert (Out2 : forall i x, nth_error (rows X) i = Some x ->
              F64.lt0 (signed_distance x normal origin) = true ->
              ~ In i indices2).
    { intros i x Hx Ht Hin. apply np_where_In in Hin.
      destruct Hin as (p & Hp & Hge). rewrite (Hrow _ _ Hx) in Hp.
      inversion Hp; subst. rewrite (lt0_not_ge0 _ Ht) in Hge.
      discriminate. }
    (* the rows of child1 *)
    assert (Stage1 : exists merged1,
      (if 0 <? length indices1 then
         X1 <- take_rows X indices1 ;;
         predictions1 <- _predict c1 X1 ;;
         m <- assign (_create_merged_predictions_array X)
                     indices1 predictions1 ;;
         Ok (Some m)
       else Ok None) = Ok merged1 /\
      (merged1 = None -> indices1 = []) /\
      let base := match merged1 with
                  | Some m => m
                  | None => _create_merged_predictions_array X
                  end in
      length base = shape0 X /\
      forall i x leaf,
        In i indices1 -> nth_error (rows X) i = Some x ->
        leaf_for c1 x = Some leaf ->
        exists po', posterior leaf = Some po' /\
                    nth_error base i = Some (_predict_leaf hooks po')).
    { destruct (0 <? length indices1) eqn:E1.
      - destruct (@child_merge c1 X indices1
                               (_create_merged_predictions_array X))
          as (m & Hm & Lm & _ & Hr);
          [intros X1 E; apply IH1; congruence | apply zeros_length
           | apply np_where_NoDup | exact Lt1 |].
        exists (Some m). split; [exact Hm|]. split; [discriminate|].
        split; [exact Lm | exact Hr].
      - exists None. split; [reflexivity|].
        apply length_zero_nil in E1. split; [auto|].
        split; [apply zeros_length|].
        intros i x leaf Hi. rewrite E1 in Hi. destruct Hi. }
    destruct Stage1 as (merged1 & -> & None1 & Lbase & R1).
    cbn [bind].
    destruct (0 <? length indices2) eqn:E2.
    + destruct (@child_merge c2 X indices2
                  (match merged1 with
                   | Some m => m
                   | None => _create_merged_predictions_array X
                   end))
        as (m & Hm & Lm & Ho2 & R2);
        [intros X2 E; apply IH2; congruence | exact Lbase
         | apply np_where_NoDup | exact Lt2 |].
      exists (Some m). split; [exact Hm|]. unfold routed_predictions.
      split; [exact Lm|].
      intros i x leaf Hx Hleaf. rewrite leaf_for_internal in Hleaf.
      destruct (F64.lt0 (signed_distance x normal origin)) eqn:T1.
      * rewrite (Ho2 i (Out2 _ _ Hx T1)).
        exact (R1 _ _ _ (In1 _ _ Hx T1) Hx Hleaf).
      * destruct (F64.ge0 (signed_distance x normal origin)) eqn:T2;
          [|discriminate].
        exact (R2 _ _ _ (In2 _ _ Hx T2) Hx Hleaf).
    + apply length_zero_nil in E2.
      exists merged1. split; [reflexivity|].
      destruct merged1 as [m1|]; unfold routed_predictions.
      * split; [exact Lbase|].
        intros i x leaf Hx Hleaf. rewrite leaf_for_internal in Hleaf.
        destruct (F64.lt0 (signed_distance x normal origin)) eqn:T1.
        -- exact (R1 _ _ _ (In1 _ _ Hx T1) Hx Hleaf).
        -- destruct (F64.ge0 (signed_distance x normal origin)) eqn:T2;
             [|discriminate].
           pose proof (In2 _ _ Hx T2) as Hin. rewrite E2 in Hin.
           destruct Hin.
      * intros x Hin. destruct (In_nth_error _ _ Hin) as (i & Hx).
        rewrite leaf_for_internal.
        destruct (F64.lt0 (signed_distance x normal origin)) eqn:T1.
        -- pose proof (In1 _ _ Hx T1) as Hin1.
           rewrite (None1 eq_refl) in Hin1. destruct Hin1.
        -- destruct (F64.ge0 (signed_distance x normal origin)) eqn:T2;
             [|reflexivity].
           pose proof (In2 _ _ Hx T2) as Hin2. rewrite E2 in Hin2.
           destruct Hin2.
Qed.

Lemma fitted_leaf_any_dim (d d' : nat) (t : Node) :
  fitted d t -> stores_no_split t = true -> fitted d' t.
Proof. destruct 1; simpl; [constructor | discriminate]. Qed.

Lemma fitted_internal_n_dim (d : nat) (t : Node) :
  fitted d t -> stores_no_split t = false -> n_dim t = Some d.
Proof. destruct 1; simpl; [discriminate | reflexivity]. Qed.

Lemma fitted_posterior (d : nat) (t : Node) :
  fitted d t -> exists po, posterior t = Some po.
Proof. destruct 1; simpl; eauto. Qed.

Lemma fitted_for_input (d : nat) (t : Node) (X : Matrix) :
  fitted d t -> n_dim t = Some (shape1 X) -> fitted (shape1 X) t.
Proof.
  intros F Hd. destruct (stores_no_split t) eqn:E.
  - exact (fitted_leaf_any_dim _ F E).
  - rewrite (fitted_internal_n_dim F E) in Hd. inversion Hd; subst.
    exact F.
Qed.

Lemma leaf_for_is_leaf (d : nat) (t : Node) (x : list float) :
  fitted d t ->
  forall leaf, leaf_for t x = Some leaf ->
               in_tree leaf t /\ is_leaf leaf = Ok true.
Proof.
  induction 1 as [pp pr lvl nd po
                 |pp pr lvl po c1 c2 normal origin Hn Ho F1 IH1 F2 IH2];
    intros leaf H.
  - inversion H; subst. split; [constructor | reflexivity].
  - rewrite leaf_for_internal in H.
    destruct (F64.lt0 _).
    + destruct (IH1 _ H) as [Ht Hl]. split; [|exact Hl].
      eapply in_tree_child1; [reflexivity | exact Ht].
    + destruct (F64.ge0 _); [|discriminate].
      destruct (IH2 _ H) as [Ht Hl]. split; [|exact Hl].
      eapply in_tree_child2; [reflexivity | exact Ht].
Qed.

Lemma leaf_for_total (d : nat) (t : Node) (x : list float) :
  fitted d t ->
  (forall n normal origin,
      in_tree n t ->
      best_hyperplane_normal n = Some normal ->
      best_hyperplane_origin n = Some origin ->
      F64.is_nan (signed_distance x normal origin) = false) ->
  exists leaf, leaf_for t x = Some leaf.
Proof.
  induction 1 as [pp pr lvl nd po
                 |pp pr lvl po c1 c2 normal origin Hn Ho F1 IH1 F2 IH2];
    intros Hnan.
  - eexists. reflexivity.
  - rewrite leaf_for_internal.
    assert (Here : F64.is_nan (signed_distance x normal origin) = false)
      by (eapply Hnan; [constructor | reflexivity | reflexivity]).
    destruct (not_nan_lt0_or_ge0 _ Here) as [T | T].
    + rewrite T. apply IH1. intros n no oo Hin. apply Hnan.
      eapply in_tree_child1; [reflexivity | exact Hin].
    + rewrite T. destruct (F64.lt0 _).
      * apply IH1. intros n no oo Hin. apply Hnan.
        eapply in_tree_child1; [reflexivity | exact Hin].
      * apply IH2. intros n no oo Hin. apply Hnan.
        eapply in_tree_child2; [reflexivity | exact Hin].
Qed.

Lemma opt_nat_eqb_true (o : option nat) (n : nat) :
  opt_nat_eqb o n = true <-> o = Some n.
Proof.
  destruct o as [m|]; simpl; [|split; discriminate].
  rewrite Nat.eqb_eq. split; [intros ->; reflexivity | intros [=]; auto].
Qed.

Lemma predict_fitted (d : nat) (t : Node) (X : Matrix) :
  fitted d t ->
  n_dim t = Some (shape1 X) ->
  exists predictions,
    predict t X = Ok predictions /\
    length predictions = shape0 X /\
    forall i x leaf,
      nth_error (rows X) i = Some x ->
      leaf_for t x = Some leaf ->
      exists po, posterior leaf = Some po /\
                 nth_error predictions i = Some (_predict_leaf hooks po).
Proof.
  intros F Hd. pose proof (fitted_for_input X F Hd) as FX.
  destruct (predict_rec_fitted FX X eq_refl) as (r & Hr & Q).
  destruct (fitted_posterior F) as (po & Hpo).
  unfold predict, _ensure_is_fitted. rewrite Hpo.
  rewrite (proj2 (opt_nat_eqb_true _ _) Hd). cbn [negb bind].
  rewrite Hr. cbn [bind].
  destruct r as [a|]; unfold routed_predictions in Q.
  - exists a. destruct Q as [La Qa]. auto.
  - eexists. split; [reflexivity|]. split; [apply zeros_length|].
    intros i x leaf Hx Hleaf. apply nth_error_In in Hx.
    rewrite (Q _ Hx) in Hleaf. discriminate.
Qed.

(** C4, amended.  On a trained tree and an input with [n_dim] columns,
    [predict] returns an array with one entry per input row, in the
    caller's row order: for every row that the tree routes to a leaf,
    the entry at the row's own position is what that leaf predicts,
    whichever way the rows were split across children and written back.
    A row is routed to a leaf whenever its signed distance to every
    hyperplane of the tree is a number; a row that meets a NaN distance
    is routed to no leaf and the claim says nothing about its entry. *)
Theorem predict_keeps_row_order (t : Node) (X : Matrix) :
  trained t ->
  n_dim t = Some (shape1 X) ->
  exists predictions,
    predict t X = Ok predictions /\
    length predictions = shape0 X /\
    (forall i x leaf,
        nth_error (rows X) i = Some x ->
        leaf_for t x = Some leaf ->
        in_tree leaf t /\ is_leaf leaf = Ok true /\
        exists v, predict_leaf_of hooks leaf = Ok v /\
                  nth_error predictions i = Some v) /\
    (forall x,
        (forall n normal origin,
            in_tree n t ->
            best_hyperplane_normal n = Some normal ->
            best_hyperplane_origin n = Some origin ->
            F64.is_nan (signed_distance x normal origin) = false) ->
        exists leaf, leaf_for t x = Some leaf).
Proof.
  intros Ht Hd. destruct (trained_fitted Ht) as [d F].
  destruct (predict_fitted X F Hd) as (a & Ha & La & Qa).
  exists a. split; [exact Ha|]. split; [exact La|]. split.
  - intros i x leaf Hx Hleaf.
    destruct (@leaf_for_is_leaf d t x F leaf Hleaf) as [Hin Hl].
    split; [exact Hin|]. split; [exact Hl|].
    destruct (Qa _ _ _ Hx Hleaf) as (po & Hpo & Hn).
    exists (_predict_leaf hooks po). split; [|exact Hn].
    unfold predict_leaf_of. rewrite Hpo. reflexivity.
  - intros x. apply (@leaf_for_total d t x F).
Qed.

(** C9.  On a node that is unfitted (no posterior) or trained,
    [predict] raises a ValueError exactly when the posterior is absent
    or the column count of the input differs from [n_dim].  The first
    error carries the untrained-model message; the second names the
    expected [n_dim] and the actual column count.  In every other case
    [predict] returns an array.  [predict] assigns no attribute, so the
    node after the call is the node before it. *)
Theorem predict_value_errors (self : Node) (X : Matrix) :
  posterior self = None \/ trained self ->
  ((exists msg, predict self X = Raise (ValueError msg))
   <-> posterior self = None \/ n_dim self <> Some (shape1 X)) /\
  (posterior self = None ->
   predict self X = Raise (ValueError untrained_msg)) /\
  (posterior self <> None -> n_dim self <> Some (shape1 X) ->
   predict self X
   = Raise (ValueError ("Bad input dimensions: Expected "
                          ++ format_opt_nat (n_dim self) ++ ", got "
                          ++ format_nat (shape1 X)))) /\
  (posterior self <> None -> n_dim self = Some (shape1 X) ->
   exists a, predict self X = Ok a /\ length a = shape0 X) /\
  fst (predict_call hooks self X) = self.
Proof.
  intros Hstate.
  assert (Unfit : posterior self = None ->
                  predict self X = Raise (ValueError untrained_msg)).
  { intros H. unfold predict, _ensure_is_fitted. rewrite H. reflexivity. }
  assert (Bad : posterior self <> None -> n_dim self <> Some (shape1 X) ->
                predict self X
                = Raise (ValueError (bad_dims_msg (n_dim self) (shape1 X)))).
  { intros Hp Hd. unfold predict, _ensure_is_fitted.
    destruct (posterior self); [|congruence].
    destruct (opt_nat_eqb (n_dim self) (shape1 X)) eqn:E; [|reflexivity].
    apply opt_nat_eqb_true in E. contradiction. }
  assert (Good : posterior self <> None -> n_dim self = Some (shape1 X) ->
                 exists a, predict self X = Ok a /\ length a = shape0 X).
  { intros Hp Hd. destruct Hstate as [Hn | Ht]; [contradiction|].
    destruct (trained_fitted Ht) as [d F].
    destruct (predict_fitted X F Hd) as (a & Ha & La & _). eauto. }
  split; [|split; [exact Unfit | split; [exact Bad | split;
                                          [exact Good | reflexivity]]]].
  split.
  - intros (msg & Hmsg).
    destruct (posterior self) eqn:Hp; [|left; reflexivity]. right.
    intros Hd. destruct Good as (a & Ha & _); [congruence | exact Hd |].
    congruence.
  - intros [Hn | Hd].
    + eexists. exact (Unfit Hn).
    + destruct (posterior self) eqn:Hp.
      * eexists. apply Bad; [congruence | exact Hd].
      * eexists. apply Unfit. reflexivity.
Qed.

(** ** The fuel is only a device *)

Lemma prune_pass_mono (rec1 rec2 : Node -> result Node) (self s : Node) :
  (forall x r, rec1 x = Ok r -> rec2 x = Ok r) ->
  prune_pass hooks rec1 self = Ok s -> prune_pass hooks rec2 self = Ok s.
Proof.
  intros Hrec. unfold prune_pass.
  destruct (child1 self) as [c1|]; [|discriminate].
  destruct (is_leaf c1) as [leaf1| |]; try discriminate. cbn [bind].
  match goal with
  | |- bind ?e _ = _ -> _ => destruct e as [both| |]; try discriminate
  end.
  cbn [bind]. destruct both; [auto|].
  destruct (rec1 c1) as [c1'| |] eqn:E1; try discriminate.
  rewrite (Hrec _ _ E1). cbn [bind].
  destruct (child2 self) as [c2|]; [|discriminate].
  destruct (rec1 c2) as [c2'| |] eqn:E2; try discriminate.
  rewrite (Hrec _ _ E2). auto.
Qed.

Lemma prune_rec_fuel_mono (fuel : nat) :
  forall (t t' : Node) fuel',
    _prune_rec fuel t = Ok t' -> fuel <= fuel' -> _prune_rec fuel' t = Ok t'.
Proof.
  induction fuel as [|fuel IH]; intros t t' fuel' H Hle; [discriminate|].
  destruct fuel' as [|fuel']; [lia|].
  rewrite prune_rec_S in *. unfold prune_step in *.
  destruct (depth_and_leaves t) as [start| |]; try discriminate.
  cbn [bind] in *.
  destruct (is_leaf t) as [leaf| |]; try discriminate.
  cbn [bind] in *. destruct leaf; [exact H|].
  destruct (prune_pass hooks (_prune_rec fuel) t) as [s| |] eqn:Ep;
    try discriminate.
  rewrite (@prune_pass_mono (_prune_rec fuel) (_prune_rec fuel') t s);
    [|intros x r Hx; apply (IH _ _ _ Hx); lia | exact Ep].
  cbn [bind] in *.
  destruct (depth_and_leaves s) as [e| |]; try discriminate.
  cbn [bind] in *.
  destruct (negb _); [apply (IH _ _ _ H); lia | exact H].
Qed.

(** On a fitted tree a recursive call of [_prune_rec] with enough fuel is
    a call of [_prune]. *)
Lemma prune_rec_is_prune (d : nat) (fuel : nat) (t : Node) :
  fitted d t -> nodes t <= fuel -> _prune_rec fuel t = _prune t.
Proof.
  intros F Hle. unfold _prune.
  destruct (@prune_rec_total d (nodes t) t F (le_n _)) as (t' & H).
  rewrite H. exact (@prune_rec_fuel_mono _ _ _ _ H Hle).
Qed.

(** Pruning a trained tree never adds a leaf. *)
Lemma prune_never_adds_leaves (t t' : Node) :
  trained t -> _prune t = Ok t' -> nleaves t' <= nleaves t.
Proof.
  intros Ht H. destruct (trained_fitted Ht) as [d F].
  exact (proj1 (proj2 (@prune_rec_shrinks _ _ _ _ F H))).
Qed.

End Facts.

(** * Further facts about the tree engine *)

Section MoreFacts.

Variables Params Label : Type.
Variable hooks : ModelHooks Params Label.
Variable optimizer : Optimizer Params Label.
Variable format_float : float -> string.

Local Abbreviation Node := (Node Params).
Local Abbreviation _fit_rec := (_fit_rec hooks optimizer).
Local Abbreviation _fit := (_fit hooks optimizer).
Local Abbreviation _prune_rec := (_prune_rec hooks).
Local Abbreviation _prune := (_prune hooks).
Local Abbreviation fit := (fit hooks optimizer format_float).
Local Abbreviation predict := (predict hooks).
Local Abbreviation _predict := (_predict hooks).
Local Abbreviation trained := (trained hooks optimizer format_float).
Local Abbreviation prunes_to := (prunes_to hooks).
Local Abbreviation fully_pruned := (fully_pruned hooks).
Local Abbreviation collapsible := (collapsible hooks).
Local Abbreviation coherent := (coherent hooks).
Local Abbreviation own_prediction := (own_prediction hooks).

(** ** What pruning does to a tree *)

Lemma prunes_to_root (t t' : Node) :
  prunes_to t t' ->
  posterior t' = posterior t /\ prior t' = prior t /\ level t' = level t /\
  n_dim t' = n_dim t /\ partition_prior t' = partition_prior t.
Proof. destruct 1; simpl; auto. Qed.

Lemma prunes_to_trans (a b : Node) :
  prunes_to a b -> forall c, prunes_to b c -> prunes_to a c.
Proof.
  induction 1 as [t
                 |pp pr lvl nd po c1 c2 c1' c2' bn bo H1 IH1 H2 IH2
                 |pp pr lvl nd po c1 c2 c1' c2' bn bo p1 p2 H1 IH1 H2 IH2
                    L1 L2 P1 P2 E];
    intros c Hbc.
  - exact Hbc.
  - inversion Hbc; subst.
    + apply prunes_children; assumption.
    + apply prunes_children; auto.
    + eapply prunes_collapse;
        [apply IH1; eassumption | apply IH2; eassumption | eassumption..].
  - inversion Hbc; subst. eapply prunes_collapse; eassumption.
Qed.

Lemma prune_rec_prunes_to (d : nat) (fuel : nat) :
  forall t t' : Node,
    fitted d t -> _prune_rec fuel t = Ok t' -> prunes_to t t'.
Proof.
  induction fuel as [|fuel IH]; intros t t' F H; [discriminate|].
  rewrite prune_rec_S in H. unfold prune_step in H.
  rewrite (depth_and_leaves_fitted F), (fitted_is_leaf F) in H.
  simpl in H.
  destruct F as [pp pr lvl nd po
                |pp pr lvl po c1 c2 normal origin Hn Ho F1 F2].
  { simpl in H. inversion H; subst. constructor. }
  simpl stores_no_split in H. cbv iota in H.
  rewrite (@prune_pass_internal _ _ hooks _ d _ _ _ _ _ c1 c2 _ _ F1 F2) in H.
  set (self := mkNode pp pr lvl (Some d) (Some po) (Some c1)
                      (Some c2) (Some normal) (Some origin)) in *.
  apply bind_ok in H. destruct H as (self' & Hpass & H).
  assert (Step : prunes_to self self' /\ fitted d self').
  { destruct (stores_no_split c1 && stores_no_split c2) eqn:Eboth.
    - apply andb_true_iff in Eboth. destruct Eboth as [E1 E2].
      apply bind_ok in Hpass. destruct Hpass as (p1 & Hp1 & Hpass).
      apply bind_ok in Hpass. destruct Hpass as (p2 & Hp2 & Hpass).
      destruct (F64.eqb p1 p2) eqn:Eeq; inversion Hpass; subst self'.
      + split; [|unfold self, collapse; simpl; constructor].
        unfold self, collapse; simpl.
        eapply prunes_collapse;
          [apply prunes_same | apply prunes_same | | | exact Hp1 | exact Hp2
           | exact Eeq].
        * rewrite (fitted_is_leaf F1), E1. reflexivity.
        * rewrite (fitted_is_leaf F2), E2. reflexivity.
      + split; [constructor | constructor; auto].
    - apply bind_ok in Hpass. destruct Hpass as (c1' & Hc1 & Hpass).
      apply bind_ok in Hpass. destruct Hpass as (c2' & Hc2 & Hpass).
      inversion Hpass; subst self'. unfold self; simpl. split.
      + apply prunes_children; [exact (IH _ _ F1 Hc1) | exact (IH _ _ F2 Hc2)].
      + constructor; auto.
        * exact (proj1 (@prune_rec_shrinks _ _ _ _ _ _ _ F1 Hc1)).
        * exact (proj1 (@prune_rec_shrinks _ _ _ _ _ _ _ F2 Hc2)). }
  destruct Step as [Hstep Fself'].
  apply bind_ok in H. destruct H as (e & _ & H).
  destruct (negb _).
  - exact (prunes_to_trans Hstep (IH _ _ Fself' H)).
  - inversion H; subst. exact Hstep.
Qed.

(** X5.  Pruning only collapses.  On a trained tree [_prune] returns the tree
    with some subtrees collapsed: every surviving node keeps all its
    attributes, and a node loses its children and its hyperplane only
    where its two children, after their own pruning, are leaves with
    [==]-equal predictions.  The root keeps its posterior, prior, level,
    [n_dim] and partition prior, and its hyperplane is either the one it
    had or gone together with both children. *)
Theorem prune_only_collapses (t t' : Node) :
  trained t ->
  _prune t = Ok t' ->
  prunes_to t t' /\
  posterior t' = posterior t /\ prior t' = prior t /\ level t' = level t /\
  n_dim t' = n_dim t /\ partition_prior t' = partition_prior t /\
  ((best_hyperplane_normal t' = best_hyperplane_normal t /\
    best_hyperplane_origin t' = best_hyperplane_origin t)
   \/ (best_hyperplane_normal t' = None /\ best_hyperplane_origin t' = None /\
       child1 t' = None /\ child2 t' = None)).
Proof.
  intros Ht H. destruct (trained_fitted Ht) as [d F].
  pose proof (@prune_rec_prunes_to d _ _ _ F H) as P.
  split; [exact P|].
  destruct (prunes_to_root P) as (H1 & H2 & H3 & H4 & H5).
  repeat (split; [assumption|]).
  destruct P; simpl; auto.
Qed.

Lemma nleaves_internal pp pr lvl nd po (c1 c2 : Node) normal bo :
  nleaves (mkNode pp pr lvl nd po (Some c1) (Some c2) (Some normal) bo)
  = nleaves c1 + nleaves c2.
Proof. unfold nleaves. simpl. apply length_app. Qed.

Lemma no_split_is_leaf (d : nat) (t : Node) :
  fitted d t -> (is_leaf t = Ok true <-> stores_no_split t = true).
Proof.
  intros F. rewrite (fitted_is_leaf F). split; [intros [=]; auto | intros ->; auto].
Qed.

Lemma not_collapsible_when_different (c1 c2 : Node) (p1 p2 : float) :
  predict_leaf_of hooks c1 = Ok p1 ->
  predict_leaf_of hooks c2 = Ok p2 ->
  F64.eqb p1 p2 = false ->
  ~ collapsible c1 c2.
Proof.
  intros H1 H2 E (_ & _ & q1 & q2 & Q1 & Q2 & Eq).
  rewrite H1 in Q1. rewrite H2 in Q2.
  inversion Q1; inversion Q2; subst. congruence.
Qed.

(** A tree that [_prune_rec] returns as it is has nothing to collapse. *)
Lemma fixpoint_fully_pruned (d : nat) (t : Node) :
  fitted d t ->
  forall fuel, _prune_rec fuel t = Ok t -> fully_pruned t.
Proof.
  induction 1 as [pp pr lvl nd po
                 |pp pr lvl po c1 c2 normal origin Hn Ho F1 IH1 F2 IH2];
    intros fuel H.
  { apply fully_pruned_leaf. reflexivity. }
  destruct fuel as [|fuel]; [discriminate|].
  set (self := mkNode pp pr lvl (Some d) (Some po) (Some c1)
                      (Some c2) (Some normal) (Some origin)) in *.
  assert (Fself : fitted d self) by (constructor; auto).
  pose proof (nleaves_internal pp pr lvl (Some d) (Some po) c1 c2 normal
                               (Some origin)) as Nself.
  fold self in Nself.
  pose proof (nleaves_pos F1) as Pos1. pose proof (nleaves_pos F2) as Pos2.
  rewrite prune_rec_S in H. unfold prune_step in H.
  rewrite (depth_and_leaves_fitted Fself), (fitted_is_leaf Fself) in H.
  cbn [bind] in H. change (stores_no_split self) with false in H.
  cbv iota in H. unfold self at 1 in H.
  rewrite (@prune_pass_internal _ _ hooks _ d _ _ _ _ _ c1 c2 _ _ F1 F2) in H.
  fold self in H.
  apply bind_ok in H. destruct H as (self' & Hpass & H).
  apply bind_ok in H. destruct H as (e & _ & H).
  destruct (stores_no_split c1 && stores_no_split c2) eqn:Eboth.
  - apply andb_true_iff in Eboth. destruct Eboth as [E1 E2].
    apply bind_ok in Hpass. destruct Hpass as (p1 & Hp1 & Hpass).
    apply bind_ok in Hpass. destruct Hpass as (p2 & Hp2 & Hpass).
    destruct (F64.eqb p1 p2) eqn:Eeq; inversion Hpass; subst self'.
    + exfalso.
      assert (Fc : fitted d (collapse self))
        by (unfold self, collapse; simpl; constructor).
      destruct (negb _).
      * destruct (@prune_rec_shrinks _ _ hooks d fuel _ _ Fc H)
          as (_ & Hle & _).
        unfold nleaves at 2 in Hle. simpl in Hle. lia.
      * inversion H.
    + eapply fully_pruned_node; [reflexivity | reflexivity | | | ].
      * apply fully_pruned_leaf. destruct F1; [reflexivity | discriminate].
      * apply fully_pruned_leaf. destruct F2; [reflexivity | discriminate].
      * exact (not_collapsible_when_different Hp1 Hp2 Eeq).
  - apply bind_ok in Hpass. destruct Hpass as (c1' & Hc1 & Hpass).
    apply bind_ok in Hpass. destruct Hpass as (c2' & Hc2 & Hpass).
    inversion Hpass; subst self'; clear Hpass.
    destruct (@prune_rec_shrinks _ _ hooks d fuel _ _ F1 Hc1)
      as (F1' & L1 & Q1).
    destruct (@prune_rec_shrinks _ _ hooks d fuel _ _ F2 Hc2)
      as (F2' & L2 & Q2).
    assert (Same : c1' = c1 /\ c2' = c2).
    { destruct (negb _).
      - assert (Fs : fitted d (set_child2 (set_child1 self (Some c1'))
                                          (Some c2')))
          by (unfold self; simpl; constructor; auto).
        destruct (@prune_rec_shrinks _ _ hooks d fuel _ _ Fs H)
          as (_ & Hle & _).
        assert (Ns : nleaves (set_child2 (set_child1 self (Some c1'))
                                         (Some c2'))
                     = nleaves c1' + nleaves c2')
          by (unfold self; apply nleaves_internal).
        split; [apply Q1 | apply Q2]; lia.
      - unfold self in H. simpl in H. inversion H; subst. auto. }
    destruct Same; subst c1' c2'.
    eapply fully_pruned_node; [reflexivity | reflexivity | | | ].
    + exact (IH1 _ Hc1).
    + exact (IH2 _ Hc2).
    + intros (L1' & L2' & _).
      apply (no_split_is_leaf F1) in L1'. apply (no_split_is_leaf F2) in L2'.
      rewrite L1', L2' in Eboth. discriminate.
Qed.

(** A tree with nothing to collapse is returned as it is. *)
Lemma fully_pruned_fixpoint (d : nat) (t : Node) :
  fitted d t ->
  fully_pruned t ->
  forall fuel, nodes t <= fuel -> _prune_rec fuel t = Ok t.
Proof.
  induction 1 as [pp pr lvl nd po
                 |pp pr lvl po c1 c2 normal origin Hn Ho F1 IH1 F2 IH2];
    intros FP fuel Hfuel.
  { destruct fuel; [simpl in Hfuel; lia | reflexivity]. }
  inversion FP as [t0 Hnone | t0 k1 k2 Hk1 Hk2 FP1 FP2 NC]; subst;
    [discriminate|].
  simpl in Hk1, Hk2. inversion Hk1; inversion Hk2; subst k1 k2.
  destruct fuel as [|fuel]; [simpl in Hfuel; lia|].
  set (self := mkNode pp pr lvl (Some (length normal)) (Some po) (Some c1)
                      (Some c2) (Some normal) (Some origin)) in *.
  assert (Fself : fitted (length normal) self) by (constructor; auto).
  assert (Hnodes : nodes self = S (nodes c1 + nodes c2)) by reflexivity.
  rewrite prune_rec_S. unfold prune_step.
  rewrite (depth_and_leaves_fitted Fself), (fitted_is_leaf Fself).
  cbn [bind]. change (stores_no_split self) with false. cbv iota.
  unfold self at 1.
  rewrite (@prune_pass_internal _ _ hooks _ (length normal) _ _ _ _ _ c1 c2
                                _ _ F1 F2).
  fold self.
  destruct (stores_no_split c1 && stores_no_split c2) eqn:Eboth.
  - apply andb_true_iff in Eboth. destruct Eboth as [E1 E2].
    destruct (fitted_predict_leaf_of hooks F1) as (p1 & Hp1).
    destruct (fitted_predict_leaf_of hooks F2) as (p2 & Hp2).
    rewrite Hp1, Hp2. cbn [bind].
    destruct (F64.eqb p1 p2) eqn:Eeq.
    + exfalso. apply NC. split; [apply (no_split_is_leaf F1); exact E1|].
      split; [apply (no_split_is_leaf F2); exact E2|]. eauto.
    + cbn [bind]. rewrite (depth_and_leaves_fitted Fself). cbn [bind].
      rewrite pair_eqb_refl. reflexivity.
  - rewrite (IH1 FP1 fuel) by lia. rewrite (IH2 FP2 fuel) by lia.
    cbn [bind].
    change (set_child2 (set_child1 self (Some c1)) (Some c2)) with self.
    rewrite (depth_and_leaves_fitted Fself). cbn [bind].
    rewrite pair_eqb_refl. reflexivity.
Qed.

(** X6.  Pruning is complete.  On a trained tree [_prune] returns a tree in
    which no node is left whose two children are leaves with [==]-equal
    predictions; and [_prune] hands back a trained tree unchanged exactly
    when the tree already is of that kind. *)
Theorem prune_leaves_nothing_to_collapse (t : Node) :
  trained t ->
  (exists t', _prune t = Ok t' /\ fully_pruned t') /\
  (_prune t = Ok t <-> fully_pruned t).
Proof.
  intros Ht. destruct (trained_fitted Ht) as [d F]. split.
  - destruct (@prune_rec_total _ _ hooks d (nodes t) t F (le_n _)) as (t' & H).
    exists t'. split; [exact H|].
    pose proof (proj1 (@prune_rec_shrinks _ _ hooks d _ _ _ F H)) as F'.
    apply (fixpoint_fully_pruned F' (nodes t')).
    exact (@prune_rec_fixpoint _ _ hooks d _ _ _ F H _ (le_n _)).
  - split.
    + intros H. exact (fixpoint_fully_pruned F _ H).
    + intros FP. exact (fully_pruned_fixpoint F FP (le_n _)).
Qed.

(** ** Levels and partition priors *)

Lemma fit_rec_leveled (fuel : nat) :
  forall (self : Node) X y delta t,
    blank self ->
    _fit_rec fuel self X y delta = Ok t ->
    leveled t.
Proof.
  induction fuel as [|fuel IH]; intros self X y delta t Hb H;
    [discriminate|].
  destruct self as [pp pr lvl nd po ch1 ch2 bn bo].
  destruct Hb as (? & ? & ? & ?); simpl in *; subst.
  apply bind_ok in H. destruct H as (self' & Hs & H).
  inversion H; subst; clear H.
  destruct (solve optimizer pp pr X y) as [[normal origin]|];
    [|inversion Hs; subst; apply leveled_leaf; reflexivity].
  apply bind_ok in Hs. destruct Hs as (ps & Hps & Hs).
  destruct ((0 <? length (np_where F64.lt0 ps))
            && (0 <? length (np_where F64.ge0 ps)));
    [|inversion Hs; subst; apply leveled_leaf; reflexivity].
  apply bind_ok in Hs. destruct Hs as (X1 & HX1 & Hs).
  apply bind_ok in Hs. destruct Hs as (X2 & HX2 & Hs).
  apply bind_ok in Hs. destruct Hs as (y1 & Hy1 & Hs).
  apply bind_ok in Hs. destruct Hs as (y2 & Hy2 & Hs).
  apply bind_ok in Hs. destruct Hs as (c1 & Hc1 & Hs).
  apply bind_ok in Hs. destruct Hs as (c2 & Hc2 & Hs).
  inversion Hs; subst; clear Hs. simpl.
  assert (K1 : level c1 = lvl + 1 /\ partition_prior c1 = pp /\ leveled c1).
  { destruct (1 <? shape0 X1).
    - destruct (fit_rec_keeps_params hooks optimizer _ _ _ _ _ Hc1)
        as (_ & Hl & Hp).
      split; [exact Hl|]. split; [exact Hp|].
      eapply IH; [|exact Hc1]. repeat split.
    - inversion Hc1; subst. simpl. repeat split.
      apply leveled_leaf; reflexivity. }
  assert (K2 : level c2 = lvl + 1 /\ partition_prior c2 = pp /\ leveled c2).
  { destruct (1 <? shape0 X2).
    - destruct (fit_rec_keeps_params hooks optimizer _ _ _ _ _ Hc2)
        as (_ & Hl & Hp).
      split; [exact Hl|]. split; [exact Hp|].
      eapply IH; [|exact Hc2]. repeat split.
    - inversion Hc2; subst. simpl. repeat split.
      apply leveled_leaf; reflexivity. }
  destruct K1 as (? & ? & ?), K2 as (? & ? & ?).
  eapply leveled_node; try reflexivity; assumption.
Qed.

Lemma prunes_to_leveled (t t' : Node) :
  prunes_to t t' -> leveled t -> leveled t'.
Proof.
  induction 1 as [t
                 |pp pr lvl nd po c1 c2 c1' c2' bn bo H1 IH1 H2 IH2
                 |pp pr lvl nd po c1 c2 c1' c2' bn bo p1 p2 H1 IH1 H2 IH2
                    L1 L2 P1 P2 E];
    intros Lv.
  - exact Lv.
  - inversion Lv as [t0 N1 N2 | t0 k1 k2 Hk1 Hk2 Hl1 Hl2 Hp1 Hp2 Lv1 Lv2];
      subst; simpl in *; [discriminate|].
    inversion Hk1; inversion Hk2; subst k1 k2.
    destruct (prunes_to_root H1) as (_ & _ & E1 & _ & E1').
    destruct (prunes_to_root H2) as (_ & _ & E2 & _ & E2').
    eapply leveled_node; try reflexivity; simpl; auto; congruence.
  - apply leveled_leaf; reflexivity.
Qed.

Lemma trained_leveled (t : Node) : trained t -> leveled t.
Proof.
  induction 1 as [pp pr lvl X y delta prune t H
                 |t t' Ht Lv H
                 |t c _ Lv H
                 |t c _ Lv H].
  - unfold fit in H.
    apply bind_ok in H. destruct H as (_ & _ & H).
    destruct (_ || _); [discriminate|].
    apply bind_ok in H. destruct H as (s & Hs & H).
    assert (Ls : leveled s)
      by (eapply fit_rec_leveled; [|exact Hs]; repeat split).
    destruct prune; [|inversion H; subst; exact Ls].
    assert (Fs : fitted (shape1 X) s)
      by (eapply fit_rec_fitted; [|exact Hs]; repeat split).
    exact (prunes_to_leveled (@prune_rec_prunes_to _ _ _ _ Fs H) Ls).
  - destruct (trained_fitted Ht) as [d F].
    exact (prunes_to_leveled (@prune_rec_prunes_to _ _ _ _ F H) Lv).
  - inversion Lv; subst; [congruence|].
    assert (c = c1) by congruence. subst. assumption.
  - inversion Lv; subst; [congruence|].
    assert (c = c2) by congruence. subst. assumption.
Qed.

Lemma fit_keeps_params pp pr lvl X y delta prune (t : Node) :
  fit (new_node pp pr lvl) X y delta prune = Ok t ->
  level t = lvl /\ partition_prior t = pp /\ prior t = pr /\
  n_dim t = Some (shape1 X) /\
  posterior t = Some (_compute_posterior hooks pr y F64.one).
Proof.
  unfold fit. intros H.
  apply bind_ok in H. destruct H as (_ & _ & H).
  destruct (_ || _); [discriminate|].
  apply bind_ok in H. destruct H as (s & Hs & H).
  assert (Ks : level s = lvl /\ partition_prior s = pp /\ prior s = pr /\
               n_dim s = Some (shape1 X) /\
               posterior s = Some (_compute_posterior hooks pr y F64.one)).
  { destruct (fit_rec_keeps_params hooks optimizer _ _ _ _ _ Hs)
      as (Hp & Hl & Hpp).
    unfold _fit in Hs. simpl in Hs.
    apply bind_ok in Hs. destruct Hs as (s' & _ & Hs).
    inversion Hs; subst. simpl in *. auto. }
  destruct prune; [|inversion H; subst; exact Ks].
  assert (Fs : fitted (shape1 X) s)
    by (eapply fit_rec_fitted; [|exact Hs]; repeat split).
  destruct (prunes_to_root (@prune_rec_prunes_to _ _ _ _ Fs H))
    as (E1 & E2 & E3 & E4 & E5).
  destruct Ks as (K1 & K2 & K3 & K4 & K5).
  repeat split; congruence.
Qed.

(** X2.  Levels and partition priors.  [fit] on a freshly constructed node
    keeps the node's level, partition prior and prior; and in a trained
    tree every child is one level below its parent and carries its
    parent's partition prior. *)
Theorem children_are_one_level_down :
  (forall pp pr lvl X y delta prune (t : Node),
      fit (new_node pp pr lvl) X y delta prune = Ok t ->
      level t = lvl /\ partition_prior t = pp /\ prior t = pr) /\
  (forall t c : Node,
      trained t ->
      child1 t = Some c \/ child2 t = Some c ->
      level c = level t + 1 /\ partition_prior c = partition_prior t).
Proof.
  split.
  - intros pp pr lvl X y delta prune t H.
    destruct (fit_keeps_params _ _ _ _ _ _ _ H) as (H1 & H2 & H3 & _).
    auto.
  - intros t c Ht Hc. pose proof (trained_leveled Ht) as Lv.
    inversion Lv; subst; [destruct Hc; congruence|].
    destruct Hc as [Hc | Hc].
    + assert (c = c1) by congruence. subst. auto.
    + assert (c = c2) by congruence. subst. auto.
Qed.

(** ** Size of the tree *)

Lemma leaves_level_bounds (d : nat) (t : Node) :
  fitted d t ->
  leveled t ->
  forall leaf, In leaf (leaves_of t) ->
               level t <= level leaf /\ level leaf + 1 <= level t + nleaves t.
Proof.
  induction 1 as [pp pr lvl nd po
                 |pp pr lvl po c1 c2 normal origin Hn Ho F1 IH1 F2 IH2];
    intros Lv leaf Hin.
  - simpl in Hin. destruct Hin as [<- | []]. unfold nleaves. simpl. lia.
  - inversion Lv as [t0 N1 N2 | t0 k1 k2 Hk1 Hk2 Hl1 Hl2 Hp1 Hp2 Lv1 Lv2];
      subst; simpl in *; [discriminate|].
    inversion Hk1; inversion Hk2; subst k1 k2.
    rewrite nleaves_internal.
    pose proof (nleaves_pos F1). pose proof (nleaves_pos F2).
    apply in_app_or in Hin. destruct Hin as [Hin | Hin].
    + destruct (IH1 Lv1 _ Hin). lia.
    + destruct (IH2 Lv2 _ Hin). lia.
Qed.

Lemma fit_rec_nleaves (fuel : nat) :
  forall (self : Node) X y delta t,
    blank self ->
    _fit_rec fuel self X y delta = Ok t ->
    nleaves t <= Nat.max 1 (shape0 X).
Proof.
  induction fuel as [|fuel IH]; intros self X y delta t Hb H;
    [discriminate|].
  destruct self as [pp pr lvl nd po ch1 ch2 bn bo].
  destruct Hb as (Hb1 & Hb2 & Hb3 & Hb4); simpl in Hb1, Hb2, Hb3, Hb4; subst.
  simpl in H.
  apply bind_ok in H. destruct H as (self' & Hs & H).
  inversion H; subst; clear H.
  destruct (solve optimizer pp pr X y) as [[normal origin]|];
    [|inversion Hs; subst;
     apply Nat.le_trans with 1; [apply le_n | lia]].
  apply bind_ok in Hs. destruct Hs as (ps & Hps & Hs).
  destruct (projections_spec _ _ _ Hps) as (_ & _ & Hlen & _).
  pose proof (where_from_split_length ps 0) as Hsplit.
  fold (np_where F64.lt0 ps) in Hsplit. fold (np_where F64.ge0 ps) in Hsplit.
  destruct (0 <? length (np_where F64.lt0 ps)) eqn:G1;
    [|inversion Hs; subst;
     apply Nat.le_trans with 1; [apply le_n | lia]].
  destruct (0 <? length (np_where F64.ge0 ps)) eqn:G2;
    [|inversion Hs; subst;
     apply Nat.le_trans with 1; [apply le_n | lia]].
  apply Nat.ltb_lt in G1, G2. simpl in Hs.
  apply bind_ok in Hs. destruct Hs as (X1 & HX1 & Hs).
  apply bind_ok in Hs. destruct Hs as (X2 & HX2 & Hs).
  apply bind_ok in Hs. destruct Hs as (y1 & Hy1 & Hs).
  apply bind_ok in Hs. destruct Hs as (y2 & Hy2 & Hs).
  apply bind_ok in Hs. destruct Hs as (c1 & Hc1 & Hs).
  apply bind_ok in Hs. destruct Hs as (c2 & Hc2 & Hs).
  inversion Hs; subst; clear Hs.
  unfold set_posterior, set_n_dim, set_child2, set_child1, set_hyperplane.
  cbn [partition_prior prior level n_dim posterior child1 child2
       best_hyperplane_normal best_hyperplane_origin].
  destruct (take_rows_spec _ _ HX1) as (_ & L1 & _).
  destruct (take_rows_spec _ _ HX2) as (_ & L2 & _).
  assert (N1 : nleaves c1 <= shape0 X1).
  { destruct (1 <? shape0 X1) eqn:E.
    - apply Nat.ltb_lt in E.
      assert (nleaves c1 <= Nat.max 1 (shape0 X1))
        by (eapply IH; [|exact Hc1]; repeat split).
      lia.
    - inversion Hc1; subst. unfold nleaves. simpl. lia. }
  assert (N2 : nleaves c2 <= shape0 X2).
  { destruct (1 <? shape0 X2) eqn:E.
    - apply Nat.ltb_lt in E.
      assert (nleaves c2 <= Nat.max 1 (shape0 X2))
        by (eapply IH; [|exact Hc2]; repeat split).
      lia.
    - inversion Hc2; subst. unfold nleaves. simpl. lia. }
  rewrite nleaves_internal. lia.
Qed.

(** X3.  The size of a fitted tree.  After [fit] on a freshly constructed
    node [depth_and_leaves] returns; the tree has at least one leaf and at
    most as many leaves as the data has rows (one leaf for empty data);
    its depth is at least the root's level and grows by less than the
    number of leaves; and data of at most one row gives a single leaf. *)
Theorem fitted_tree_is_no_larger_than_the_data
    pp pr lvl X y delta prune (t : Node) :
  fit (new_node pp pr lvl) X y delta prune = Ok t ->
  exists depth leaves,
    depth_and_leaves t = Ok (depth, leaves) /\
    1 <= leaves /\ leaves <= Nat.max 1 (shape0 X) /\
    lvl <= depth /\ depth + 1 <= lvl + leaves /\
    (shape0 X <= 1 -> is_leaf t = Ok true).
Proof.
  intros H.
  pose proof (@trained_fit _ _ hooks optimizer format_float _ _ _ _ _ _ _ _ H)
    as Ht.
  pose proof (fit_fitted _ _ _ _ _ _ _ _ _ _ H) as F.
  pose proof (trained_leveled Ht) as Lv.
  destruct (fit_keeps_params _ _ _ _ _ _ _ H) as (Hl & _).
  assert (Hn : nleaves t <= Nat.max 1 (shape0 X)).
  { unfold fit in H.
    apply bind_ok in H. destruct H as (_ & _ & H).
    destruct (_ || _); [discriminate|].
    apply bind_ok in H. destruct H as (s & Hs & H).
    assert (Ns : nleaves s <= Nat.max 1 (shape0 X))
      by (eapply fit_rec_nleaves; [|exact Hs]; repeat split).
    destruct prune; [|inversion H; subst; exact Ns].
    assert (Fs : fitted (shape1 X) s)
      by (eapply fit_rec_fitted; [|exact Hs]; repeat split).
    destruct (@prune_rec_shrinks _ _ hooks _ _ _ _ Fs H) as (_ & Hle & _).
    lia. }
  pose proof (nleaves_pos F) as Hpos.
  exists (fold_left Nat.max (map (@level Params) (leaves_of t)) 0),
         (nleaves t).
  split; [exact (depth_and_leaves_fitted F)|].
  split; [lia|]. split; [exact Hn|].
  assert (Hne : map (@level Params) (leaves_of t) <> []).
  { intros E. apply map_eq_nil in E. exact (leaves_of_nonempty F E). }
  apply fold_max_attained in Hne. apply in_map_iff in Hne.
  destruct Hne as (leaf & Hlv & Hin).
  destruct (leaves_level_bounds F Lv _ Hin) as [B1 B2].
  split; [lia|]. split; [lia|].
  intros Hrows. rewrite (fitted_is_leaf F). f_equal.
  destruct F; [reflexivity|]. exfalso.
  rewrite nleaves_internal in Hn.
  pose proof (nleaves_pos F1). pose proof (nleaves_pos F2). lia.
Qed.

(** ** Pruning shrinks the tree *)

Lemma fold_max_app (l1 l2 : list nat) :
  fold_left Nat.max (l1 ++ l2) 0
  = Nat.max (fold_left Nat.max l1 0) (fold_left Nat.max l2 0).
Proof. rewrite fold_left_app. apply fold_max_init. Qed.

Lemma prunes_to_depth (t t' : Node) :
  prunes_to t t' ->
  forall d, fitted d t -> leveled t ->
    fold_left Nat.max (map (@level Params) (leaves_of t')) 0
    <= fold_left Nat.max (map (@level Params) (leaves_of t)) 0.
Proof.
  induction 1 as [t
                 |pp pr lvl nd po c1 c2 c1' c2' bn bo H1 IH1 H2 IH2
                 |pp pr lvl nd po c1 c2 c1' c2' bn bo p1 p2 H1 IH1 H2 IH2
                    L1 L2 P1 P2 E];
    intros d F Lv.
  - apply le_n.
  - inversion F; subst.
    inversion Lv as [t0 N1 N2 | t0 k1 k2 Hk1 Hk2 Hl1 Hl2 Hp1 Hp2 Lv1 Lv2];
      subst; simpl in *; [discriminate|].
    inversion Hk1; inversion Hk2; subst k1 k2.
    rewrite !map_app, !fold_max_app.
    specialize (IH1 _ ltac:(eassumption) Lv1).
    specialize (IH2 _ ltac:(eassumption) Lv2). lia.
  - assert (Hne : map (@level Params)
                      (leaves_of (mkNode pp pr lvl nd po (Some c1) (Some c2)
                                         bn bo)) <> []).
    { intros E'. apply map_eq_nil in E'. exact (leaves_of_nonempty F E'). }
    apply fold_max_attained in Hne. apply in_map_iff in Hne.
    destruct Hne as (leaf & Hlv & Hin).
    destruct (leaves_level_bounds F Lv _ Hin) as [B _].
    simpl in B. simpl leaves_of at 1. simpl map at 1. simpl fold_left at 1.
    lia.
Qed.

(** X7.  Pruning never grows the tree.  On a trained tree neither the depth
    nor the number of leaves that [depth_and_leaves] reports increases
    under [_prune], and when the number of leaves is unchanged the tree
    itself is unchanged. *)
Theorem prune_never_grows_the_tree (t t' : Node) :
  trained t ->
  _prune t = Ok t' ->
  exists depth leaves depth' leaves',
    depth_and_leaves t = Ok (depth, leaves) /\
    depth_and_leaves t' = Ok (depth', leaves') /\
    depth' <= depth /\ leaves' <= leaves /\
    (leaves' = leaves -> t' = t).
Proof.
  intros Ht H. destruct (trained_fitted Ht) as [d F].
  destruct (@prune_rec_shrinks _ _ hooks d _ _ _ F H) as (F' & Hle & Q).
  do 4 eexists.
  split; [exact (depth_and_leaves_fitted F)|].
  split; [exact (depth_and_leaves_fitted F')|].
  split; [|split; assumption].
  exact (prunes_to_depth (@prune_rec_prunes_to _ _ _ _ F H) F
                         (trained_leveled Ht)).
Qed.

(** ** When pruning keeps the predictions *)

Lemma is_leaf_leaf_for (n : Node) (x : list float) :
  is_leaf n = Ok true -> leaf_for n x = Some n.
Proof.
  unfold is_leaf, _ensure_is_fitted.
  destruct n as [pp pr lvl nd po ch1 ch2 bn bo]. simpl.
  destruct po; [|discriminate]. simpl.
  destruct bn; [discriminate | reflexivity].
Qed.

Lemma predict_leaf_of_own (n : Node) (p : float) :
  predict_leaf_of hooks n = Ok p -> own_prediction n = Some p.
Proof.
  unfold predict_leaf_of, own_prediction.
  destruct (posterior n); simpl; [intros [=]; congruence | discriminate].
Qed.

Lemma prunes_to_coherent (t t' : Node) :
  prunes_to t t' ->
  coherent t ->
  own_prediction t' = own_prediction t /\
  coherent t' /\
  forall x l, leaf_for t x = Some l ->
              exists l', leaf_for t' x = Some l'
                         /\ own_prediction l' = own_prediction l.
Proof.
  induction 1 as [t
                 |pp pr lvl nd po c1 c2 c1' c2' bn bo H1 IH1 H2 IH2
                 |pp pr lvl nd po c1 c2 c1' c2' bn bo p1 p2 H1 IH1 H2 IH2
                    L1 L2 P1 P2 E];
    intros Co.
  - split; [reflexivity|]. split; [exact Co|]. eauto.
  - inversion Co as [t0 N1 N2 | t0 k1 k2 Hk1 Hk2 Co1 Co2 Cond];
      subst; [simpl in *; discriminate | simpl in Hk1, Hk2].
    inversion Hk1; inversion Hk2; subst k1 k2.
    destruct (IH1 Co1) as (O1 & Co1' & R1).
    destruct (IH2 Co2) as (O2 & Co2' & R2).
    split; [reflexivity|]. split.
    + eapply coherent_node; [reflexivity | reflexivity | exact Co1'
                             | exact Co2' |].
      intros q1 q2 Q1 Q2 Eq. rewrite O1 in Q1. rewrite O2 in Q2.
      exact (Cond _ _ Q1 Q2 Eq).
    + intros x l Hl. destruct bn as [normal|]; [destruct bo as [origin|]|].
      * rewrite leaf_for_internal in Hl. rewrite leaf_for_internal.
        destruct (F64.lt0 _); [exact (R1 _ _ Hl)|].
        destruct (F64.ge0 _); [exact (R2 _ _ Hl) | discriminate].
      * simpl in Hl. inversion Hl; subst. eexists. split; reflexivity.
      * simpl in Hl. inversion Hl; subst. eexists. split; reflexivity.
  - inversion Co as [t0 N1 N2 | t0 k1 k2 Hk1 Hk2 Co1 Co2 Cond];
      subst; [simpl in *; discriminate | simpl in Hk1, Hk2].
    inversion Hk1; inversion Hk2; subst k1 k2.
    destruct (IH1 Co1) as (O1 & Co1' & R1).
    destruct (IH2 Co2) as (O2 & Co2' & R2).
    pose proof (predict_leaf_of_own _ P1) as Q1.
    pose proof (predict_leaf_of_own _ P2) as Q2.
    rewrite O1 in Q1. rewrite O2 in Q2.
    destruct (Cond _ _ Q1 Q2 E) as [T1 T2].
    split; [reflexivity|]. split; [apply coherent_leaf; reflexivity|].
    intros x l Hl. eexists. split; [reflexivity|].
    destruct bn as [normal|]; [destruct bo as [origin|]|].
    + rewrite leaf_for_internal in Hl.
      destruct (F64.lt0 _).
      * destruct (R1 _ _ Hl) as (l' & Hl' & Ol).
        rewrite (@is_leaf_leaf_for c1' x L1) in Hl'. inversion Hl'; subst l'.
        rewrite <- Ol, O1, Q1. exact T1.
      * destruct (F64.ge0 _); [|discriminate].
        destruct (R2 _ _ Hl) as (l' & Hl' & Ol).
        rewrite (@is_leaf_leaf_for c2' x L2) in Hl'. inversion Hl'; subst l'.
        rewrite <- Ol, O2, Q2. exact T2.
    + simpl in Hl. inversion Hl; subst. reflexivity.
    + simpl in Hl. inversion Hl; subst. reflexivity.
Qed.

(** X8.  When pruning is safe.  If in a trained tree every node whose two
    children predict [==]-equal values from their own posteriors predicts
    that value from its own posterior, then [_prune] changes no
    prediction: [predict] answers on the pruned tree as on the original
    one for every row that is routed to a leaf. *)
Theorem prune_keeps_predictions_of_coherent_trees
    (t t' : Node) (X : Matrix) :
  trained t ->
  coherent t ->
  _prune t = Ok t' ->
  n_dim t = Some (shape1 X) ->
  exists a a',
    predict t X = Ok a /\ predict t' X = Ok a' /\
    length a' = length a /\
    forall i x l,
      nth_error (rows X) i = Some x ->
      leaf_for t x = Some l ->
      nth_error a' i = nth_error a i.
Proof.
  intros Ht Co H Hd. destruct (trained_fitted Ht) as [d F].
  pose proof (@prune_rec_prunes_to _ _ _ _ F H) as P.
  pose proof (proj1 (@prune_rec_shrinks _ _ hooks d _ _ _ F H)) as F'.
  destruct (prunes_to_root P) as (_ & _ & _ & Hd' & _).
  rewrite <- Hd' in Hd.
  destruct (predict_fitted hooks X F ltac:(congruence)) as (a & Ha & La & Qa).
  destruct (predict_fitted hooks X F' Hd) as (a' & Ha' & La' & Qa').
  exists a, a'. split; [exact Ha|]. split; [exact Ha'|].
  split; [congruence|].
  intros i x l Hx Hl.
  destruct (prunes_to_coherent P Co) as (_ & _ & R).
  destruct (R _ _ Hl) as (l' & Hl' & Ol).
  destruct (Qa _ _ _ Hx Hl) as (po & Hpo & Hn).
  destruct (Qa' _ _ _ Hx Hl') as (po' & Hpo' & Hn').
  rewrite Hn, Hn'. unfold own_prediction in Ol.
  rewrite Hpo, Hpo' in Ol. simpl in Ol. exact Ol.
Qed.

(** ** More on fit *)

Lemma fit_rec_delta (fuel : nat) :
  forall (self : Node) X y delta1 delta2,
    _fit_rec fuel self X y delta1 = _fit_rec fuel self X y delta2.
Proof.
  induction fuel as [|fuel IH]; intros self X y delta1 delta2;
    [reflexivity|].
  simpl. f_equal.
  destruct (solve optimizer _ _ X y) as [[normal origin]|]; [|reflexivity].
  destruct (projections X normal origin) as [ps| |]; try reflexivity.
  cbn [bind].
  destruct (_ && _); [|reflexivity].
  destruct (take_rows X (np_where F64.lt0 ps)) as [X1| |]; try reflexivity.
  destruct (take_rows X (np_where F64.ge0 ps)) as [X2| |]; try reflexivity.
  cbn [bind].
  destruct (take y (np_where F64.lt0 ps)) as [y1| |]; try reflexivity.
  destruct (take y (np_where F64.ge0 ps)) as [y2| |]; try reflexivity.
  cbn [bind].
  rewrite (IH _ X1 y1 delta1 delta2), (IH _ X2 y2 delta1 delta2).
  reflexivity.
Qed.

(** X1.  [delta] has no effect on a hyperplane tree.  [_fit] hands [delta] on
    to the children and never reads it, so it builds the same tree for
    any two values; [fit] does so for any two values that pass its range
    check. *)
Theorem fit_ignores_delta
    (self : Node) (X : Matrix) (y : list Label) (delta1 delta2 : float)
    (prune : bool) :
  _fit self X y delta1 = _fit self X y delta2 /\
  (F64.ltb delta1 F64.zero || F64.ltb F64.one delta1 = false ->
   F64.ltb delta2 F64.zero || F64.ltb F64.one delta2 = false ->
   fit self X y delta1 prune = fit self X y delta2 prune).
Proof.
  split; [apply fit_rec_delta|].
  intros V1 V2. unfold fit. rewrite V1, V2. unfold _fit.
  rewrite (fit_rec_delta (S (shape0 X)) self X y delta1 delta2).
  reflexivity.
Qed.

Lemma fit_without_proposal
    (self self' : Node) (X : Matrix) (y : list Label) (delta : float) :
  _fit self X y delta = Ok self' ->
  solve optimizer (partition_prior self) (prior self) X y = None ->
  self' = set_posterior (set_n_dim self (shape1 X))
                        (_compute_posterior hooks (prior self) y F64.one).
Proof.
  intros H Hnone. unfold _fit in H. simpl in H. rewrite Hnone in H.
  cbn [bind] in H. inversion H. reflexivity.
Qed.

(** X10.  Fitting again never removes a split.  A successful [_fit] leaves the
    hyperplane and the children of the node as they were or sets all four
    of them; when the optimizer proposes no hyperplane it only sets
    [n_dim] and the posterior; and a node that was internal before is
    internal afterwards. *)
Theorem fit_never_removes_a_split
    (self self' : Node) (X : Matrix) (y : list Label) (delta : float) :
  _fit self X y delta = Ok self' ->
  ((best_hyperplane_normal self' = best_hyperplane_normal self /\
    best_hyperplane_origin self' = best_hyperplane_origin self /\
    child1 self' = child1 self /\ child2 self' = child2 self)
   \/ (best_hyperplane_normal self' <> None /\
       best_hyperplane_origin self' <> None /\
       child1 self' <> None /\ child2 self' <> None)) /\
  (solve optimizer (partition_prior self) (prior self) X y = None ->
   self' = set_posterior (set_n_dim self (shape1 X))
                         (_compute_posterior hooks (prior self) y F64.one)) /\
  (is_leaf self = Ok false -> is_leaf self' = Ok false).
Proof.
  intros H. unfold _fit in H. simpl in H.
  apply bind_ok in H. destruct H as (s & Hs & H).
  inversion H; subst self'; clear H.
  assert (Keep : forall s0, s0 = self ->
            best_hyperplane_normal
              (set_posterior (set_n_dim s0 (shape1 X))
                 (_compute_posterior hooks (prior self) y F64.one))
            = best_hyperplane_normal self /\
            best_hyperplane_origin
              (set_posterior (set_n_dim s0 (shape1 X))
                 (_compute_posterior hooks (prior self) y F64.one))
            = best_hyperplane_origin self /\
            child1 (set_posterior (set_n_dim s0 (shape1 X))
                 (_compute_posterior hooks (prior self) y F64.one))
            = child1 self /\
            child2 (set_posterior (set_n_dim s0 (shape1 X))
                 (_compute_posterior hooks (prior self) y F64.one))
            = child2 self)
    by (intros s0 ->; destruct self; simpl; auto).
  assert (Cases : s = self \/
            (best_hyperplane_normal s <> None /\
             best_hyperplane_origin s <> None /\
             child1 s <> None /\ child2 s <> None /\
             solve optimizer (partition_prior self) (prior self) X y <> None)).
  { destruct (solve optimizer _ _ X y) as [[normal origin]|];
      [|inversion Hs; auto].
    apply bind_ok in Hs. destruct Hs as (ps & _ & Hs).
    destruct (_ && _); [|inversion Hs; auto].
    repeat (apply bind_ok in Hs; destruct Hs as (? & _ & Hs)).
    inversion Hs; subst. right. simpl. repeat split; discriminate. }
  split; [|split].
  - destruct Cases as [-> | (N & O & C1 & C2 & _)].
    + left. apply Keep. reflexivity.
    + right. destruct s; simpl in *. auto.
  - intros Hnone. destruct Cases as [-> | (_ & _ & _ & _ & Hsome)];
      [reflexivity | contradiction].
  - intros Hl. unfold is_leaf, _ensure_is_fitted in *.
    destruct Cases as [-> | (N & _)].
    + destruct self as [pp pr lvl nd po ch1 ch2 bn bo]; simpl in *.
      destruct po; [|discriminate]. simpl in Hl.
      destruct bn; [reflexivity | discriminate].
    + destruct s as [pp pr lvl nd po ch1 ch2 bn bo]; simpl in *.
      destruct bn; [reflexivity | congruence].
Qed.

Lemma fitted_in_tree (d : nat) (n t : Node) :
  in_tree n t -> fitted d t -> fitted d n.
Proof.
  induction 1 as [|self c Hc Hin IH|self c Hc Hin IH]; intros F.
  - exact F.
  - destruct F; simpl in Hc; [discriminate|]. inversion Hc; subst. auto.
  - destruct F; simpl in Hc; [discriminate|]. inversion Hc; subst. auto.
Qed.

(** X11.  Dimensions.  After [fit] on a freshly constructed node the root
    records the number of columns of the data, every node of the tree has
    a posterior, and every stored hyperplane normal and origin has as
    many entries as the data has columns.  A proposed hyperplane of
    another size makes [_fit] raise a ValueError. *)
Theorem fit_stores_hyperplanes_of_the_data_dimension
    pp pr lvl (X : Matrix) (y : list Label) (delta : float) (prune : bool) :
  (forall t : Node,
      fit (new_node pp pr lvl) X y delta prune = Ok t ->
      n_dim t = Some (shape1 X) /\
      forall n, in_tree n t ->
        posterior n <> None /\
        forall normal origin,
          best_hyperplane_normal n = Some normal ->
          best_hyperplane_origin n = Some origin ->
          length normal = shape1 X /\ length origin = shape1 X) /\
  (forall (self : Node) normal origin,
      solve optimizer (partition_prior self) (prior self) X y
        = Some (normal, origin) ->
      length normal <> shape1 X \/ length origin <> length normal ->
      exists msg, _fit self X y delta = Raise (ValueError msg)).
Proof.
  split.
  - intros t H.
    destruct (fit_keeps_params _ _ _ _ _ _ _ H) as (_ & _ & _ & Hd & _).
    split; [exact Hd|].
    pose proof (fit_fitted _ _ _ _ _ _ _ _ _ _ H) as F.
    intros n Hin. pose proof (fitted_in_tree Hin F) as Fn.
    destruct Fn; simpl.
    + split; [discriminate|]. intros normal origin [=].
    + split; [discriminate|]. intros no oo [= <-] [= <-]. auto.
  - intros self normal origin Hsolve Hbad.
    unfold _fit. simpl. rewrite Hsolve.
    unfold projections, matmul, np_dot.
    destruct (shape1 X =? length normal) eqn:E1.
    + destruct (length normal =? length origin) eqn:E2.
      * apply Nat.eqb_eq in E1, E2. destruct Hbad; congruence.
      * simpl. eauto.
    + simpl. eauto.
Qed.

(** ** Queries on nodes without a split or without a posterior *)

(** X4.  Before training, [depth_and_leaves] and [_prune] raise the same
    ValueError as [predict] and [is_leaf]: both go through [is_leaf]
    before anything else. *)
Theorem unfitted_node_answers_no_query (self : Node) :
  posterior self = None ->
  depth_and_leaves self = Raise (ValueError untrained_msg) /\
  _prune self = Raise (ValueError untrained_msg).
Proof.
  intros H.
  assert (D : depth_and_leaves self = Raise (ValueError untrained_msg)).
  { destruct self as [pp pr lvl nd po ch1 ch2 bn bo]. simpl in H. subst po.
    reflexivity. }
  split; [exact D|].
  unfold _prune.
  assert (N : exists n, nodes self = S n) by (destruct self; simpl; eauto).
  destruct N as (n & ->).
  rewrite prune_rec_S. unfold prune_step. rewrite D. reflexivity.
Qed.

Lemma map_const_repeat {A B : Type} (v : B) (z : A) (n : nat) :
  map (fun _ => v) (repeat z n) = repeat v n.
Proof. induction n as [|n IH]; simpl; [reflexivity | rewrite IH; reflexivity]. Qed.

Lemma prunes_to_leaf (t t' : Node) :
  prunes_to t t' -> child1 t = None -> t' = t.
Proof. destruct 1; simpl; [reflexivity | discriminate | discriminate]. Qed.

(** X9.  A tree without a split.  After [fit] on a freshly constructed node,
    the root is a leaf when the optimizer proposed no hyperplane; and
    whenever the root is a leaf, [predict] answers every row of every
    input of the training width with the one value predicted from the
    root's posterior, which is the posterior of the whole training
    target. *)
Theorem tree_without_split_broadcasts
    pp pr lvl (X : Matrix) (y : list Label) (delta : float) (prune : bool)
    (t : Node) :
  fit (new_node pp pr lvl) X y delta prune = Ok t ->
  (solve optimizer pp pr X y = None -> is_leaf t = Ok true) /\
  (is_leaf t = Ok true ->
   forall X', shape1 X' = shape1 X ->
     predict t X'
     = Ok (repeat (_predict_leaf hooks (_compute_posterior hooks pr y F64.one))
                  (shape0 X'))).
Proof.
  intros H. split.
  - intros Hnone. unfold fit in H.
    apply bind_ok in H. destruct H as (_ & _ & H).
    destruct (_ || _); [discriminate|].
    apply bind_ok in H. destruct H as (s & Hs & H).
    assert (Fs : fitted (shape1 X) s)
      by (eapply fit_rec_fitted; [|exact Hs]; repeat split).
    pose proof (@fit_without_proposal _ _ _ _ _ Hs Hnone) as Eq.
    assert (Ls : is_leaf s = Ok true /\ child1 s = None)
      by (rewrite Eq; split; reflexivity).
    destruct Ls as [Ls Cs].
    destruct prune; [|inversion H; subst; exact Ls].
    rewrite (prunes_to_leaf (@prune_rec_prunes_to _ _ _ _ Fs H) Cs).
    exact Ls.
  - intros Hl X' HX'.
    destruct (fit_keeps_params _ _ _ _ _ _ _ H) as (_ & _ & _ & Hd & Hpo).
    unfold predict, _ensure_is_fitted. rewrite Hpo, Hd.
    simpl opt_nat_eqb. rewrite HX', Nat.eqb_refl. cbn [negb bind].
    unfold is_leaf, _ensure_is_fitted in Hl. rewrite Hpo in Hl.
    cbn [bind] in Hl.
    destruct t as [tpp tpr tlvl tnd tpo tc1 tc2 tbn tbo].
    simpl in Hpo, Hl. subst tpo.
    destruct tbn; [discriminate|]. simpl.
    unfold _create_merged_predictions_array, np_zeros.
    rewrite map_const_repeat. reflexivity.
Qed.

(** ** When fit succeeds *)

Lemma fit_rec_succeeds (d fuel : nat) :
  (forall pp pr X y normal origin,
      shape1 X = d ->
      solve optimizer pp pr X y = Some (normal, origin) ->
      length normal = d /\ length origin = d) ->
  forall (self : Node) X y delta,
    shape1 X = d -> shape0 X < fuel -> shape0 X <= length y ->
    exists t, _fit_rec fuel self X y delta = Ok t.
Proof.
  intros Hopt. induction fuel as [|fuel IH];
    intros self X y delta Hd Hf Hy; [lia|].
  simpl.
  destruct (solve optimizer _ _ X y) as [[normal origin]|] eqn:Es;
    [|simpl; eauto].
  destruct (Hopt _ _ _ _ _ _ Hd Es) as [Ln Lo].
  destruct (@projections_ok X normal origin) as (ps & Hps);
    [congruence | congruence |].
  rewrite Hps. cbn [bind].
  destruct (projections_spec _ _ _ Hps) as (_ & _ & Lps & _).
  pose proof (where_from_split_length ps 0) as Hsplit.
  fold (np_where F64.lt0 ps) in Hsplit. fold (np_where F64.ge0 ps) in Hsplit.
  destruct (0 <? length (np_where F64.lt0 ps)) eqn:G1; [|simpl; eauto].
  destruct (0 <? length (np_where F64.ge0 ps)) eqn:G2; [|simpl; eauto].
  apply Nat.ltb_lt in G1, G2. cbn [andb].
  assert (In1 : forall i, In i (np_where F64.lt0 ps) -> i < shape0 X)
    by (intros i Hi; apply np_where_lt in Hi; lia).
  assert (In2 : forall i, In i (np_where F64.ge0 ps) -> i < shape0 X)
    by (intros i Hi; apply np_where_lt in Hi; lia).
  destruct (take_rows_ok X _ In1) as (X1 & HX1).
  destruct (take_rows_ok X _ In2) as (X2 & HX2).
  destruct (@take_ok _ y (np_where F64.lt0 ps)) as (y1 & Hy1);
    [intros i Hi; specialize (In1 i Hi); lia|].
  destruct (@take_ok _ y (np_where F64.ge0 ps)) as (y2 & Hy2);
    [intros i Hi; specialize (In2 i Hi); lia|].
  rewrite HX1, HX2. cbn [bind]. rewrite Hy1, Hy2. cbn [bind].
  destruct (take_rows_spec _ _ HX1) as (D1 & L1 & _).
  destruct (take_rows_spec _ _ HX2) as (D2 & L2 & _).
  destruct (@take_spec _ _ _ _ Hy1) as (Ly1 & _).
  destruct (@take_spec _ _ _ _ Hy2) as (Ly2 & _).
  assert (C1 : exists c1',
             (if 1 <? shape0 X1
              then _fit_rec fuel
                     (new_node (partition_prior self)
                        (_compute_posterior hooks (prior self) y1 F64.zero)
                        (level self + 1)) X1 y1 delta
              else Ok (set_posterior
                         (new_node (partition_prior self)
                            (_compute_posterior hooks (prior self) y1 F64.zero)
                            (level self + 1))
                         (_compute_posterior hooks (prior self) y1 F64.one)))
             = Ok c1').
  { destruct (1 <? shape0 X1); [|eauto].
    apply IH; [congruence | lia | lia]. }
  assert (C2 : exists c2',
             (if 1 <? shape0 X2
              then _fit_rec fuel
                     (new_node (partition_prior self)
                        (_compute_posterior hooks (prior self) y2 F64.zero)
                        (level self + 1)) X2 y2 delta
              else Ok (set_posterior
                         (new_node (partition_prior self)
                            (_compute_posterior hooks (prior self) y2 F64.zero)
                            (level self + 1))
                         (_compute_posterior hooks (prior self) y2 F64.one)))
             = Ok c2').
  { destruct (1 <? shape0 X2); [|eauto].
    apply IH; [congruence | lia | lia]. }
  destruct C1 as (c1' & ->). destruct C2 as (c2' & ->).
  cbn [bind]. eauto.
Qed.

(** X15.  When fit succeeds.  Let the target check pass (it is made at
    level 0 only), [delta] pass the range check, the target have at
    least as many entries as the data has rows, and the optimizer only
    propose hyperplanes of the dimension of the data.  Then [fit] on a
    freshly constructed node returns a tree, with or without pruning: no
    index runs out of range and no shape mismatches.  The one exception
    is a target of exactly one entry together with [verbose=True]: the
    squeezed target has no length, and [fit] raises a TypeError at the
    progress line before it fits anything. *)
Theorem fit_succeeds_on_well_formed_input
    pp pr lvl (X : Matrix) (y : list Label) (delta : float)
    (prune verbose : bool) :
  (lvl = 0 -> _check_target hooks pr y = None) ->
  F64.ltb delta F64.zero || F64.ltb F64.one delta = false ->
  shape0 X <= length y ->
  (forall pp' pr' X' y' normal origin,
      shape1 X' = shape1 X ->
      solve optimizer pp' pr' X' y' = Some (normal, origin) ->
      length normal = shape1 X /\ length origin = shape1 X) ->
  (verbose = false \/ length y <> 1 ->
   exists t,
     fit_verbose hooks optimizer format_float (new_node pp pr lvl)
                 X y delta prune verbose = Ok t /\
     fit (new_node pp pr lvl) X y delta prune = Ok t) /\
  (verbose = true -> length y = 1 ->
   fit_verbose hooks optimizer format_float (new_node pp pr lvl)
               X y delta prune verbose
   = Raise (TypeError "len() of unsized object")).
Proof.
  intros Ht Hdelta Hy Hopt.
  destruct (@fit_rec_succeeds (shape1 X) (S (shape0 X)) Hopt
              (new_node pp pr lvl) X y delta eq_refl
              (Nat.lt_succ_diag_r _) Hy) as (s & Hs).
  assert (Fs : fitted (shape1 X) s)
    by (eapply fit_rec_fitted; [|exact Hs]; repeat split).
  assert (Hcheck : (if lvl =? 0
                    then match _check_target hooks pr y with
                         | Some e => Raise e
                         | None => Ok tt
                         end
                    else Ok tt) = Ok tt).
  { destruct (lvl =? 0) eqn:E; [|reflexivity].
    apply Nat.eqb_eq in E. rewrite (Ht E). reflexivity. }
  assert (Hfit : exists t, fit (new_node pp pr lvl) X y delta prune = Ok t).
  { unfold fit. simpl level. simpl prior.
    rewrite Hcheck. cbn [bind]. rewrite Hdelta.
    unfold _fit. rewrite Hs. cbn [bind].
    destruct prune; [|eauto].
    unfold _prune. eapply prune_rec_total; [exact Fs | apply le_n]. }
  split.
  - intros Hquiet. destruct Hfit as (t & Hfit). exists t.
    split; [|exact Hfit].
    rewrite <- Hfit. unfold fit_verbose, fit. simpl level. simpl prior.
    rewrite Hcheck. cbn [bind]. rewrite Hdelta.
    assert (Hprint : print_progress verbose y = Ok tt).
    { unfold print_progress, squeezed_to_0d.
      destruct Hquiet as [-> | Hlen]; [reflexivity|].
      rewrite (proj2 (Nat.eqb_neq _ _) Hlen), andb_false_r. reflexivity. }
    rewrite Hprint. reflexivity.
  - intros -> Hlen. unfold fit_verbose. simpl level. simpl prior.
    rewrite Hcheck. cbn [bind]. rewrite Hdelta.
    unfold print_progress, squeezed_to_0d. rewrite Hlen. reflexivity.
Qed.

(** ** No node of a fitted tree is empty *)

Lemma visited_mono (d : nat) (t : Node) :
  fitted d t ->
  forall xs xs', visited t xs -> incl xs xs' -> visited t xs'.
Proof.
  induction 1 as [pp pr lvl nd po
                 |pp pr lvl po c1 c2 normal origin Ln Lo F1 IH1 F2 IH2];
    intros xs xs' V I.
  - simpl in *. destruct V as [V _]. split; [|exact Logic.I].
    intros ->. destruct xs as [|x xs]; [congruence|].
    exact (I x (or_introl eq_refl)).
  - simpl in *. destruct V as (V & V1 & V2). split; [|split].
    + intros ->. destruct xs as [|x xs]; [congruence|].
      exact (I x (or_introl eq_refl)).
    + apply (IH1 _ _ V1). intros x Hx. apply filter_In in Hx.
      apply filter_In. split; [apply I|]; tauto.
    + apply (IH2 _ _ V2). intros x Hx. apply filter_In in Hx.
      apply filter_In. split; [apply I|]; tauto.
Qed.

Lemma fit_rec_visited (fuel : nat) :
  forall (self : Node) X y delta t,
    blank self ->
    1 <= shape0 X ->
    _fit_rec fuel self X y delta = Ok t ->
    visited t (rows X).
Proof.
  induction fuel as [|fuel IH]; intros self X y delta t Hb Hrows H;
    [discriminate|].
  assert (Hne : rows X <> [])
    by (unfold shape0 in Hrows; destruct (rows X); simpl in *;
        [lia | discriminate]).
  destruct self as [pp pr lvl nd po ch1 ch2 bn bo].
  destruct Hb as (? & ? & ? & ?); simpl in *; subst.
  apply bind_ok in H. destruct H as (self' & Hs & H).
  inversion H; subst; clear H.
  destruct (solve optimizer pp pr X y) as [[normal origin]|];
    [|inversion Hs; subst; simpl; auto].
  apply bind_ok in Hs. destruct Hs as (ps & Hps & Hs).
  destruct (0 <? length (np_where F64.lt0 ps)) eqn:G1;
    [|inversion Hs; subst; simpl; auto].
  destruct (0 <? length (np_where F64.ge0 ps)) eqn:G2;
    [|inversion Hs; subst; simpl; auto].
  apply Nat.ltb_lt in G1, G2. cbn [andb] in Hs.
  apply bind_ok in Hs. destruct Hs as (X1 & HX1 & Hs).
  apply bind_ok in Hs. destruct Hs as (X2 & HX2 & Hs).
  apply bind_ok in Hs. destruct Hs as (y1 & Hy1 & Hs).
  apply bind_ok in Hs. destruct Hs as (y2 & Hy2 & Hs).
  apply bind_ok in Hs. destruct Hs as (c1 & Hc1 & Hs).
  apply bind_ok in Hs. destruct Hs as (c2 & Hc2 & Hs).
  inversion Hs; subst; clear Hs.
  destruct (take_rows_spec _ _ HX1) as (E1 & L1 & _).
  destruct (take_rows_spec _ _ HX2) as (E2 & L2 & _).
  assert (N1 : rows X1 <> [])
    by (unfold shape0 in L1; destruct (rows X1); simpl in *;
        [lia | discriminate]).
  assert (N2 : rows X2 <> [])
    by (unfold shape0 in L2; destruct (rows X2); simpl in *;
        [lia | discriminate]).
  assert (F1 : fitted (shape1 X) c1 /\ visited c1 (rows X1)).
  { destruct (1 <? shape0 X1).
    - split.
      + rewrite <- E1. eapply fit_rec_fitted; [|exact Hc1]. repeat split.
      + eapply IH; [|lia|exact Hc1]. repeat split.
    - inversion Hc1; subst. split; [constructor | simpl; auto]. }
  assert (F2 : fitted (shape1 X) c2 /\ visited c2 (rows X2)).
  { destruct (1 <? shape0 X2).
    - split.
      + rewrite <- E2. eapply fit_rec_fitted; [|exact Hc2]. repeat split.
      + eapply IH; [|lia|exact Hc2]. repeat split.
    - inversion Hc2; subst. split; [constructor | simpl; auto]. }
  destruct F1 as [F1 V1]. destruct F2 as [F2 V2].
  simpl. split; [exact Hne|]. split.
  - exact (@visited_mono _ _ F1 _ _ V1
             (@taken_rows_on_one_side F64.lt0 _ _ _ _ _ Hps HX1)).
  - exact (@visited_mono _ _ F2 _ _ V2
             (@taken_rows_on_one_side F64.ge0 _ _ _ _ _ Hps HX2)).
Qed.

Lemma prunes_to_visited (t t' : Node) :
  prunes_to t t' -> forall xs, visited t xs -> visited t' xs.
Proof.
  induction 1 as [t
                 |pp pr lvl nd po c1 c2 c1' c2' bn bo P1 IH1 P2 IH2
                 |pp pr lvl nd po c1 c2 c1' c2' bn bo p1 p2 P1 IH1 P2 IH2];
    intros xs V.
  - exact V.
  - simpl in *. destruct V as (V & V').
    split; [exact V|].
    destruct bn as [normal|]; [|exact Logic.I].
    destruct bo as [origin|]; [|exact Logic.I].
    destruct V' as [V1 V2]. split; [apply IH1 | apply IH2]; assumption.
  - simpl in *. destruct V as (V & _). split; [exact V | exact Logic.I].
Qed.

Lemma visited_leaves (d : nat) (t : Node) :
  fitted d t ->
  forall xs, visited t xs ->
    forall l, In l (leaves_of t) ->
      exists x, In x xs /\ leaf_for t x = Some l.
Proof.
  induction 1 as [pp pr lvl nd po
                 |pp pr lvl po c1 c2 normal origin Ln Lo F1 IH1 F2 IH2];
    intros xs V l Hl.
  - simpl in *. destruct Hl as [<- | []]. destruct V as [V _].
    destruct xs as [|x xs]; [congruence|].
    exists x. split; [left; reflexivity | reflexivity].
  - simpl in V, Hl. destruct V as (_ & V1 & V2).
    apply in_app_or in Hl. destruct Hl as [Hl | Hl].
    + destruct (IH1 _ V1 _ Hl) as (x & Hx & Hleaf).
      apply filter_In in Hx. destruct Hx as [Hx Hd].
      exists x. split; [exact Hx|].
      simpl. rewrite Hd. exact Hleaf.
    + destruct (IH2 _ V2 _ Hl) as (x & Hx & Hleaf).
      apply filter_In in Hx. destruct Hx as [Hx Hd].
      exists x. split; [exact Hx|].
      simpl. rewrite Hd.
      destruct (F64.lt0 (signed_distance x normal origin)) eqn:Hlt;
        [|exact Hleaf].
      rewrite (lt0_not_ge0 _ Hlt) in Hd. discriminate Hd.
Qed.

(** X16.  No node of a fitted tree is empty.  After [fit] on a freshly
    constructed node and data of at least one row, with or without
    pruning, every node of the tree is visited by at least one training
    row on its way down, and every leaf is the leaf that at least one
    training row is routed to. *)
Theorem every_leaf_holds_a_training_row
    pp pr lvl (X : Matrix) (y : list Label) (delta : float) (prune : bool)
    (t : Node) :
  1 <= shape0 X ->
  fit (new_node pp pr lvl) X y delta prune = Ok t ->
  visited t (rows X) /\
  forall l, In l (leaves_of t) ->
    exists i x, nth_error (rows X) i = Some x /\ leaf_for t x = Some l.
Proof.
  intros Hrows H.
  pose proof (fit_fitted _ _ _ _ _ _ _ _ _ _ H) as Ft.
  assert (V : visited t (rows X)).
  { unfold fit in H.
    apply bind_ok in H. destruct H as (_ & _ & H).
    destruct (_ || _); [discriminate|].
    apply bind_ok in H. destruct H as (s & Hs & H).
    assert (Fs : fitted (shape1 X) s)
      by (eapply fit_rec_fitted; [|exact Hs]; repeat split).
    assert (Vs : visited s (rows X))
      by (eapply fit_rec_visited; [|exact Hrows|exact Hs]; repeat split).
    destruct prune; [|inversion H; subst; exact Vs].
    exact (@prunes_to_visited _ _ (@prune_rec_prunes_to _ _ _ _ Fs H) _ Vs). }
  split; [exact V|].
  intros l Hl.
  destruct (@visited_leaves _ _ Ft _ V l Hl) as (x & Hx & Hleaf).
  apply In_nth_error in Hx. destruct Hx as (i & Hi).
  exists i, x. split; assumption.
Qed.

(** ** What predict stores for rows that reach no leaf *)

Lemma assign_none_at (a a' : list float) (indices : list nat) :
  (forall i, In i indices -> i < length a) ->
  NoDup indices ->
  assign a indices None = Ok a' ->
  length a' = length a /\
  (forall j, ~ In j indices -> nth_error a' j = nth_error a j) /\
  (forall i, In i indices -> nth_error a' i = Some F64.nan).
Proof.
  intros Hlt Hnd H. unfold assign in H.
  destruct (@assign_each_spec indices a (repeat F64.nan (length indices)))
    as (a'' & H' & Hl & Hk & Ho); auto using repeat_length.
  rewrite H in H'. inversion H'; subst a''.
  split; [exact Hl|]. split; [exact Ho|].
  intros i Hi. destruct (In_nth_error _ _ Hi) as (k & Hk').
  rewrite (Hk _ _ Hk'). apply nth_error_repeat.
  apply nth_error_Some. congruence.
Qed.

(** The rows sent to one child and written back, for the rows that the
    child routes to no leaf. *)
Lemma child_merge_unrouted (d : nat) (c : Node) (X : Matrix)
      (indices : list nat) (base : list float) (r : option (list float)) :
  fitted d c ->
  shape1 X = d ->
  (forall X1 a1,
      shape1 X1 = d ->
      _predict c X1 = Ok (Some a1) ->
      forall k x, nth_error (rows X1) k = Some x ->
                  leaf_for c x = None ->
                  nth_error a1 k = Some F64.zero \/
                  nth_error a1 k = Some F64.nan) ->
  length base = shape0 X ->
  NoDup indices ->
  (forall i, In i indices -> i < shape0 X) ->
  (X1 <- take_rows X indices ;;
   predictions <- _predict c X1 ;;
   m <- assign base indices predictions ;;
   Ok (Some m)) = Ok r ->
  exists m,
    r = Some m /\ length m = shape0 X /\
    (forall j, ~ In j indices -> nth_error m j = nth_error base j) /\
    (forall i x,
        In i indices ->
        nth_error (rows X) i = Some x ->
        leaf_for c x = None ->
        nth_error m i = Some F64.zero \/ nth_error m i = Some F64.nan).
Proof.
  intros Fc HX IH Hbase Hnd Hlt H.
  apply bind_ok in H. destruct H as (X1 & HX1 & H).
  apply bind_ok in H. destruct H as (p & Hp & H).
  apply bind_ok in H. destruct H as (m & Hm & H).
  inversion H; subst r; clear H.
  destruct (take_rows_spec _ _ HX1) as (E1 & L1 & R1).
  assert (Hlt' : forall i, In i indices -> i < length base)
    by (intros i Hi; rewrite Hbase; auto).
  exists m. split; [reflexivity|].
  destruct p as [a1|].
  - destruct (@predict_rec_fitted _ _ hooks d c Fc X1) as (r' & Hr' & Q);
      [congruence|].
    rewrite Hp in Hr'. inversion Hr'; subst r'. destruct Q as [La _].
    destruct (@assign_some_spec base indices a1 Hlt')
      as (m' & Hm' & Lm & Hk & Ho); [congruence | assumption |].
    rewrite Hm in Hm'. inversion Hm'; subst m'.
    split; [congruence|]. split; [exact Ho|].
    intros i x Hi Hx Hleaf.
    destruct (In_nth_error _ _ Hi) as (k & Hk').
    pose proof (R1 _ _ Hk') as Rk. rewrite Hx in Rk.
    rewrite (Hk _ _ Hk').
    exact (IH X1 a1 (eq_trans E1 HX) Hp k x Rk Hleaf).
  - destruct (@assign_none_at _ _ _ Hlt' Hnd Hm) as (Lm & Ho & Hnan).
    split; [congruence|]. split; [exact Ho|].
    intros i x Hi _ _. right. apply Hnan. exact Hi.
Qed.

Lemma predict_rec_unrouted (d : nat) (t : Node) :
  fitted d t ->
  forall X a,
    shape1 X = d ->
    _predict t X = Ok (Some a) ->
    forall i x,
      nth_error (rows X) i = Some x ->
      leaf_for t x = None ->
      nth_error a i = Some F64.zero \/ nth_error a i = Some F64.nan.
Proof.
  induction 1 as [pp pr lvl nd po
                 |pp pr lvl po c1 c2 normal origin Hn Ho F1 IH1 F2 IH2];
    intros X a HX H i x Hx Hleaf.
  - discriminate Hleaf.
  - rewrite predict_internal in H.
    apply bind_ok in H. destruct H as (idx & Hidx & H).
    apply bind_ok in Hidx. destruct Hidx as (ps & Hps & Hidx).
    inversion Hidx; subst idx; clear Hidx. cbn [fst snd] in H.
    destruct (projections_spec _ _ _ Hps) as (_ & _ & Hlen & Hrow).
    set (indices1 := np_where F64.lt0 ps) in *.
    set (indices2 := np_where F64.ge0 ps) in *.
    assert (Lt1 : forall j, In j indices1 -> j < shape0 X)
      by (intros j Hj; apply np_where_lt in Hj; congruence).
    assert (Lt2 : forall j, In j indices2 -> j < shape0 X)
      by (intros j Hj; apply np_where_lt in Hj; congruence).
    assert (In1 : In i indices1
                  <-> F64.lt0 (signed_distance x normal origin) = true).
    { unfold indices1. rewrite np_where_In. rewrite (Hrow _ _ Hx). split.
      - intros (p & [= <-] & Hp). exact Hp.
      - intros Hp. eauto. }
    assert (In2 : In i indices2
                  <-> F64.ge0 (signed_distance x normal origin) = true).
    { unfold indices2. rewrite np_where_In. rewrite (Hrow _ _ Hx). split.
      - intros (p & [= <-] & Hp). exact Hp.
      - intros Hp. eauto. }
    assert (Hi : i < shape0 X) by (apply nth_error_Some; congruence).
    assert (Zero : nth_error (_create_merged_predictions_array X) i
                   = Some F64.zero)
      by (apply nth_error_repeat; exact Hi).
    apply bind_ok in H. destruct H as (merged1 & H1 & H2).
    set (base := match merged1 with
                 | Some m => m
                 | None => _create_merged_predictions_array X
                 end) in *.
    assert (Stage1 :
              length base = shape0 X /\
              (~ In i indices1 -> nth_error base i = Some F64.zero) /\
              (In i indices1 -> leaf_for c1 x = None ->
               nth_error base i = Some F64.zero \/
               nth_error base i = Some F64.nan)).
    { destruct (0 <? length indices1) eqn:E1.
      - destruct (@child_merge_unrouted d c1 X indices1
                    (_create_merged_predictions_array X) merged1 F1 HX IH1
                    (zeros_length X) (np_where_NoDup _ _) Lt1 H1)
          as (m & -> & Lm & Hout & Hin).
        subst base. split; [exact Lm|]. split.
        + intros Hnot. rewrite (Hout _ Hnot). exact Zero.
        + intros Hi1 Hl. exact (Hin _ _ Hi1 Hx Hl).
      - inversion H1; subst merged1. subst base.
        split; [apply zeros_length|]. split; [intros _; exact Zero|].
        intros Hi1. apply length_zero_nil in E1. rewrite E1 in Hi1.
        destruct Hi1. }
    destruct Stage1 as (Lbase & Out1 & Got1).
    rewrite leaf_for_internal in Hleaf.
    destruct (0 <? length indices2) eqn:E2.
    + destruct (@child_merge_unrouted d c2 X indices2 base (Some a) F2 HX IH2
                  Lbase (np_where_NoDup _ _) Lt2 H2)
        as (m & [= <-] & Lm & Hout & Hin).
      destruct (F64.lt0 (signed_distance x normal origin)) eqn:T1.
      * assert (N2 : ~ In i indices2).
        { rewrite In2. rewrite (lt0_not_ge0 _ T1). discriminate. }
        rewrite (Hout _ N2). apply Got1; [apply In1; reflexivity | exact Hleaf].
      * destruct (F64.ge0 (signed_distance x normal origin)) eqn:T2.
        -- apply (Hin i x); [apply In2; reflexivity | exact Hx | exact Hleaf].
        -- assert (N2 : ~ In i indices2)
             by (rewrite In2; discriminate).
           rewrite (Hout _ N2). left. apply Out1. rewrite In1. discriminate.
    + inversion H2; subst merged1. subst base.
      destruct (F64.lt0 (signed_distance x normal origin)) eqn:T1.
      * apply Got1; [apply In1; reflexivity | exact Hleaf].
      * left. apply Out1. rewrite In1. discriminate.
Qed.

(** X17.  Rows that reach no leaf.  On a trained tree and an input with
    [n_dim] columns [predict] returns also when rows meet a signed
    distance that is not a number and so are routed to no leaf; the
    entry of such a row is 0.0 or NaN, and it is 0.0 for a row whose
    distance is not a number already at the root. *)
Theorem unrouted_rows_get_zero_or_nan (t : Node) (X : Matrix) :
  trained t ->
  n_dim t = Some (shape1 X) ->
  exists a,
    predict t X = Ok a /\
    (forall i x,
        nth_error (rows X) i = Some x ->
        leaf_for t x = None ->
        nth_error a i = Some F64.zero \/ nth_error a i = Some F64.nan) /\
    (forall i x normal origin,
        nth_error (rows X) i = Some x ->
        best_hyperplane_normal t = Some normal ->
        best_hyperplane_origin t = Some origin ->
        F64.is_nan (signed_distance x normal origin) = true ->
        leaf_for t x = None /\ nth_error a i = Some F64.zero).
Proof.
  intros Ht Hd.
  destruct (trained_fitted Ht) as [d F].
  pose proof (@fitted_for_input _ d t X F Hd) as FX.
  destruct (@predict_rec_fitted _ _ hooks _ _ FX X eq_refl) as (r & Hr & Q).
  destruct (fitted_posterior F) as (po & Hpo).
  assert (Hpred : predict t X
                  = Ok (match r with
                        | Some a => a
                        | None => _create_merged_predictions_array X
                        end)).
  { unfold predict, _ensure_is_fitted. rewrite Hpo.
    rewrite (proj2 (opt_nat_eqb_true _ _) Hd). cbn [negb bind].
    rewrite Hr. cbn [bind]. destruct r; reflexivity. }
  eexists. split; [exact Hpred|].
  assert (Zero : forall i x, nth_error (rows X) i = Some x ->
                   nth_error (_create_merged_predictions_array X) i
                   = Some F64.zero).
  { intros i x Hx. apply nth_error_repeat. apply nth_error_Some.
    unfold shape0. congruence. }
  split.
  - intros i x Hx Hleaf. destruct r as [a|].
    + exact (@predict_rec_unrouted _ _ FX X a eq_refl Hr i x Hx Hleaf).
    + left. exact (Zero _ _ Hx).
  - intros i x normal origin Hx Hbn Hbo Hnan.
    destruct (nan_neither _ Hnan) as [T1 T2].
    destruct FX as [pp pr lvl nd po'
                   |pp pr lvl po' c1 c2 normal' origin' Ln Lo F1 F2];
      simpl in Hbn, Hbo; [discriminate|].
    inversion Hbn; subst normal'. inversion Hbo; subst origin'.
    assert (Hleaf : leaf_for
                      (mkNode pp pr lvl (Some (shape1 X)) (Some po')
                              (Some c1) (Some c2) (Some normal) (Some origin))
                      x = None)
      by (rewrite leaf_for_internal, T1, T2; reflexivity).
    split; [exact Hleaf|].
    destruct r as [a|]; [|exact (Zero _ _ Hx)].
    rewrite predict_internal in Hr.
    apply bind_ok in Hr. destruct Hr as (idx & Hidx & Hr).
    apply bind_ok in Hidx. destruct Hidx as (ps & Hps & Hidx).
    inversion Hidx; subst idx; clear Hidx. cbn [fst snd] in Hr.
    destruct (projections_spec _ _ _ Hps) as (_ & _ & Hlen & Hrow).
    assert (N1 : ~ In i (np_where F64.lt0 ps)).
    { rewrite np_where_In. rewrite (Hrow _ _ Hx).
      intros (p & [= <-] & Hp). congruence. }
    assert (N2 : ~ In i (np_where F64.ge0 ps)).
    { rewrite np_where_In. rewrite (Hrow _ _ Hx).
      intros (p & [= <-] & Hp). congruence. }
    assert (Lt1 : forall j, In j (np_where F64.lt0 ps) -> j < shape0 X)
      by (intros j Hj; apply np_where_lt in Hj; congruence).
    assert (Lt2 : forall j, In j (np_where F64.ge0 ps) -> j < shape0 X)
      by (intros j Hj; apply np_where_lt in Hj; congruence).
    apply bind_ok in Hr. destruct Hr as (merged1 & H1 & H2).
    assert (Stage1 :
              length (match merged1 with
                      | Some m => m
                      | None => _create_merged_predictions_array X
                      end) = shape0 X /\
              nth_error (match merged1 with
                         | Some m => m
                         | None => _create_merged_predictions_array X
                         end) i = Some F64.zero).
    { destruct (0 <? length (np_where F64.lt0 ps)).
      - destruct (@child_merge_unrouted (shape1 X) c1 X _
                    (_create_merged_predictions_array X) merged1 F1 eq_refl
                    (@predict_rec_unrouted _ _ F1)
                    (zeros_length X) (np_where_NoDup _ _) Lt1 H1)
          as (m & -> & Lm & Hout & _).
        split; [exact Lm|]. rewrite (Hout _ N1). exact (Zero _ _ Hx).
      - inversion H1; subst merged1.
        split; [apply zeros_length | exact (Zero _ _ Hx)]. }
    destruct Stage1 as [Lbase Zbase].
    destruct (0 <? length (np_where F64.ge0 ps)).
    + destruct (@child_merge_unrouted (shape1 X) c2 X _ _ (Some a) F2 eq_refl
                  (@predict_rec_unrouted _ _ F2)
                  Lbase (np_where_NoDup _ _) Lt2 H2)
        as (m & [= <-] & Lm & Hout & _).
      rewrite (Hout _ N2). exact Zbase.
    + inversion H2; subst merged1. exact Zbase.
Qed.

End MoreFacts.

(** * Facts about the caller's input *)

Section InputFacts.

Variables Params Label : Type.
Variable hooks : ModelHooks Params Label.
Variable optimizer : Optimizer Params Label.
Variable format_float : float -> string.
Variable none_matmul_error : exception.

Local Abbreviation Node := (Node Params).
Local Abbreviation trained := (trained hooks optimizer format_float).
Local Abbreviation predict_input := (predict_input hooks none_matmul_error).

Lemma to_uint_not_nil (n : nat) : Nat.to_uint n <> Decimal.Nil.
Proof.
  intros Hn. pose proof (DecimalNat.Unsigned.of_to n) as H.
  rewrite Hn in H. simpl in H. subst n. discriminate Hn.
Qed.

Lemma format_nat_inj (i j : nat) : format_nat i = format_nat j -> i = j.
Proof.
  unfold format_nat. intros H.
  apply DecimalNat.Unsigned.to_uint_inj.
  assert (E : NilZero.uint_of_string (NilZero.string_of_uint (Nat.to_uint i))
              = NilZero.uint_of_string (NilZero.string_of_uint (Nat.to_uint j)))
    by (rewrite H; reflexivity).
  rewrite !NilZero.usu in E by apply to_uint_not_nil.
  inversion E. reflexivity.
Qed.

Lemma NoDup_map_injective {A B : Type} (g : A -> B) (l : list A) :
  (forall x y, g x = g y -> x = y) -> NoDup l -> NoDup (map g l).
Proof.
  intros Hinj. induction 1 as [|x l Hx Hnd IH]; simpl; constructor; auto.
  intros Hin. apply in_map_iff in Hin. destruct Hin as (z & Hz & Hin).
  apply Hinj in Hz. subst. contradiction.
Qed.

Lemma feature_names_spec (d : nat) :
  let names := map feature_name (seq 0 d) in
  length names = d /\ NoDup names /\
  forall i, i < d -> nth_error names i = Some (feature_name i).
Proof.
  cbv zeta. split; [rewrite length_map, length_seq; reflexivity|]. split.
  - apply NoDup_map_injective; [|apply seq_NoDup].
    intros i j H. unfold feature_name in H. inversion H.
    apply format_nat_inj. assumption.
  - intros i Hi. rewrite nth_error_map.
    rewrite nth_error_seq. destruct (Nat.ltb_spec i d); [reflexivity | lia].
Qed.

(** X12.  Input normalisation.  [_normalize_data_and_feature_names] turns a
    1-D list or array into a single row, a scalar into a 1 x 1 array, and
    a data frame into its values with its column labels as feature names.
    For every other input the feature names are [x0], [x1], ..., one per
    column and pairwise distinct. *)
Theorem normalized_input_shape_and_names (X : array_like) (M : Matrix) :
  fst (_normalize_data_and_feature_names X) = Some M ->
  (forall a, X = Array1D a ->
             shape0 M = 1 /\ shape1 M = length a /\ rows M = [a]) /\
  (forall v, X = PyScalar v ->
             shape0 M = 1 /\ shape1 M = 1 /\ rows M = [[v]]) /\
  (forall columns values,
      X = DataFrame columns values ->
      M = values /\
      snd (_normalize_data_and_feature_names X) = Some columns) /\
  ((forall columns values, X <> DataFrame columns values) ->
   exists names,
     snd (_normalize_data_and_feature_names X) = Some names /\
     length names = shape1 M /\ NoDup names /\
     forall i, i < shape1 M -> nth_error names i = Some (feature_name i)).
Proof.
  intros H. split; [|split; [|split]].
  - intros a ->. simpl in H. inversion H; subst. repeat split.
  - intros v ->. simpl in H. inversion H; subst. repeat split.
  - intros columns values ->. simpl in H. inversion H; subst. split; reflexivity.
  - intros Hnf.
    destruct X as [|columns values|v|a|X']; simpl in H; try discriminate.
    + exfalso. exact (Hnf columns values eq_refl).
    + inversion H; subst. eexists. split; [reflexivity|].
      apply feature_names_spec.
    + inversion H; subst. eexists. split; [reflexivity|].
      apply feature_names_spec.
    + inversion H; subst. eexists. split; [reflexivity|].
      apply feature_names_spec.
Qed.

(** X13.  A flat list is one sample, not a list of samples.  On a trained tree
    [predict] of a 1-D list of length [n_dim] returns a single prediction,
    that of the leaf the list is routed to as one row; a 1-D list of any
    other length raises the bad-dimensions ValueError, also when it was
    meant as that many one-feature samples; and a scalar is treated as the
    1-D list holding it. *)
Theorem predict_reads_a_flat_list_as_one_sample (t : Node) (a : list float) :
  trained t ->
  (n_dim t = Some (length a) ->
   exists v,
     predict_input t (Array1D a) = Ok [v] /\
     forall l, leaf_for t a = Some l -> predict_leaf_of hooks l = Ok v) /\
  (n_dim t <> Some (length a) ->
   predict_input t (Array1D a)
   = Raise (ValueError (bad_dims_msg (n_dim t) (length a)))) /\
  (forall v, predict_input t (PyScalar v) = predict_input t (Array1D [v])).
Proof.
  intros Ht. destruct (trained_fitted Ht) as [d F].
  split; [|split].
  - intros Hd. unfold predict_input. simpl.
    destruct (predict_fitted hooks (mkMatrix (length a) [a]) F Hd)
      as (p & Hp & Lp & Qp).
    unfold shape0 in Lp. simpl in Lp.
    destruct p as [|v [|v' p']]; try discriminate.
    exists v. split; [exact Hp|].
    intros l Hl.
    destruct (Qp 0 a l eq_refl Hl) as (po & Hpo & Hn).
    unfold predict_leaf_of. rewrite Hpo. simpl in Hn. congruence.
  - intros Hd. unfold predict_input. simpl.
    unfold predict, _ensure_is_fitted.
    destruct (fitted_posterior F) as (po & ->).
    unfold shape1. simpl n_cols.
    destruct (opt_nat_eqb (n_dim t) (length a)) eqn:E; [|reflexivity].
    apply opt_nat_eqb_true in E. contradiction.
  - reflexivity.
Qed.

(** ** The classification target check *)

Lemma insert_unique_In (x : Z) (l : list Z) (z : Z) :
  In z (insert_unique x l) <-> z = x \/ In z l.
Proof.
  induction l as [|h t IH]; simpl; [intuition|].
  destruct (Z.ltb_spec x h); [simpl; intuition|].
  destruct (Z.eqb_spec x h); simpl; [subst; intuition|].
  rewrite IH. intuition.
Qed.

Lemma insert_unique_sorted (x : Z) (l : list Z) :
  StronglySorted Z.lt l -> StronglySorted Z.lt (insert_unique x l).
Proof.
  induction 1 as [|h t Hs IH Hall]; simpl; [repeat constructor|].
  destruct (Z.ltb_spec x h).
  - constructor; [constructor; assumption|].
    constructor; [assumption|].
    eapply Forall_impl; [|exact Hall]. intros; lia.
  - destruct (Z.eqb_spec x h); [constructor; assumption|].
    constructor; [exact IH|].
    apply Forall_forall. intros z Hz. apply insert_unique_In in Hz.
    destruct Hz as [-> | Hz]; [lia|].
    rewrite Forall_forall in Hall. auto.
Qed.

Lemma np_unique_spec (y : list Z) :
  StronglySorted Z.lt (np_unique y) /\
  forall z, In z (np_unique y) <-> In z y.
Proof.
  induction y as [|x y [IHs IHi]]; simpl; [split; [constructor | tauto]|].
  split; [apply insert_unique_sorted; exact IHs|].
  intros z. rewrite insert_unique_In, IHi. intuition.
Qed.

Lemma arange_from_sorted (n k : nat) :
  StronglySorted Z.lt (map Z.of_nat (seq k n)).
Proof.
  revert k. induction n as [|n IH]; intros k; simpl; constructor; [apply IH|].
  apply Forall_forall. intros z Hz. apply in_map_iff in Hz.
  destruct Hz as (i & <- & Hi). apply in_seq in Hi. lia.
Qed.

Lemma np_arange_spec (n : nat) :
  StronglySorted Z.lt (np_arange n) /\ length (np_arange n) = n /\
  forall z, In z (np_arange n) <-> (0 <= z < Z.of_nat n)%Z.
Proof.
  unfold np_arange. split; [apply arange_from_sorted|].
  split; [rewrite length_map, length_seq; reflexivity|].
  intros z. rewrite in_map_iff. split.
  - intros (i & <- & Hi). apply in_seq in Hi. lia.
  - intros Hz. exists (Z.to_nat z). split; [lia|]. apply in_seq. lia.
Qed.

Lemma sorted_same_elements (l1 : list Z) :
  forall l2,
    StronglySorted Z.lt l1 -> StronglySorted Z.lt l2 ->
    (forall z, In z l1 <-> In z l2) -> l1 = l2.
Proof.
  induction l1 as [|a l1 IH]; intros l2 S1 S2 E.
  - destruct l2 as [|b l2]; [reflexivity|].
    exfalso. apply (E b). simpl; auto.
  - destruct l2 as [|b l2]; [exfalso; apply (E a); simpl; auto|].
    inversion S1 as [|? ? S1' A1]; inversion S2 as [|? ? S2' A2]; subst.
    rewrite Forall_forall in A1, A2.
    assert (a = b).
    { destruct (proj1 (E a) (or_introl eq_refl)) as [-> | Ha]; [reflexivity|].
      destruct (proj2 (E b) (or_introl eq_refl)) as [-> | Hb]; [reflexivity|].
      specialize (A1 _ Hb). specialize (A2 _ Ha). lia. }
    subst b. f_equal. apply IH; auto.
    intros z. split; intros Hz.
    + destruct (proj1 (E z) (or_intror Hz)) as [<- | H]; [|exact H].
      specialize (A1 _ Hz). lia.
    + destruct (proj2 (E z) (or_intror Hz)) as [<- | H]; [|exact H].
      specialize (A2 _ Hz). lia.
Qed.

Lemma all_equal_combine (a : list Z) :
  forall b, length a = length b ->
    (forallb (fun c => c)
             (map (fun ab => (fst ab =? snd ab)%Z) (combine a b)) = true
     <-> a = b).
Proof.
  induction a as [|x a IH]; intros [|z b] Hlen; simpl in *;
    try discriminate; [tauto|].
  rewrite andb_true_iff, Z.eqb_eq, (IH b) by lia.
  split; [intros [-> ->]; reflexivity | intros [=]; auto].
Qed.

Lemma labels_are_the_classes (n : nat) (y : list Z) :
  (forall z, In z y <-> (0 <= z < Z.of_nat n)%Z) <->
  np_unique y = np_arange n.
Proof.
  destruct (np_unique_spec y) as [Su Iu].
  destruct (np_arange_spec n) as (Sr & _ & Ir).
  split.
  - intros H. apply sorted_same_elements; auto.
    intros z. rewrite Iu, Ir. apply H.
  - intros H z. rewrite <- Iu, H. apply Ir.
Qed.

(** X14.  The target check of classification.  [_check_classification_target]
    accepts integer targets exactly when the labels that occur are the
    classes [0 .. n_classes-1], each of them at least once, with two
    exceptions that broadcasting lets through: with an empty prior any
    non-empty target of one repeated label, and with a one-class prior
    the empty target. *)
Theorem classification_target_check (n_classes : nat) (y : list Z) :
  _check_classification_target n_classes y = true <->
  (forall z, In z y <-> (0 <= z < Z.of_nat n_classes)%Z)
  \/ (n_classes = 0 /\ exists v, In v y /\ forall z, In z y -> z = v)
  \/ (n_classes = 1 /\ y = []).
Proof.
  destruct (np_unique_spec y) as [Su Iu].
  destruct (np_arange_spec n_classes) as (Sr & Lr & Ir).
  pose proof (labels_are_the_classes n_classes y) as Set_eq.
  unfold _check_classification_target, np_equal.
  destruct (length (np_unique y) =? length (np_arange n_classes)) eqn:Elen.
  - apply Nat.eqb_eq in Elen. rewrite (all_equal_combine _ _ Elen).
    rewrite Set_eq. split; [auto|].
    intros [H | [(-> & v & Hv & Hall) | (-> & ->)]]; [exact H | |].
    + exfalso. apply Iu in Hv.
      destruct (np_unique y); [destruct Hv | discriminate].
    + discriminate.
  - apply Nat.eqb_neq in Elen.
    assert (No_set : ~ (forall z, In z y <-> (0 <= z < Z.of_nat n_classes)%Z))
      by (rewrite Set_eq; intros H; rewrite H in Elen; congruence).
    destruct (np_unique y) as [|u1 [|u2 us]] eqn:Eu.
    + (* no target at all *)
      assert (Hy : y = []).
      { destruct y as [|z y']; [reflexivity|].
        exfalso. apply (Iu z). simpl; auto. }
      destruct (np_arange n_classes) as [|r1 [|r2 rs]] eqn:Er;
        simpl in Lr, Elen.
      * congruence.
      * simpl. split; [intros _; right; right; split; [lia | exact Hy]
                      | reflexivity].
      * split; [discriminate|].
        intros [H | [(Hn & _) | (Hn & _)]]; [contradiction | lia | lia].
    + (* one distinct target *)
      assert (Hv : In u1 y /\ forall z, In z y -> z = u1).
      { split; [apply Iu; simpl; auto|].
        intros z Hz. apply Iu in Hz. destruct Hz as [<- | []]. reflexivity. }
      destruct (np_arange n_classes) as [|r1 [|r2 rs]] eqn:Er;
        simpl in Lr, Elen.
      * simpl. split; [intros _; right; left; split; [lia | eauto]
                      | reflexivity].
      * congruence.
      * assert (H0 : In 0%Z (r1 :: r2 :: rs)) by (apply Ir; lia).
        assert (H1 : In 1%Z (r1 :: r2 :: rs)) by (apply Ir; lia).
        split.
        -- intros Hall. exfalso.
           rewrite forallb_forall in Hall.
           assert (E0 : (u1 =? 0)%Z = true)
             by (apply Hall; apply in_map_iff; exists 0%Z; auto).
           assert (E1 : (u1 =? 1)%Z = true)
             by (apply Hall; apply in_map_iff; exists 1%Z; auto).
           lia.
        -- intros [H | [(Hn & _) | (Hn & Hy)]]; [contradiction | lia |].
           subst y. destruct Hv as [[] _].
    + (* at least two distinct targets *)
      assert (Hlt : (u1 < u2)%Z).
      { inversion Su as [|? ? _ A]; subst. rewrite Forall_forall in A.
        apply A. simpl; auto. }
      assert (In1 : In u1 y) by (apply Iu; simpl; auto).
      assert (In2 : In u2 y) by (apply Iu; simpl; auto).
      destruct (np_arange n_classes) as [|r1 [|r2 rs]] eqn:Er;
        simpl in Lr.
      * split; [discriminate|].
        intros [H | [(_ & v & _ & Hall) | (Hn & _)]];
          [contradiction | | lia].
        rewrite (Hall _ In1) in Hlt. rewrite (Hall _ In2) in Hlt. lia.
      * assert (Hr : r1 = 0%Z).
        { assert (H : (0 <= r1 < Z.of_nat n_classes)%Z)
            by (apply Ir; simpl; auto). lia. }
        subst r1. simpl. split.
        -- intros Hall. exfalso.
           apply andb_true_iff in Hall. destruct Hall as [E1 Hall].
           apply andb_true_iff in Hall. destruct Hall as [E2 _]. lia.
        -- intros [H | [(Hn & _) | (_ & Hy)]]; [contradiction | lia |].
           subst y. destruct In1.
      * split; [discriminate|].
        intros [H | [(Hn & _) | (Hn & _)]]; [contradiction | lia | lia].
Qed.

End InputFacts.

(** * The engine on concrete data *)

Section Runs.

Import Example.

Lemma tree4_run : tree4 = Ok t4.
Proof. vm_compute. reflexivity. Qed.

Lemma tree5_run : tree5 = Ok t5.
Proof. vm_compute. reflexivity. Qed.

Lemma tree_deep_run : tree_deep false = Ok t_deep.
Proof. vm_compute. reflexivity. Qed.

Lemma t4_trained : trained dirichlet split_at_3 format_float t4.
Proof.
  exact (@trained_fit _ _ dirichlet split_at_3 format_float F64.one
           (map f [2; 1]%Z) 0 X4 y4 F64.zero false t4 tree4_run).
Qed.

Lemma t5_trained : trained dirichlet split_at_2 format_float t5.
Proof.
  exact (@trained_fit _ _ dirichlet split_at_2 format_float F64.one
           (map f [1; 1; 1]%Z) 0 X5 y5 F64.zero false t5 tree5_run).
Qed.

Lemma t_deep_trained :
  trained dirichlet second_row_optimizer format_float t_deep.
Proof.
  exact (@trained_fit _ _ dirichlet second_row_optimizer format_float
           F64.one (map f [1; 1]%Z) 0 X4 y4' F64.zero false t_deep
           tree_deep_run).
Qed.

(** C1 at three points that all lie behind the proposed hyperplane: the
    freshly constructed node stays a leaf. *)
Lemma fit_rejects_one_sided_split_witness :
  exists self',
    _fit dirichlet split_at_3 (root [2; 1]%Z) X3 y3 F64.zero = Ok self' /\
    best_hyperplane_normal self' = None /\
    child1 self' = None /\ child2 self' = None /\
    is_leaf self' = Ok true.
Proof.
  edestruct (@fit_rejects_one_sided_split Params Label dirichlet split_at_3
               (root [2; 1]%Z) X3 y3 F64.zero [f 1] [f 3])
    as (self' & H & Hn & _ & H1 & H2 & _ & _ & Hl).
  - reflexivity.
  - vm_compute. reflexivity.
  - right. vm_compute. reflexivity.
  - exists self'. repeat split; auto.
Defined.

(** C2 as stated fails on a row that is not a number: its signed
    distance is NaN, both comparisons are false, and the row is in
    neither index set. *)
Lemma nan_row_goes_to_no_child :
  exists indices1 indices2,
    _compute_child1_and_child2_indices t5 X_nan = Ok (indices1, indices2) /\
    nth_error (rows X_nan) 0 = Some [F64.nan] /\
    ~ (In 0 indices1 \/ In 0 indices2).
Proof.
  exists [1], [2]. split; [vm_compute; reflexivity|].
  split; [reflexivity|].
  simpl. intros [[H | []] | [H | []]]; discriminate.
Qed.

(** C2, amended, on the three rows of [X_nan] against the hyperplane
    stored at the root of [t5]: the row at distance [-2] goes to child1
    only, the row at distance [2] to child2 only.  And at fit time on
    the four training rows under the split at 3: child1 of [t4] is the
    child built from the three rows of negative distance, child2 the
    child built from the row at distance 0. *)
Lemma rows_with_a_distance_go_to_one_child_witness :
  projections X_nan [f 1] [f 2] = Ok [F64.nan; f (-2); f 2] /\
  (In 1 (np_where F64.lt0 [F64.nan; f (-2); f 2])
   /\ ~ In 1 (np_where F64.ge0 [F64.nan; f (-2); f 2])) /\
  (In 2 (np_where F64.ge0 [F64.nan; f (-2); f 2])
   /\ ~ In 2 (np_where F64.lt0 [F64.nan; f (-2); f 2])) /\
  exists c1 c2,
    child1 t4 = Some c1 /\ child2 t4 = Some c2 /\
    child_of_fit dirichlet split_at_3 (root [2; 1]%Z)
                 (column [0; 1; 2]%Z) [0; 1; 1] F64.zero = Ok c1 /\
    child_of_fit dirichlet split_at_3 (root [2; 1]%Z)
                 (column [3]%Z) [1] F64.zero = Ok c2.
Proof.
  assert (Hps : projections X_nan [f 1] [f 2] = Ok [F64.nan; f (-2); f 2])
    by (vm_compute; reflexivity).
  destruct (@rows_with_a_distance_go_to_one_child Params Label dirichlet
              split_at_2 X_nan [f 1] [f 2] _ Hps)
    as (_ & _ & _ & _ & _ & Hrow).
  split; [exact Hps|]. split; [|split].
  - destruct (Hrow 1 [f 0] eq_refl) as (H1 & H2 & Hboth & _).
    assert (Hin : In 1 (np_where F64.lt0 [F64.nan; f (-2); f 2]))
      by (apply H1; vm_compute; reflexivity).
    split; [exact Hin|]. intros H. apply Hboth. split; assumption.
  - destruct (Hrow 2 [f 4] eq_refl) as (H1 & H2 & Hboth & _).
    assert (Hin : In 2 (np_where F64.ge0 [F64.nan; f (-2); f 2]))
      by (apply H2; vm_compute; reflexivity).
    split; [exact Hin|]. intros H. apply Hboth. split; assumption.
  - assert (Hps4 : projections X4 [f 1] [f 3]
                   = Ok [f (-3); f (-2); f (-1); f 0])
      by (vm_compute; reflexivity).
    destruct (@rows_with_a_distance_go_to_one_child Params Label dirichlet
                split_at_3 X4 [f 1] [f 3] _ Hps4)
      as (_ & Hfit & _).
    destruct (Hfit (root [2; 1]%Z) t4 y4 F64.zero)
      as (X1 & X2 & y1 & y2 & c1 & c2 & HX1 & HX2 & Hy1 & Hy2
          & Hc1 & Hc2 & _ & _ & HC1 & HC2 & _).
    + reflexivity.
    + vm_compute. discriminate.
    + vm_compute. discriminate.
    + vm_compute. reflexivity.
    + vm_compute in HX1, HX2, Hy1, Hy2.
      injection HX1 as <-. injection HX2 as <-.
      injection Hy1 as <-. injection Hy2 as <-.
      exists c1, c2. repeat split; assumption.
Defined.

(** C3 on the root of [t4], an internal node, and on its pruned form. *)
Lemma leaf_iff_no_split_iff_no_children_witness :
  (is_leaf t4 = Ok false /\
   (best_hyperplane_normal t4 = None
    <-> child1 t4 = None /\ child2 t4 = None) /\
   (child1 t4 = None <-> child2 t4 = None)) /\
  exists t', _prune dirichlet t4 = Ok t' /\ paired t'.
Proof.
  destruct (@leaf_iff_no_split_iff_no_children Params Label dirichlet
              split_at_3 format_float) as (Hleaf & _ & _ & Hprune).
  split.
  - destruct (Hleaf t4 t4_trained) as (H1 & _ & H3 & H4).
    split; [exact H1|]. split; assumption.
  - eexists. split; [vm_compute; reflexivity|].
    eapply (Hprune t4); [simpl; auto | vm_compute; reflexivity].
Defined.

(** C4 as stated fails on a row that is not a number: the row is routed
    to no leaf, and its entry is the zero the result array was created
    with, which no leaf of the tree predicts. *)
Lemma nan_row_gets_no_leaf_prediction :
  predict dirichlet t5 X_nan = Ok [f 0; f 1; f 2] /\
  nth_error (rows X_nan) 0 = Some [F64.nan] /\
  leaf_for t5 [F64.nan] = None /\
  Forall (fun leaf => predict_leaf_of dirichlet leaf <> Ok (f 0))
         (leaves_of t5).
Proof.
  split; [vm_compute; reflexivity|]. split; [reflexivity|].
  split; [vm_compute; reflexivity|].
  repeat constructor; intros H; vm_compute in H; discriminate H.
Qed.

(** C4, amended, on [t5] and the rows of [X_nan]: the second and third
    entries are the predictions of the leaves these rows reach. *)
Lemma predict_keeps_row_order_witness :
  exists predictions,
    predict dirichlet t5 X_nan = Ok predictions /\
    length predictions = 3 /\
    nth_error predictions 1 = Some (f 1) /\
    nth_error predictions 2 = Some (f 2).
Proof.
  destruct (@predict_keeps_row_order Params Label dirichlet split_at_2
              format_float t5 X_nan t5_trained eq_refl)
    as (a & Ha & La & Hrow & _).
  exists a. split; [exact Ha|]. split; [exact La|]. split.
  - edestruct (Hrow 1 [f 0]) as (_ & _ & v & Hv & Hn);
      [reflexivity | vm_compute; reflexivity |].
    vm_compute in Hv. inversion Hv; subst. exact Hn.
  - edestruct (Hrow 2 [f 4]) as (_ & _ & v & Hv & Hn);
      [reflexivity | vm_compute; reflexivity |].
    vm_compute in Hv. inversion Hv; subst. exact Hn.
Defined.

(** C5 fails on the code.  Four training rows, the last three of class
    1, a prior [2, 1], and a split that isolates the last row: both
    children predict class 0 (their posteriors count the prior once
    each), so [_prune] collapses the root, whose own posterior predicts
    class 1.  Every training prediction changes from 0 to 1. *)
Theorem prune_changes_training_predictions :
  fit dirichlet split_at_3 format_float (root [2; 1]%Z) X4 y4 F64.zero false
    = Ok t4 /\
  predict dirichlet t4 X4 = Ok [f 0; f 0; f 0; f 0] /\
  depth_and_leaves t4 = Ok (1, 2) /\
  exists t4',
    _prune dirichlet t4 = Ok t4' /\
    depth_and_leaves t4' = Ok (0, 1) /\
    predict dirichlet t4' X4 = Ok [f 1; f 1; f 1; f 1] /\
    fit dirichlet split_at_3 format_float (root [2; 1]%Z) X4 y4 F64.zero true
      = Ok t4'.
Proof.
  split; [exact tree4_run|]. split; [vm_compute; reflexivity|].
  split; [vm_compute; reflexivity|].
  eexists. split; [vm_compute; reflexivity|].
  split; [vm_compute; reflexivity|].
  split; vm_compute; reflexivity.
Qed.

(** C6 on the deep tree, which pruning collapses to a root with two
    leaves. *)
Lemma prune_reaches_fixpoint_witness :
  _prune dirichlet t_deep = Ok t_deep_pruned /\
  _prune dirichlet t_deep_pruned = Ok t_deep_pruned /\
  depth_and_leaves t_deep = Ok (3, 4) /\
  depth_and_leaves t_deep_pruned = Ok (1, 2).
Proof.
  destruct (@prune_reaches_fixpoint Params Label dirichlet
              second_row_optimizer format_float t_deep t_deep_trained)
    as (t' & H1 & H2).
  assert (E : _prune dirichlet t_deep = Ok t_deep_pruned)
    by (vm_compute; reflexivity).
  rewrite E in H1. injection H1 as <-.
  split; [exact E|]. split; [exact H2|].
  split; vm_compute; reflexivity.
Defined.

(** C7 on the deep tree: four leaves, the deepest at level 3. *)
Lemma depth_and_leaves_counts_witness :
  depth_and_leaves t_deep = Ok (3, 4) /\
  length (leaves_of t_deep) = 4 /\
  exists leaf, In leaf (leaves_of t_deep) /\ level leaf = 3.
Proof.
  destruct (@depth_and_leaves_counts Params Label dirichlet
              second_row_optimizer format_float t_deep t_deep_trained)
    as (depth & leaves & H & Hl & _ & Hex & _).
  assert (E : depth_and_leaves t_deep = Ok (3, 4))
    by (vm_compute; reflexivity).
  rewrite E in H. injection H as Ed El.
  split; [exact E|]. split; [congruence|].
  rewrite <- Ed in Hex. exact Hex.
Defined.

(** C8 on the four training rows: the split at 3 leaves one row in
    front, and child2 is the fresh node with only its posterior set. *)
Lemma single_sample_partition_is_direct_leaf_witness :
  exists c,
    child2 t4 = Some c /\
    c = single_sample_child dirichlet (root [2; 1]%Z) 1 /\
    n_dim c = None /\ child1 c = None /\ child2 c = None /\
    is_leaf c = Ok true.
Proof.
  edestruct (@single_sample_partition_is_direct_leaf Params Label dirichlet
               split_at_3 (root [2; 1]%Z) t4 X4 y4 F64.zero [f 1] [f 3])
    as (_ & _ & _ & H2).
  - reflexivity.
  - vm_compute. reflexivity.
  - vm_compute. discriminate.
  - vm_compute. discriminate.
  - vm_compute. reflexivity.
  - edestruct (H2 3) as (yi & c & Hy & Hc & Hdef & _ & Hd & H1 & H2' & _ & Hl);
      [vm_compute; reflexivity|].
    vm_compute in Hy. inversion Hy; subst yi.
    exists c. repeat split; assumption.
Defined.

(** C9 on a freshly constructed node and on a tree trained on one
    column that is asked about two. *)
Lemma predict_value_errors_witness :
  predict dirichlet (root [2; 1]%Z) X4
  = Raise (ValueError
             "Cannot predict on an untrained model; call .fit() first") /\
  predict dirichlet t4 (mkMatrix 2 [[f 0; f 0]])
  = Raise (ValueError "Bad input dimensions: Expected 1, got 2") /\
  exists a, predict dirichlet t4 X4 = Ok a /\ length a = 4.
Proof.
  split; [|split].
  - exact (proj1 (proj2 (@predict_value_errors Params Label dirichlet
                           split_at_3 format_float (root [2; 1]%Z) X4
                           (or_introl eq_refl))) eq_refl).
  - apply (proj1 (proj2 (proj2 (@predict_value_errors Params Label dirichlet
                           split_at_3 format_float t4
                           (mkMatrix 2 [[f 0; f 0]])
                           (or_intror t4_trained))))).
    + discriminate.
    + discriminate.
  - apply (proj1 (proj2 (proj2 (proj2 (@predict_value_errors Params Label
                           dirichlet split_at_3 format_float t4 X4
                           (or_intror t4_trained)))))).
    + discriminate.
    + reflexivity.
Defined.

(** C10 on a freshly constructed node. *)
Lemma is_leaf_unfitted_raises_witness :
  is_leaf (root [2; 1]%Z)
  = Raise (ValueError
             "Cannot predict on an untrained model; call .fit() first").
Proof.
  exact (@is_leaf_unfitted_raises Params (root [2; 1]%Z) eq_refl).
Defined.

(** ** Further runs *)

Lemma tree3_run : tree3 = Ok t3.
Proof. vm_compute. reflexivity. Qed.

Lemma t_deep_prune_run : _prune dirichlet t_deep = Ok t_deep_pruned.
Proof. vm_compute. reflexivity. Qed.

(** In the deep tree the children of the root disagree, and below the
    root every node and both its children predict class 0. *)
Lemma t_deep_coherent : coherent dirichlet t_deep.
Proof.
  repeat (first
    [ apply coherent_leaf; reflexivity
    | eapply coherent_node;
      [ reflexivity | reflexivity | | |
        intros p1 p2 H1 H2 E; vm_compute in H1, H2;
        injection H1 as <-; injection H2 as <-;
        first [ discriminate E | split; vm_compute; reflexivity ] ] ]).
Qed.

(** X1 on the four training rows: [delta = 0] and [delta = 1] build the
    same tree. *)
Lemma fit_ignores_delta_witness :
  fit dirichlet split_at_3 format_float (root [2; 1]%Z) X4 y4 F64.zero false
  = fit dirichlet split_at_3 format_float (root [2; 1]%Z) X4 y4 F64.one false.
Proof.
  apply (proj2 (@fit_ignores_delta Params Label dirichlet split_at_3
                  format_float (root [2; 1]%Z) X4 y4 F64.zero F64.one false));
    vm_compute; reflexivity.
Defined.

(** X2 on [t4]: the root is at level 0 and its second child at level 1. *)
Lemma children_are_one_level_down_witness :
  level t4 = 0 /\
  exists c, child2 t4 = Some c /\
            level c = 1 /\ partition_prior c = F64.one.
Proof.
  destruct (@children_are_one_level_down Params Label dirichlet split_at_3
              format_float) as [Hroot Hchild].
  split; [exact (proj1 (Hroot F64.one (map f [2; 1]%Z) 0 X4 y4 F64.zero false
                         t4 tree4_run))|].
  eexists. split; [vm_compute; reflexivity|].
  match goal with
  | |- level ?c = _ /\ _ =>
      exact (Hchild t4 c t4_trained (or_intror eq_refl))
  end.
Defined.

(** X3 on the deep tree: four rows, and no more than four leaves. *)
Lemma fitted_tree_is_no_larger_than_the_data_witness :
  exists depth leaves,
    depth_and_leaves t_deep = Ok (depth, leaves) /\
    1 <= leaves /\ leaves <= 4 /\ depth + 1 <= leaves.
Proof.
  destruct (@fitted_tree_is_no_larger_than_the_data Params Label dirichlet
              second_row_optimizer format_float F64.one (map f [1; 1]%Z) 0
              X4 y4' F64.zero false t_deep tree_deep_run)
    as (depth & leaves & H & H1 & H2 & _ & H4 & _).
  exists depth, leaves. repeat split; assumption.
Defined.

(** X4 on a freshly constructed node. *)
Lemma unfitted_node_answers_no_query_witness :
  depth_and_leaves (root [2; 1]%Z)
  = Raise (ValueError
             "Cannot predict on an untrained model; call .fit() first") /\
  _prune dirichlet (root [2; 1]%Z)
  = Raise (ValueError
             "Cannot predict on an untrained model; call .fit() first").
Proof.
  exact (@unfitted_node_answers_no_query Params Label dirichlet
           (root [2; 1]%Z) eq_refl).
Defined.

(** X5 on the deep tree and its pruned form. *)
Lemma prune_only_collapses_witness :
  prunes_to dirichlet t_deep t_deep_pruned /\
  posterior t_deep_pruned = posterior t_deep /\
  level t_deep_pruned = level t_deep.
Proof.
  destruct (@prune_only_collapses Params Label dirichlet second_row_optimizer
              format_float t_deep t_deep_pruned t_deep_trained
              t_deep_prune_run)
    as (H1 & H2 & _ & H3 & _).
  repeat split; assumption.
Defined.

(** X6 on the deep tree: its pruned form has nothing left to collapse,
    the tree itself has. *)
Lemma prune_leaves_nothing_to_collapse_witness :
  fully_pruned dirichlet t_deep_pruned /\ ~ fully_pruned dirichlet t_deep.
Proof.
  destruct (@prune_leaves_nothing_to_collapse Params Label dirichlet
              second_row_optimizer format_float t_deep t_deep_trained)
    as [(t' & H & Hfull) Hiff].
  rewrite t_deep_prune_run in H. injection H as <-.
  split; [exact Hfull|].
  intros Hno. apply Hiff in Hno. rewrite t_deep_prune_run in Hno.
  vm_compute in Hno. discriminate Hno.
Defined.

(** X7 on the deep tree: pruning takes it from four leaves to two. *)
Lemma prune_never_grows_the_tree_witness :
  exists depth leaves depth' leaves',
    depth_and_leaves t_deep = Ok (depth, leaves) /\
    depth_and_leaves t_deep_pruned = Ok (depth', leaves') /\
    depth' <= depth /\ leaves' <= leaves.
Proof.
  destruct (@prune_never_grows_the_tree Params Label dirichlet
              second_row_optimizer format_float t_deep t_deep_pruned
              t_deep_trained t_deep_prune_run)
    as (d & l & d' & l' & H1 & H2 & H3 & H4 & _).
  exists d, l, d', l'. repeat split; assumption.
Defined.

(** X8 on the deep tree, which is coherent: the first and the last
    training row are predicted alike before and after pruning. *)
Lemma prune_keeps_predictions_of_coherent_trees_witness :
  exists a a',
    predict dirichlet t_deep X4 = Ok a /\
    predict dirichlet t_deep_pruned X4 = Ok a' /\
    nth_error a' 0 = nth_error a 0 /\
    nth_error a' 3 = nth_error a 3.
Proof.
  destruct (@prune_keeps_predictions_of_coherent_trees Params Label dirichlet
              second_row_optimizer format_float t_deep t_deep_pruned X4
              t_deep_trained t_deep_coherent t_deep_prune_run eq_refl)
    as (a & a' & Ha & Ha' & _ & Hrow).
  exists a, a'. split; [exact Ha|]. split; [exact Ha'|]. split.
  - eapply (Hrow 0 [f 0]); [reflexivity | vm_compute; reflexivity].
  - eapply (Hrow 3 [f 3]); [reflexivity | vm_compute; reflexivity].
Defined.

(** X9 on the tree of the three points, a single leaf: every row of the
    four-point data is answered with class 0. *)
Lemma tree_without_split_broadcasts_witness :
  is_leaf t3 = Ok true /\
  predict dirichlet t3 X4 = Ok [f 0; f 0; f 0; f 0].
Proof.
  pose proof (proj2 (@tree_without_split_broadcasts Params Label dirichlet
                       split_at_3 format_float F64.one (map f [2; 1]%Z) 0
                       X3 y3 F64.zero false t3 tree3_run) eq_refl X4 eq_refl)
    as H.
  split; [reflexivity|].
  rewrite H. vm_compute. reflexivity.
Defined.

(** X10 on [t4] fitted again on the three points that lie on one side of
    the proposed split: the tree keeps the split it had. *)
Lemma fit_never_removes_a_split_witness :
  exists t',
    _fit dirichlet split_at_3 t4 X3 y3 F64.zero = Ok t' /\
    is_leaf t' = Ok false /\
    child1 t' = child1 t4 /\ child2 t' = child2 t4.
Proof.
  eexists. split; [vm_compute; reflexivity|].
  match goal with
  | |- is_leaf ?t = _ /\ _ =>
      destruct (@fit_never_removes_a_split Params Label dirichlet split_at_3
                  t4 t X3 y3 F64.zero) as (H1 & _ & H3);
        [vm_compute; reflexivity|]
  end.
  split; [apply H3; reflexivity|].
  destruct H1 as [(_ & _ & H & H') | (_ & _ & H & _)].
  - split; [exact H | exact H'].
  - split; reflexivity.
Defined.

(** X11 on [t4], and on a proposal in the plane for data on a line. *)
Lemma fit_stores_hyperplanes_of_the_data_dimension_witness :
  n_dim t4 = Some 1 /\
  exists msg,
    _fit dirichlet split_in_the_plane (root [2; 1]%Z) X4 y4 F64.zero
    = Raise (ValueError msg).
Proof.
  split.
  - exact (proj1 (proj1 (@fit_stores_hyperplanes_of_the_data_dimension
                           Params Label dirichlet split_at_3 format_float
                           F64.one (map f [2; 1]%Z) 0 X4 y4 F64.zero false)
                        t4 tree4_run)).
  - apply (proj2 (@fit_stores_hyperplanes_of_the_data_dimension
                    Params Label dirichlet split_in_the_plane format_float
                    F64.one (map f [2; 1]%Z) 0 X4 y4 F64.zero false)
                 (root [2; 1]%Z) [f 1; f 1] [f 0; f 0]).
    + reflexivity.
    + left. vm_compute. discriminate.
Defined.

(** X12 on a flat list of three numbers. *)
Lemma normalized_input_shape_and_names_witness :
  exists names,
    snd (_normalize_data_and_feature_names (Array1D [f 1; f 2; f 3]))
    = Some names /\
    length names = 3 /\ NoDup names /\ nth_error names 2 = Some "x2"%string.
Proof.
  destruct (@normalized_input_shape_and_names (Array1D [f 1; f 2; f 3])
              (mkMatrix 3 [[f 1; f 2; f 3]]) eq_refl)
    as (_ & _ & _ & H).
  destruct H as (names & H1 & H2 & H3 & H4); [discriminate|].
  exists names. split; [exact H1|]. split; [exact H2|]. split; [exact H3|].
  apply (H4 2). vm_compute. lia.
Defined.

(** X13 on [t4], trained on one feature: a list of one number is one
    sample, a list of four numbers is a sample of the wrong width. *)
Lemma predict_reads_a_flat_list_as_one_sample_witness :
  predict_input dirichlet none_matmul t4 (Array1D [f 5]) = Ok [f 0] /\
  predict_input dirichlet none_matmul t4 (Array1D [f 0; f 1; f 2; f 3])
  = Raise (ValueError "Bad input dimensions: Expected 1, got 4").
Proof.
  split.
  - destruct (@predict_reads_a_flat_list_as_one_sample Params Label dirichlet
                split_at_3 format_float none_matmul t4 [f 5] t4_trained)
      as (H & _).
    destruct (H eq_refl) as (v & Hv & Hleaf).
    rewrite Hv.
    assert (L : exists l, leaf_for t4 [f 5] = Some l /\
                          predict_leaf_of dirichlet l = Ok (f 0))
      by (eexists; split; vm_compute; reflexivity).
    destruct L as (l & Hl & Hp).
    rewrite (Hleaf l Hl) in Hp. injection Hp as ->. reflexivity.
  - destruct (@predict_reads_a_flat_list_as_one_sample Params Label dirichlet
                split_at_3 format_float none_matmul t4 [f 0; f 1; f 2; f 3]
                t4_trained)
      as (_ & H & _).
    apply H. vm_compute. discriminate.
Defined.

(** X14 on the targets of the five points, and on one repeated label
    under an empty prior. *)
Lemma classification_target_check_witness :
  _check_classification_target 3 [1; 1; 0; 2; 2]%Z = true /\
  _check_classification_target 0 [7; 7]%Z = true.
Proof.
  split.
  - apply (proj2 (classification_target_check 3 [1; 1; 0; 2; 2]%Z)).
    left. intros z. simpl. lia.
  - apply (proj2 (classification_target_check 0 [7; 7]%Z)).
    right. left. split; [reflexivity|].
    exists 7%Z. split; [simpl; auto|].
    intros z Hz. simpl in Hz. lia.
Defined.

(** X15 on the four training rows, with pruning and with progress
    lines; and on a single point, where the progress line fails. *)
Lemma fit_succeeds_on_well_formed_input_witness :
  (exists t,
      fit_verbose dirichlet split_at_3 format_float (root [2; 1]%Z)
                  X4 y4 F64.one true true = Ok t /\
      fit dirichlet split_at_3 format_float (root [2; 1]%Z)
          X4 y4 F64.one true = Ok t) /\
  (exists t,
      fit_verbose dirichlet split_at_3 format_float (root [1]%Z)
                  X_one y_one F64.zero false false = Ok t) /\
  fit_verbose dirichlet split_at_3 format_float (root [1]%Z)
              X_one y_one F64.zero false true
  = Raise (TypeError "len() of unsized object").
Proof.
  assert (Hopt : forall d (pp' : float) (pr' : Params) (X' : Matrix)
                        (y' : list Label) normal origin,
             d = 1 ->
             solve split_at_3 pp' pr' X' y' = Some (normal, origin) ->
             length normal = d /\ length origin = d).
  { intros d pp' pr' X' y' normal origin -> H. injection H as <- <-.
    split; reflexivity. }
  split; [|split].
  - apply (@fit_succeeds_on_well_formed_input Params Label dirichlet
             split_at_3 format_float F64.one (map f [2; 1]%Z) 0 X4 y4
             F64.one true true).
    + intros _. vm_compute. reflexivity.
    + vm_compute. reflexivity.
    + vm_compute. lia.
    + intros pp' pr' X' y' normal origin _. apply Hopt. reflexivity.
    + right. vm_compute. lia.
  - destruct (proj1 (@fit_succeeds_on_well_formed_input Params Label
                       dirichlet split_at_3 format_float F64.one
                       (map f [1]%Z) 0 X_one y_one F64.zero false false
                       (fun _ => eq_refl) eq_refl (le_n 1)
                       (fun pp' pr' X' y' normal origin _ =>
                          @Hopt 1 pp' pr' X' y' normal origin eq_refl))
                    (or_introl eq_refl))
      as (t & Ht & _).
    exists t. exact Ht.
  - apply (@fit_succeeds_on_well_formed_input Params Label dirichlet
             split_at_3 format_float F64.one (map f [1]%Z) 0 X_one y_one
             F64.zero false true).
    + intros _. vm_compute. reflexivity.
    + vm_compute. reflexivity.
    + vm_compute. lia.
    + intros pp' pr' X' y' normal origin _. apply Hopt. reflexivity.
    + reflexivity.
    + reflexivity.
Defined.

(** X16 on the deep tree: each of its nodes is visited by a training
    row, and its first leaf is the leaf of one. *)
Lemma every_leaf_holds_a_training_row_witness :
  visited t_deep (rows X4) /\
  exists l i x,
    nth_error (leaves_of t_deep) 0 = Some l /\
    nth_error (rows X4) i = Some x /\ leaf_for t_deep x = Some l.
Proof.
  destruct (@every_leaf_holds_a_training_row Params Label dirichlet
              second_row_optimizer format_float F64.one (map f [1; 1]%Z) 0
              X4 y4' F64.zero false t_deep)
    as [V Hleaves].
  - vm_compute. lia.
  - exact tree_deep_run.
  - split; [exact V|].
    assert (Hl : exists l, nth_error (leaves_of t_deep) 0 = Some l)
      by (eexists; vm_compute; reflexivity).
    destruct Hl as (l & Hl).
    destruct (Hleaves l (nth_error_In _ _ Hl)) as (i & x & Hi & Hx).
    exists l, i, x. repeat split; assumption.
Defined.

Lemma tree_plane_run : tree_plane = Ok t_plane.
Proof. vm_compute. reflexivity. Qed.

(** X17 on [t5] and the rows of [X_nan], the first of which is not a
    number at the root and gets 0.0; and on the tree in the plane, where
    the infinite row passes the root and gets NaN. *)
Lemma unrouted_rows_get_zero_or_nan_witness :
  (exists a, predict dirichlet t5 X_nan = Ok a /\
             nth_error a 0 = Some F64.zero) /\
  leaf_for t_plane [S754_infinity false; f 1] = None /\
  predict dirichlet t_plane X_inf = Ok [F64.nan].
Proof.
  split; [|split; vm_compute; reflexivity].
  destruct (@unrouted_rows_get_zero_or_nan Params Label dirichlet split_at_2
              format_float t5 X_nan t5_trained eq_refl)
    as (a & Ha & _ & Hroot).
  exists a. split; [exact Ha|].
  apply (Hroot 0 [F64.nan] [f 1] [f 2]); vm_compute; reflexivity.
Defined.

End Runs.
